(** * Trading journal: ingestion, ledger and metrics engine

    A shallow embedding of the TypeScript sources
    ([App.tsx], [components/TradeModal.tsx] with the Google-Sheet import
    modal, [components/SyncModal.tsx], [utils/tradeCalculations.ts],
    [types.ts]) and the properties of the ledger, the parsers, the filter,
    the metrics and the backup codec.

    Conventions of the embedding.
    - A JavaScript string is the list of its code units; only code units
      below 256 occur, so a code unit is an [ascii].
    - A JavaScript number is an exact rational.  [number] is [option Q]
      with [None] for NaN; an optional numeric field is [option Q] with
      [None] for [undefined] (ToNumber maps [undefined] to NaN, so the two
      readings agree wherever a field enters arithmetic).  Rounding to
      binary64 and the two infinities are outside the model.
    - A [Date] is its time value, an integer count of milliseconds since
      the epoch; only valid dates are represented.
    - [Array.prototype.sort] is stable (ECMAScript 2019), so with a
      consistent comparator its result is determined; it is written as a
      stable insertion sort. *)

From Stdlib Require Import String Ascii DecimalString ZArith QArith Qabs Bool List Sorted Permutation Lia Lqa.
Import ListNotations.

Set Implicit Arguments.

Local Open Scope list_scope.

(** ** The JavaScript runtime functions the sources call *)

Module JS.

Definition jsstring := list ascii.

Definition str (s : string) : jsstring := list_ascii_of_string s.

Definition number := option Q.

Definition code (c : ascii) : N := N_of_ascii c.

Definition isDigit (c : ascii) : bool :=
  ((48 <=? code c) && (code c <=? 57))%N.

Definition digitVal (c : ascii) : Z := Z.of_N (code c) - 48.

(** WhiteSpace and LineTerminator code units below 256. *)
Definition isWhiteSpace (c : ascii) : bool :=
  let n := code c in
  ((9 <=? n) && (n <=? 13) || (n =? 32) || (n =? 160))%N.

Fixpoint trimStart (s : jsstring) : jsstring :=
  match s with
  | c :: r => if isWhiteSpace c then trimStart r else s
  | [] => []
  end.

Definition trimEnd (s : jsstring) : jsstring := rev (trimStart (rev s)).

Definition trim (s : jsstring) : jsstring := trimEnd (trimStart s).

Definition lowerChar (c : ascii) : ascii :=
  let n := code c in
  if ((65 <=? n) && (n <=? 90)
      || (192 <=? n) && (n <=? 222) && negb (n =? 215))%N
  then ascii_of_N (n + 32) else c.

Definition toLowerCase (s : jsstring) : jsstring := map lowerChar s.

Definition eqc (a b : ascii) : bool := Ascii.eqb a b.

Fixpoint startsWith (p s : jsstring) : bool :=
  match p, s with
  | [], _ => true
  | a :: p', b :: s' => eqc a b && startsWith p' s'
  | _ :: _, [] => false
  end.

Fixpoint includes (s sub : jsstring) : bool :=
  startsWith sub s ||
  match s with
  | [] => false
  | _ :: r => includes r sub
  end.

Definition streq (a b : jsstring) : bool :=
  if list_eq_dec ascii_dec a b then true else false.

(** [s.split(sep)] for a separator that is a single code unit or a
    one-character class: the result is never empty. *)
Fixpoint split (sep : ascii -> bool) (s : jsstring) : list jsstring :=
  match s with
  | [] => [[]]
  | c :: r =>
      if sep c then [] :: split sep r
      else match split sep r with
           | h :: t => (c :: h) :: t
           | [] => [[c]]
           end
  end.

Fixpoint join (sep : jsstring) (parts : list jsstring) : jsstring :=
  match parts with
  | [] => []
  | [p] => p
  | p :: rest => (p ++ sep ++ join sep rest)%list
  end.

(** [s.replace(/[cls]/g, '')]. *)
Definition removeAll (cls : ascii -> bool) (s : jsstring) : jsstring :=
  filter (fun c => negb (cls c)) s.

(** [s.replace(c, d)] with a string pattern: only the first occurrence. *)
Fixpoint replaceFirst (c d : ascii) (s : jsstring) : jsstring :=
  match s with
  | [] => []
  | x :: r => if eqc x c then d :: r else x :: replaceFirst c d r
  end.

(** [s.includes(c)] for a single code unit [c]. *)
Definition occurs (c : ascii) (s : jsstring) : bool := existsb (eqc c) s.

(** [s.lastIndexOf(c)], with [-1] when [c] does not occur. *)
Fixpoint lastIndexOf_from (c : ascii) (i : Z) (s : jsstring) (found : Z) : Z :=
  match s with
  | [] => found
  | x :: r => lastIndexOf_from c (i + 1) r (if eqc x c then i else found)
  end.

Definition lastIndexOf (c : ascii) (s : jsstring) : Z :=
  lastIndexOf_from c 0 s (-1).

(** Longest prefix of decimal digits and the rest. *)
Fixpoint spanDigits (s : jsstring) : jsstring * jsstring :=
  match s with
  | c :: r =>
      if isDigit c then let '(ds, rest) := spanDigits r in (c :: ds, rest)
      else ([], s)
  | [] => ([], [])
  end.

Definition digitsVal (ds : jsstring) : Z :=
  fold_left (fun acc c => 10 * acc + digitVal c)%Z ds 0%Z.

(** Optional sign of a numeric literal: the factor and the rest. *)
Definition signOf (s : jsstring) : Z * jsstring :=
  match s with
  | c :: r =>
      if eqc c "-"%char then ((-1)%Z, r)
      else if eqc c "+"%char then (1%Z, r)
      else (1%Z, s)
  | [] => (1%Z, [])
  end.

(** [parseInt(s, 10)]: leading white space, a sign, then the longest prefix
    of digits; NaN ([None]) when there is no digit. *)
Definition parseInt (s : jsstring) : option Z :=
  let '(sg, r) := signOf (trimStart s) in
  match spanDigits r with
  | ([], _) => None
  | (ds, _) => Some (sg * digitsVal ds)%Z
  end.

Definition pow10 (e : Z) : Q :=
  if (0 <=? e)%Z then inject_Z (10 ^ e) else / inject_Z (10 ^ (- e)).

(** Exponent part of a decimal literal: [e] or [E], a sign, at least one
    digit; when absent the exponent is 0. *)
Definition exponentOf (s : jsstring) : Z :=
  match s with
  | c :: r =>
      if eqc c "e"%char || eqc c "E"%char then
        let '(sg, r') := signOf r in
        match spanDigits r' with
        | ([], _) => 0%Z
        | (ds, _) => (sg * digitsVal ds)%Z
        end
      else 0%Z
  | [] => 0%Z
  end.

(** [parseFloat(s)]: leading white space, then the longest prefix that is a
    StrDecimalLiteral; NaN when there is none.  The literal [Infinity]
    denotes no rational and reads as [None] here. *)
Definition parseFloat (s : jsstring) : number :=
  let '(sg, r) := signOf (trimStart s) in
  let '(ip, r1) := spanDigits r in
  let '(fp, r2) :=
    match r1 with
    | c :: r1' =>
        if eqc c "."%char then
          let '(fp, r2) := spanDigits r1' in
          match ip, fp with
          | [], [] => ([], r1)
          | _, _ => (fp, r2)
          end
        else ([], r1)
    | [] => ([], [])
    end in
  match ip, fp with
  | [], [] => None
  | _, _ =>
      Some (inject_Z sg
            * (inject_Z (digitsVal (ip ++ fp)%list)
               / inject_Z (10 ^ Z.of_nat (length fp)))
            * pow10 (exponentOf r2))%Q
  end.

(** Comparisons of numbers: false as soon as one side is NaN. *)
Definition gt0 (x : number) : bool :=
  match x with Some q => negb (Qle_bool q 0) | None => false end.

Definition le0 (x : number) : bool :=
  match x with Some q => Qle_bool q 0 | None => false end.

Definition isNaN (x : number) : bool :=
  match x with Some _ => false | None => true end.

Definition nadd (x y : number) : number :=
  match x, y with Some a, Some b => Some (a + b)%Q | _, _ => None end.

(** [x || undefined] on a number: 0 and NaN are falsy. *)
Definition orUndefined (x : number) : option Q :=
  match x with
  | Some q => if Qeq_bool q 0 then None else Some q
  | None => None
  end.

(** [x || null] on a string or null: the empty string is falsy. *)
Definition orNull (x : option jsstring) : option jsstring :=
  match x with
  | Some [] => None
  | a => a
  end.

(** [x || 0] on an optional number. *)
Definition orZero (x : option Q) : Q :=
  match x with Some q => q | None => 0%Q end.

(** [Array.prototype.sort(cmp)]: stable; [cmp a b <= 0] keeps [a] before
    [b]. *)
Section Sort.
Variable A : Type.
Variable cmp : A -> A -> Z.

Fixpoint sortInsert (x : A) (l : list A) : list A :=
  match l with
  | [] => [x]
  | y :: r =>
      if (cmp x y <=? 0)%Z then x :: y :: r else y :: sortInsert x r
  end.

Fixpoint sort (l : list A) : list A :=
  match l with
  | [] => []
  | x :: r => sortInsert x (sort r)
  end.
End Sort.

(** [l.map((t, index) => f t index)], the index counted from [i]. *)
Fixpoint mapi_from (A B : Type) (f : A -> Z -> B) (i : Z) (l : list A) : list B :=
  match l with
  | [] => []
  | x :: r => f x i :: mapi_from f (i + 1) r
  end.

Definition mapi (A B : Type) (f : A -> Z -> B) (l : list A) : list B :=
  mapi_from f 0 l.

(** *** Dates

    The proleptic Gregorian calendar of the ECMAScript Day, Year, Month
    and Date functions, as day counts relative to 1970-01-01. *)

Definition msPerDay : Z := 86400000.

Definition maxTime : Z := 8640000000000000.

(** [TimeClip]. *)
Definition TimeClip (t : Z) : option Z :=
  if (Z.abs t <=? maxTime)%Z then Some t else None.

(** Day number of the civil date [y]-[m]-[d], [m] in 1..12; [d] may lie
    outside the month and then counts on from its first day. *)
Definition daysFromCivil (y m d : Z) : Z :=
  (let y' := if m <=? 2 then y - 1 else y in
   let era := y' / 400 in
   let yoe := y' - era * 400 in
   let mp := if 2 <? m then m - 3 else m + 9 in
   let doy := (153 * mp + 2) / 5 + d - 1 in
   let doe := yoe * 365 + yoe / 4 - yoe / 100 + doy in
   era * 146097 + doe - 719468)%Z.

(** The civil date of a day number. *)
Definition civilFromDays (z : Z) : Z * Z * Z :=
  (let z' := z + 719468 in
   let era := z' / 146097 in
   let doe := z' - era * 146097 in
   let yoe := (doe - doe / 1460 + doe / 36524 - doe / 146096) / 365 in
   let doy := doe - (365 * yoe + yoe / 4 - yoe / 100) in
   let mp := (5 * doy + 2) / 153 in
   let d := doy - (153 * mp + 2) / 5 + 1 in
   let m := if mp <? 10 then mp + 3 else mp - 9 in
   let y := yoe + era * 400 in
   (if m <=? 2 then y + 1 else y, m, d))%Z.

Definition isLeap (y : Z) : bool :=
  ((y mod 4 =? 0) && (negb (y mod 100 =? 0) || (y mod 400 =? 0)))%Z.

Definition daysInMonth (y m : Z) : Z :=
  if (m =? 2)%Z then (if isLeap y then 29 else 28)%Z
  else if ((m =? 4) || (m =? 6) || (m =? 9) || (m =? 11))%Z then 30%Z
  else 31%Z.

(** [MakeDay(year, month, date)] with [month] counted from 0. *)
Definition MakeDay (year month dt : Z) : Z :=
  (let ym := year + month / 12 in
   let mn := month mod 12 in
   daysFromCivil ym (mn + 1) 1 + dt - 1)%Z.

(** [Date.UTC(year, month, day)] on integer arguments. *)
Definition Date_UTC (year month day : Z) : option Z :=
  let yr := if ((0 <=? year) && (year <=? 99))%Z then (1900 + year)%Z else year in
  TimeClip (MakeDay yr month day * msPerDay).

(** [date.setUTCHours(h, m, s, ms)] on a valid date. *)
Definition setUTCHours (t h m s ms : Z) : Z :=
  ((t / msPerDay) * msPerDay + ((h * 60 + m) * 60 + s) * 1000 + ms)%Z.

Definition digitChar (n : Z) : ascii := ascii_of_N (Z.to_N (48 + n mod 10)).

(** The last [w] decimal digits of [n], most significant first. *)
Fixpoint pad (w : nat) (n : Z) : jsstring :=
  match w with
  | O => []
  | S w' => (pad w' (n / 10) ++ [digitChar n])%list
  end.

(** Decimal numeral of a non-negative integer, as [String(n)] prints it. *)
Definition ofZ (n : Z) : jsstring :=
  str (NilZero.string_of_uint (N.to_uint (Z.to_N n))).

(** [new Date(t).toISOString()] for a valid time value. *)
Definition toISOString (t : Z) : jsstring :=
  (let day := t / msPerDay in
   let ms := t mod msPerDay in
   let '(y, m, d) := civilFromDays day in
   let year :=
     if (0 <=? y) && (y <=? 9999) then pad 4 y
     else ((if y <? 0 then "-"%char else "+"%char) :: pad 6 (Z.abs y))%list in
   year ++ str "-" ++ pad 2 m ++ str "-" ++ pad 2 d ++ str "T"
   ++ pad 2 (ms / 3600000) ++ str ":" ++ pad 2 (ms / 60000 mod 60)
   ++ str ":" ++ pad 2 (ms / 1000 mod 60) ++ str "." ++ pad 3 (ms mod 1000)
   ++ str "Z")%Z%list.

(** [n] digits exactly, then the rest. *)
Definition readDigits (n : nat) (s : jsstring) : option (Z * jsstring) :=
  let ds := firstn n s in
  if (length ds =? n)%nat && forallb isDigit ds
  then Some (digitsVal ds, skipn n s) else None.

Definition expect (c : ascii) (s : jsstring) : option jsstring :=
  match s with
  | x :: r => if eqc x c then Some r else None
  | [] => None
  end.

Definition bind (A B : Type) (x : option A) (f : A -> option B) : option B :=
  match x with Some a => f a | None => None end.

(** The year of the Date Time String Format: four digits, or a sign and
    six digits. *)
Definition isoYear (s : jsstring) : option (Z * jsstring) :=
  match s with
  | c :: r =>
      if eqc c "+"%char then readDigits 6 r
      else if eqc c "-"%char
      then option_map (fun '(y, r') => ((- y)%Z, r')) (readDigits 6 r)
      else readDigits 4 s
  | [] => None
  end.

(** The time [THH:mm:ss.sssZ] to the end of the text, in milliseconds. *)
Definition isoTime (r : jsstring) : option Z :=
  bind (expect "T" r) (fun r =>
  bind (readDigits 2 r) (fun '(h, r) =>
  bind (expect ":" r) (fun r =>
  bind (readDigits 2 r) (fun '(mi, r) =>
  bind (expect ":" r) (fun r =>
  bind (readDigits 2 r) (fun '(sec, r) =>
  bind (expect "." r) (fun r =>
  bind (readDigits 3 r) (fun '(ms, r) =>
  bind (expect "Z" r) (fun r =>
  match r with
  | [] =>
      if ((h <=? 23) && (mi <=? 59) && (sec <=? 59))%Z
      then Some (((h * 60 + mi) * 60 + sec) * 1000 + ms)%Z
      else None
  | _ => None
  end))))))))).

(** The two forms of the Date Time String Format that the application
    writes itself, [YYYY-MM-DD] and [YYYY-MM-DDTHH:mm:ss.sssZ] (with the
    expanded year [+YYYYYY] or [-YYYYYY]), read as [Date.parse] reads them.
    What [Date.parse] makes of any other text is left to the
    implementation by ECMAScript; here it reads as an invalid date. *)
Definition parseISO (s : jsstring) : option Z :=
  bind (isoYear s) (fun '(y, r) =>
  bind (expect "-" r) (fun r =>
  bind (readDigits 2 r) (fun '(m, r) =>
  bind (expect "-" r) (fun r =>
  bind (readDigits 2 r) (fun '(d, r) =>
  if negb ((1 <=? m) && (m <=? 12) && (1 <=? d) && (d <=? daysInMonth y m))%Z
  then None
  else
    match r with
    | [] => TimeClip (daysFromCivil y m d * msPerDay)
    | _ =>
        bind (isoTime r) (fun ms =>
        TimeClip (daysFromCivil y m d * msPerDay + ms))
    end))))).

End JS.

Import JS.

(** ** [types.ts] *)

Inductive TradeDirection := Long | Short.

Inductive Status := open | closed.

Record Trade := mkTrade {
  id : Z;
  date : Z;
  asset : jsstring;
  direction : TradeDirection;
  entryPrice : Q;
  exitPrice : option Q;
  size : Q;
  pnl : option Q;
  journal : jsstring;
  status : Status;
  analysis : option jsstring;
  stopLoss : option Q;
  takeProfit : option Q;
  leverage : option jsstring
}.

(** [Omit<Trade, 'id' | 'status'>]. *)
Record TradeInput := mkTradeInput {
  i_date : Z;
  i_asset : jsstring;
  i_direction : TradeDirection;
  i_entryPrice : Q;
  i_exitPrice : option Q;
  i_size : Q;
  i_pnl : option Q;
  i_journal : jsstring;
  i_analysis : option jsstring;
  i_stopLoss : option Q;
  i_takeProfit : option Q;
  i_leverage : option jsstring
}.

Record Strategy := mkStrategy {
  s_id : jsstring;
  s_name : jsstring;
  s_content : jsstring
}.

Inductive PnlOutcome := all | win | loss.

Record FilterState := mkFilterState {
  startDate : jsstring;
  endDate : jsstring;
  f_asset : jsstring;
  pnlOutcome : PnlOutcome;
  tradeId : jsstring
}.

(** A trade of the backup file: a [Trade] whose date is an ISO string.
    [b_rest] holds the other fields; its own [date] is not read. *)
Record BackupTrade := mkBackupTrade {
  b_date : jsstring;
  b_rest : Trade
}.

(** The parsed backup file, as [isValidBackup] looks at it: a field is
    [None] when the property is missing or is not of the type the check
    asks for (an array, a number, a string); [d_activeStrategyId] is
    [None] for [null] or a missing property. *)
Record BackupData := mkBackupData {
  d_trades : option (list BackupTrade);
  d_initialCapital : option Q;
  d_strategies : option (list Strategy);
  d_activeStrategyId : option jsstring;
  d_timestamp : option jsstring
}.

(** The state that a backup captures. *)
Record AppState := mkAppState {
  trades : list Trade;
  initialCapital : Q;
  strategies : list Strategy;
  activeStrategyId : option jsstring
}.

Definition withId (t : Trade) (n : Z) : Trade :=
  mkTrade n (date t) (asset t) (direction t) (entryPrice t) (exitPrice t)
    (size t) (pnl t) (journal t) (status t) (analysis t) (stopLoss t)
    (takeProfit t) (leverage t).

Definition withDate (t : Trade) (d : Z) : Trade :=
  mkTrade (id t) d (asset t) (direction t) (entryPrice t) (exitPrice t)
    (size t) (pnl t) (journal t) (status t) (analysis t) (stopLoss t)
    (takeProfit t) (leverage t).

Definition withStatus (t : Trade) (s : Status) : Trade :=
  mkTrade (id t) (date t) (asset t) (direction t) (entryPrice t) (exitPrice t)
    (size t) (pnl t) (journal t) s (analysis t) (stopLoss t)
    (takeProfit t) (leverage t).

(** ** [App.tsx]: the ledger *)

Module App.

(** [(a, b) => a.date.getTime() - b.date.getTime()] *)
Definition byDate (a b : Trade) : Z := (date a - date b)%Z.

(** [sorted.map((t, index) => ({...t, id: index + 1}))] *)
Definition renumber (l : list Trade) : list Trade :=
  mapi (fun t index => withId t (index + 1)) l.

Definition resequence (l : list Trade) : list Trade :=
  renumber (sort byDate l).

Definition getNextId (currentTrades : list Trade) : Z :=
  match currentTrades with
  | [] => 1
  | t :: r => (fold_left Z.max (map id r) (id t) + 1)%Z
  end.

(** [{ ...trade, id: nextId, status }], with [pnl] overridden when given. *)
Definition newTrade (trade : TradeInput) (nextId : Z) (st : Status)
    (p : option Q) : Trade :=
  mkTrade nextId (i_date trade) (i_asset trade) (i_direction trade)
    (i_entryPrice trade) (i_exitPrice trade) (i_size trade) p
    (i_journal trade) st (i_analysis trade) (i_stopLoss trade)
    (i_takeProfit trade) (i_leverage trade).

Definition handleOpenTrade (trade : TradeInput) (prev : list Trade) : list Trade :=
  let nextId := getNextId prev in
  let newT := newTrade trade nextId open (i_pnl trade) in
  resequence (prev ++ [newT])%list.

(** [if (exitPrice)]: a number is truthy when it is neither 0 nor NaN. *)
Definition completePnl (trade : TradeInput) : Q :=
  match i_exitPrice trade with
  | Some x =>
      if Qeq_bool x 0 then 0%Q
      else match i_direction trade with
           | Long => ((x - i_entryPrice trade) * i_size trade)%Q
           | Short => ((i_entryPrice trade - x) * i_size trade)%Q
           end
  | None => 0%Q
  end.

Definition handleAddCompleteTrade (trade : TradeInput) (prev : list Trade)
    : list Trade :=
  let nextId := getNextId prev in
  let newT := newTrade trade nextId closed (Some (completePnl trade)) in
  resequence (prev ++ [newT])%list.

Definition handleUpdateTrade (updatedTrade : Trade) (prev : list Trade)
    : list Trade :=
  let updated :=
    map (fun t => if (id t =? id updatedTrade)%Z then updatedTrade else t) prev in
  resequence updated.

Definition handleConfirmDelete (i : Z) (prev : list Trade) : list Trade :=
  let remainingTrades := filter (fun trade => negb (id trade =? i)%Z) prev in
  resequence remainingTrades.

(** [Omit<Trade, 'id'>]: the fields of a [TradeInput] and a status. *)
Definition ImportedTrade : Type := TradeInput * Status.

(** The imported trades join the ledger without id (written 0 here) and
    every trade of the combined ledger gets its id and the status
    [closed]. *)
Definition handleImportFromGoogleSheet (newTrades : list ImportedTrade)
    (prev : list Trade) : list Trade :=
  match newTrades with
  | [] => prev
  | _ =>
      let combined :=
        (prev ++ map (fun '(t, st) => newTrade t 0 st (i_pnl t)) newTrades)%list in
      let sorted := sort byDate combined in
      mapi (fun t index => withStatus (withId t (index + 1)) closed) sorted
  end.

(** Outcome of reading a backup file. *)
Inductive RestoreResult :=
| InvalidBackup
| InvalidDateObject
| Restored (s : AppState).

Fixpoint parseDates (Date_parse : jsstring -> option Z)
    (l : list BackupTrade) : option (list Trade) :=
  match l with
  | [] => Some []
  | b :: r =>
      match Date_parse (b_date b), parseDates Date_parse r with
      | Some d, Some r' => Some (withDate (b_rest b) d :: r')
      | _, _ => None
      end
  end.

Definition isValidBackup (d : BackupData) : bool :=
  match d_trades d, d_initialCapital d, d_strategies d, d_timestamp d with
  | Some _, Some _, Some _, Some _ => true
  | _, _, _, _ => false
  end.

(** [handleRestore], once the user has confirmed.  [Date_parse] is
    [new Date(string)], [None] for an invalid date; a trade with an invalid
    date has no representation here ([InvalidDateObject]). *)
Definition handleRestore (Date_parse : jsstring -> option Z) (d : BackupData)
    : RestoreResult :=
  match d_trades d, d_initialCapital d, d_strategies d, d_timestamp d with
  | Some ts, Some cap, Some strats, Some _ =>
      match parseDates Date_parse ts with
      | Some dated =>
          let restoredTrades :=
            renumber (sort byDate (mapi (fun t index => withId t (index + 1)) dated)) in
          Restored
            (mkAppState restoredTrades cap strats
               (orNull (d_activeStrategyId d)))
      | None => InvalidDateObject
      end
  | _, _, _, _ => InvalidBackup
  end.

(** The bounds that the id filter reads from its trimmed text. *)
Definition idBounds (idFilter : jsstring) : option (Z * Z) :=
  if occurs "-" idFilter then
    match split (eqc "-") idFilter with
    | p0 :: p1 :: _ =>
        match parseInt p0, parseInt p1 with
        | Some st, Some en => if (st <=? en)%Z then Some (st, en) else None
        | _, _ => None
        end
    | _ => None
    end
  else
    match parseInt idFilter with
    | Some singleId => Some (singleId, singleId)
    | None => None
    end.

Definition nonEmpty (s : jsstring) : bool :=
  match s with [] => false | _ => true end.

Definition passesFilters (Date_parse : jsstring -> option Z)
    (filters : FilterState) (trade : Trade) : bool :=
  let tradeDate := date trade in
  let afterStart :=
    if nonEmpty (startDate filters) then
      match Date_parse (startDate filters) with
      | Some st => negb (tradeDate <? setUTCHours st 0 0 0 0)%Z
      | None => true
      end
    else true in
  let beforeEnd :=
    if nonEmpty (endDate filters) then
      match Date_parse (endDate filters) with
      | Some en => negb (setUTCHours en 23 59 59 999 <? tradeDate)%Z
      | None => true
      end
    else true in
  let assetOk :=
    negb (nonEmpty (f_asset filters)
          && negb (includes (toLowerCase (asset trade))
                            (toLowerCase (f_asset filters)))) in
  let outcomeOk :=
    match pnlOutcome filters with
    | all => true
    | win => negb (match pnl trade with None => true | Some p => Qle_bool p 0 end)
    | loss =>
        negb (match pnl trade with None => true | Some p => negb (Qle_bool p 0) end)
    end in
  afterStart && beforeEnd && assetOk && outcomeOk.

Definition filteredTrades (Date_parse : jsstring -> option Z)
    (trades : list Trade) (filters : FilterState) : list Trade :=
  let idFilter := trim (tradeId filters) in
  if nonEmpty idFilter then
    match idBounds idFilter with
    | Some (startId, endId) =>
        filter (fun trade => (startId <=? id trade)%Z && (id trade <=? endId)%Z)
          trades
    | None => []
    end
  else filter (passesFilters Date_parse filters) trades.

End App.

(** ** [components/TradeModal.tsx]: the trade form and quick-add *)

Module TradeModal.

Record FormData := mkFormData {
  fd_date : jsstring;
  fd_asset : jsstring;
  fd_direction : TradeDirection;
  fd_leverage : jsstring;
  fd_entryPrice : jsstring;
  fd_exitPrice : jsstring;
  fd_size : jsstring;
  fd_journal : jsstring;
  fd_stopLoss : jsstring;
  fd_takeProfit : jsstring
}.

(** What a handler asks the ledger to do.  [InvalidDate] stands for a call
    with a trade whose date is invalid, which has no representation here;
    the dates that reach the handlers are [YYYY-MM-DD] texts written by a
    date input or by [toISOString], which [Date] reads. *)
Inductive Action :=
| NoAction
| InvalidDate
| OnOpenTrade (t : TradeInput)
| OnAddCompleteTrade (t : TradeInput)
| OnUpdateTrade (t : Trade).

Definition applyAction (a : Action) (prev : list Trade) : list Trade :=
  match a with
  | NoAction | InvalidDate => prev
  | OnOpenTrade t => App.handleOpenTrade t prev
  | OnAddCompleteTrade t => App.handleAddCompleteTrade t prev
  | OnUpdateTrade t => App.handleUpdateTrade t prev
  end.

Definition isClosed (t : option Trade) : bool :=
  match t with
  | Some e => match status e with closed => true | open => false end
  | None => false
  end.

(** [isNaN(x) || x <= 0] *)
Definition notPositive (x : number) : bool := isNaN x || le0 x.

(** [validate()]: true when no error is recorded. *)
Definition validate (existingTrade : option Trade)
    (isExitRequiredAfterPaste : bool) (formData : FormData) : bool :=
  let assetOk := App.nonEmpty (trim (fd_asset formData)) in
  let dateOk := App.nonEmpty (fd_date formData) in
  let entryOk := negb (notPositive (parseFloat (fd_entryPrice formData))) in
  let sizeOk := negb (notPositive (parseFloat (fd_size formData))) in
  let isExitPricePotentiallyRequired :=
    isClosed existingTrade || isExitRequiredAfterPaste in
  let exitPriceValue := trim (fd_exitPrice formData) in
  let exitOk :=
    if isExitPricePotentiallyRequired && negb (App.nonEmpty exitPriceValue)
    then false
    else if App.nonEmpty exitPriceValue
         then negb (notPositive (parseFloat exitPriceValue))
         else true in
  assetOk && dateOk && entryOk && sizeOk && exitOk.

(** The [pnl] state of the form: the effect on the price, size and
    direction fields has run before any event is handled, so the state
    holds this value ([None] for [null]). *)
Definition calculatedPnl (formData : FormData) : option Q :=
  match parseFloat (fd_entryPrice formData),
        parseFloat (fd_exitPrice formData),
        parseFloat (fd_size formData) with
  | Some entry, Some exit, Some sz =>
      if gt0 (Some entry) && gt0 (Some exit) && gt0 (Some sz) then
        Some (match fd_direction formData with
              | Long => (exit - entry) * sz
              | Short => (entry - exit) * sz
              end)%Q
      else None
  | _, _, _ => None
  end.

(** [handleSubmit]. [Date_parse] is [new Date(string)]; a trade with an
    invalid date has no representation here ([InvalidDate]).  The entry
    price and the size have passed [validate], so they are numbers and the
    last branch is never taken. *)
Definition handleSubmit (Date_parse : jsstring -> option Z)
    (existingTrade : option Trade) (isExitRequiredAfterPaste : bool)
    (formData : FormData) : Action :=
  if negb (validate existingTrade isExitRequiredAfterPaste formData)
  then NoAction
  else
    match Date_parse (fd_date formData),
          parseFloat (fd_entryPrice formData),
          parseFloat (fd_size formData) with
    | None, _, _ => InvalidDate
    | Some d, Some entry, Some sz =>
        let stop := orUndefined (parseFloat (fd_stopLoss formData)) in
        let take := orUndefined (parseFloat (fd_takeProfit formData)) in
        let exit := orUndefined (parseFloat (fd_exitPrice formData)) in
        match existingTrade with
        | None =>
            if gt0 exit
            then OnAddCompleteTrade
                   (mkTradeInput d (fd_asset formData) (fd_direction formData)
                      entry exit sz None (fd_journal formData) None stop take
                      (Some (fd_leverage formData)))
            else OnOpenTrade
                   (mkTradeInput d (fd_asset formData) (fd_direction formData)
                      entry None sz None (fd_journal formData) None stop take
                      (Some (fd_leverage formData)))
        | Some existing =>
            let isNowClosed := gt0 exit in
            let newStatus := if isNowClosed then closed else open in
            let finalPnl := if isNowClosed then calculatedPnl formData else None in
            OnUpdateTrade
              (mkTrade (id existing) d (fd_asset formData)
                 (fd_direction formData) entry exit sz finalPnl
                 (fd_journal formData) newStatus (analysis existing) stop take
                 (Some (fd_leverage formData)))
        end
    | Some _, _, _ => NoAction
    end.

(** [text.replace(/(?<=\d),(?=\d{3})/g, '')]: a comma goes when the code
    unit before it is a digit and the three after it are digits.  [prev] is
    the code unit before [s] in the text. *)
Definition threeDigitsAhead (s : jsstring) : bool :=
  match s with
  | a :: b :: c :: _ => isDigit a && isDigit b && isDigit c
  | _ => false
  end.

Fixpoint stripGrouping (prev : option ascii) (s : jsstring) : jsstring :=
  match s with
  | [] => []
  | c :: r =>
      if eqc c ","%char
         && match prev with Some p => isDigit p | None => false end
         && threeDigitsAhead r
      then stripGrouping (Some c) r
      else c :: stripGrouping (Some c) r
  end.

Record PastedData := mkPastedData {
  p_date : jsstring;
  p_asset : jsstring;
  p_direction : TradeDirection;
  p_leverage : jsstring;
  p_entryPrice : option Q;
  p_exitPrice : option Q;
  p_stopLoss : option Q;
  p_takeProfit : option Q;
  p_size : option Q;
  p_journal : jsstring
}.

(** The inner [parseNumericValue] of [parsePastedData]; [None] as argument
    is a part that does not exist. *)
Definition parseNumericValue (value : option jsstring) : option Q :=
  match value with
  | None => None
  | Some v =>
      if negb (App.nonEmpty (trim v)) then None
      else parseFloat
             (removeAll (fun c => eqc c "$"%char || eqc c ","%char) (trim v))
  end.

Definition isComma (c : ascii) : bool := eqc c ","%char.

(** [parsePastedData]. [toISOString] throws on an invalid date and the
    handler of the exception returns [null]. *)
Definition parsePastedData (Date_parse : jsstring -> option Z)
    (text : jsstring) : option PastedData :=
  let sanitizedText := stripGrouping None text in
  let parts := split isComma sanitizedText in
  if (length parts <? 8)%nat then None
  else
    let structuredParts := map trim (firstn 9 parts) in
    let journal :=
      if (9 <? length parts)%nat
      then trim (join (str ",") (skipn 9 parts)) else [] in
    let part i := nth_error structuredParts i in
    let text_or_empty i := match part i with Some v => v | None => [] end in
    match Date_parse (text_or_empty 0%nat) with
    | None => None
    | Some t =>
        let dateOnly :=
          hd [] (split (fun c => eqc c "T"%char) (toISOString t)) in
        let direction :=
          if includes (toLowerCase (text_or_empty 2%nat)) (str "long")
          then Long else Short in
        Some (mkPastedData dateOnly (text_or_empty 1%nat) direction
                (text_or_empty 3%nat)
                (parseNumericValue (part 4%nat))
                (parseNumericValue (part 5%nat))
                (parseNumericValue (part 6%nat))
                (parseNumericValue (part 7%nat))
                (parseNumericValue (part 8%nat))
                journal)
    end.

(** What [handlePasteDataChange] does with the pasted text: nothing, fill
    the form, or ask whether this is an open trade (the action on
    confirmation; on cancel the form is filled and the exit price becomes
    required). *)
Inductive PasteOutcome :=
| PasteIgnored
| FillForm (data : PastedData)
| ConfirmOpenTrade (onConfirm : Action) (onCancel : PastedData).

Definition handlePasteDataChange (Date_parse : jsstring -> option Z)
    (text : jsstring) : PasteOutcome :=
  match parsePastedData Date_parse text with
  | None => PasteIgnored
  | Some data =>
      if gt0 (orUndefined (p_exitPrice data)) then FillForm data
      else
        ConfirmOpenTrade
          (match Date_parse (p_date data) with
           | Some d =>
               OnOpenTrade
                 (mkTradeInput d (p_asset data) (p_direction data)
                    (orZero (orUndefined (p_entryPrice data))) None
                    (orZero (orUndefined (p_size data))) None (p_journal data)
                    None (p_stopLoss data) (p_takeProfit data)
                    (Some (p_leverage data)))
           | None => InvalidDate
           end)
          data
  end.

End TradeModal.

(** ** [components/GoogleSheetImportModal.tsx]: the column-mapped import *)

Module GoogleSheetImportModal.

Inductive MappableFieldKey :=
| k_date | k_asset | k_direction | k_leverage | k_entryPrice | k_exitPrice
| k_size | k_stopLoss | k_takeProfit | k_justificacion | k_notas.

Definition Mapping := MappableFieldKey -> option jsstring.

(** The exceptions that make [handleImport] skip a row. *)
Inductive RowError :=
| FieldEmpty
| NotANumber
| DateMissing
| DateFormat
| DateValues
| RequiredMissing
| InvalidDirection.

Definition Result (A : Type) : Type := (RowError + A)%type.

Definition ret (A : Type) (a : A) : Result A := inr a.

Definition throw (A : Type) (e : RowError) : Result A := inl e.

Definition rbind (A B : Type) (x : Result A) (f : A -> Result B) : Result B :=
  match x with inl e => inl e | inr a => f a end.

Fixpoint indexOf (headers : list jsstring) (h : jsstring) : option nat :=
  match headers with
  | [] => None
  | x :: r =>
      if streq x h then Some 0%nat else option_map S (indexOf r h)
  end.

(** [tradeData[key]]: the cell of the row under the header mapped to
    [key]. *)
Definition tradeData (mapping : Mapping) (headers row : list jsstring)
    (key : MappableFieldKey) : option jsstring :=
  match mapping key with
  | Some headerName =>
      if App.nonEmpty headerName then
        match indexOf headers headerName with
        | Some headerIndex => nth_error row headerIndex
        | None => None
        end
      else None
  | None => None
  end.

(** [/[^\d,\.-]/]: what the sanitizer removes. *)
Definition notNumeric (c : ascii) : bool :=
  negb (isDigit c || eqc c ","%char || eqc c "."%char || eqc c "-"%char).

Definition isPeriod (c : ascii) : bool := eqc c "."%char.

Definition isComma (c : ascii) : bool := eqc c ","%char.

(** The separator policy of [parseNumericValue] on the sanitized text. *)
Definition normalizeSeparators (sanitizedValue : jsstring) : jsstring :=
  let lastComma := lastIndexOf "," sanitizedValue in
  let lastPeriod := lastIndexOf "." sanitizedValue in
  if ((-1 <? lastComma) && (-1 <? lastPeriod))%Z then
    if (lastPeriod <? lastComma)%Z
    then replaceFirst "," "." (removeAll isPeriod sanitizedValue)
    else removeAll isComma sanitizedValue
  else if (-1 <? lastComma)%Z then replaceFirst "," "." sanitizedValue
  else sanitizedValue.

Definition parseNumericValue (value : option jsstring) (isRequired : bool)
    : Result (option Q) :=
  let missing (e : RowError) : Result (option Q) :=
    if isRequired then throw _ e else ret None in
  match value with
  | None => missing FieldEmpty
  | Some v =>
      if negb (App.nonEmpty v) || negb (App.nonEmpty (trim v))
      then missing FieldEmpty
      else
        match parseFloat (normalizeSeparators (removeAll notNumeric (trim v))) with
        | None => missing NotANumber
        | Some number => ret (Some number)
        end
  end.

Definition isDateSeparator (c : ascii) : bool :=
  eqc c "/"%char || eqc c "-"%char || eqc c "."%char.

(** The date of a row.  A NaN among the three numbers makes [Date.UTC]
    return NaN. *)
Definition parseDate (value : option jsstring) : Result Z :=
  match value with
  | None => throw _ DateMissing
  | Some v =>
      if negb (App.nonEmpty v) || negb (App.nonEmpty (trim v))
      then throw _ DateMissing
      else
        let dateStr := trim v in
        match split isDateSeparator dateStr with
        | [s1; s2; s3] =>
            match parseInt s1, parseInt s2, parseInt s3 with
            | Some p1, Some p2, Some p3 =>
                let '(day, month, year) :=
                  if (length s1 =? 4)%nat then (p3, p2, p1) else (p1, p2, p3) in
                let year :=
                  if (year <? 100)%Z
                  then (if (50 <=? year)%Z then 1900 + year else 2000 + year)%Z
                  else year in
                match Date_UTC year (month - 1) day with
                | Some t =>
                    if ((month <? 1) || (12 <? month) || (day <? 1) || (31 <? day))%Z
                    then throw _ DateValues
                    else ret t
                | None => throw _ DateValues
                end
            | _, _, _ => throw _ DateValues
            end
        | _ => throw _ DateFormat
        end
  end.

Definition required (x : option Q) : Result Q :=
  match x with Some q => ret q | None => throw _ RequiredMissing end.

Definition parseDirection (value : option jsstring) : Result TradeDirection :=
  let dirString := toLowerCase (match value with Some v => v | None => [] end) in
  if includes dirString (str "long") || includes dirString (str "compra")
  then ret Long
  else if includes dirString (str "short") || includes dirString (str "venta")
  then ret Short
  else throw _ InvalidDirection.

Definition trimmed (value : option jsstring) : jsstring :=
  match value with Some v => trim v | None => [] end.

Definition journalOf (justificacion notas : option jsstring) : jsstring :=
  let justificacionText := trimmed justificacion in
  let notasText := trimmed notas in
  let j1 :=
    if App.nonEmpty justificacionText
    then str "Justificaci" ++ [ascii_of_N 243] ++ str "n t" ++ [ascii_of_N 233]
         ++ str "cnica: " ++ justificacionText
    else [] in
  if App.nonEmpty notasText then
    (if App.nonEmpty j1 then j1 ++ [ascii_of_N 10; ascii_of_N 10] else j1)
    ++ str "Notas adicionales: " ++ notasText
  else j1.

Definition orElse (value : option jsstring) (dflt : jsstring) : jsstring :=
  match value with
  | Some v => if App.nonEmpty v then v else dflt
  | None => dflt
  end.

(** One row of [handleImport]: the trade, or the exception that makes the
    row be skipped. *)
Definition importRow (mapping : Mapping) (headers row : list jsstring)
    : Result App.ImportedTrade :=
  let field := tradeData mapping headers row in
  rbind (parseDate (field k_date)) (fun parsedDate =>
  rbind (parseNumericValue (field k_entryPrice) true) (fun entryPrice =>
  rbind (parseNumericValue (field k_exitPrice) true) (fun exitPrice =>
  rbind (parseNumericValue (field k_size) true) (fun size =>
  rbind (parseNumericValue (field k_stopLoss) false) (fun stopLoss =>
  rbind (parseNumericValue (field k_takeProfit) false) (fun takeProfit =>
  rbind (required entryPrice) (fun entryPrice =>
  rbind (required exitPrice) (fun exitPrice =>
  rbind (required size) (fun size =>
  rbind (parseDirection (field k_direction)) (fun direction =>
  let pnl :=
    match direction with
    | Long => ((exitPrice - entryPrice) * size)%Q
    | Short => ((entryPrice - exitPrice) * size)%Q
    end in
  ret (mkTradeInput parsedDate (orElse (field k_asset) (str "N/A")) direction
         entryPrice (Some exitPrice) size (Some pnl)
         (journalOf (field k_justificacion) (field k_notas)) None
         stopLoss takeProfit (Some (orElse (field k_leverage) [])),
       closed))))))))))).

Fixpoint keepOk (A : Type) (l : list (Result A)) : list A :=
  match l with
  | [] => []
  | inr a :: r => a :: keepOk r
  | inl _ :: r => keepOk r
  end.

(** [handleImport]: the rows that parse, handed to the ledger. *)
Definition handleImport (mapping : Mapping) (headers : list jsstring)
    (allRows : list (list jsstring)) (prev : list Trade) : list Trade :=
  App.handleImportFromGoogleSheet
    (keepOk (map (importRow mapping headers) allRows)) prev.

End GoogleSheetImportModal.

(** ** [utils/tradeCalculations.ts]: the metrics *)

Module TradeCalculations.

Inductive StreakType := streak_win | streak_loss | streak_none.

Record DashboardMetrics := mkDashboardMetrics {
  totalPnl : number;
  winRate : number;
  lossRate : number;
  totalWins : Z;
  totalLosses : Z;
  averageWin : number;
  averageLoss : number;
  profitFactor : number;
  totalTrades : Z;
  maxWinStreakTrades : Z;
  maxLossStreakTrades : Z;
  currentStreak : StreakType * Z;
  chartData : list (jsstring * number);
  equityChartData : list (jsstring * number)
}.

Definition isClosed (t : Trade) : bool :=
  match status t with closed => true | open => false end.

(** [t.pnl! > 0] and [t.pnl! <= 0]: both false on an undefined [pnl]. *)
Definition isWin (t : Trade) : bool := gt0 (pnl t).

Definition isLoss (t : Trade) : bool := le0 (pnl t).

(** [l.reduce((acc, t) => acc + t.pnl!, 0)] *)
Definition sumPnl (l : list Trade) : number :=
  fold_left (fun acc t => nadd acc (pnl t)) l (Some 0%Q).

Definition lengthZ (A : Type) (l : list A) : Z := Z.of_nat (length l).

(** [(n / d) * 100] *)
Definition rate (n d : Z) : number :=
  Some ((inject_Z n / inject_Z d) * 100)%Q.

Definition ndiv (x : number) (n : Z) : number :=
  match x with Some q => Some (q / inject_Z n)%Q | None => None end.

(** [x !== 0] *)
Definition nonZero (x : number) : bool :=
  match x with Some q => negb (Qeq_bool q 0) | None => true end.

(** [Math.abs(x / y)] for [y !== 0]. *)
Definition absRatio (x y : number) : number :=
  match x, y with
  | Some a, Some b => Some (Qabs (a / b))
  | _, _ => None
  end.

(** The running sums of [pnl] over the sorted closed trades, each put
    through [f] under the name [Trade n]. *)
Fixpoint series (f : number -> number) (cumulativePnl : number) (index : Z)
    (l : list Trade) : list (jsstring * number) :=
  match l with
  | [] => []
  | t :: r =>
      let c := nadd cumulativePnl (pnl t) in
      ((str "Trade " ++ ofZ (index + 1))%list, f c) :: series f c (index + 1) r
  end.

(** The loop over the sorted trades that keeps the running and the longest
    winning and losing streaks. *)
Record Streaks := mkStreaks {
  maxWin : Z;
  currentWin : Z;
  maxLoss : Z;
  currentLoss : Z
}.

Definition streakStep (s : Streaks) (trade : Trade) : Streaks :=
  let '(cw, cl) :=
    if isWin trade then ((currentWin s + 1)%Z, 0%Z)
    else (0%Z, (currentLoss s + 1)%Z) in
  mkStreaks (Z.max (maxWin s) cw) cw (Z.max (maxLoss s) cl) cl.

(** The loop from the last trade backwards that counts the current
    streak: [l] is the sorted list reversed. *)
Fixpoint countStreak (wantWin : bool) (l : list Trade) : Z :=
  match l with
  | [] => 0
  | t :: r =>
      if Bool.eqb wantWin (isWin t) then (1 + countStreak wantWin r)%Z else 0%Z
  end.

Definition calculateMetrics (trades : list Trade) (initialCapital : Q)
    : DashboardMetrics :=
  let closedTrades := filter isClosed trades in
  match closedTrades with
  | [] =>
      mkDashboardMetrics (Some 0%Q) (Some 0%Q) (Some 0%Q) 0 0 (Some 0%Q)
        (Some 0%Q) (Some 0%Q) 0 0 0 (streak_none, 0%Z)
        [(str "Start", Some 0%Q)] [(str "Start", Some initialCapital)]
  | _ =>
      let wins := filter isWin closedTrades in
      let losses := filter isLoss closedTrades in
      let totalPnl := sumPnl closedTrades in
      let totalWins := lengthZ wins in
      let totalLosses := lengthZ losses in
      let totalTrades := lengthZ closedTrades in
      let winRate :=
        if (0 <? totalTrades)%Z then rate totalWins totalTrades else Some 0%Q in
      let lossRate :=
        if (0 <? totalTrades)%Z then rate totalLosses totalTrades else Some 0%Q in
      let totalWinPnl := sumPnl wins in
      let totalLossPnl := sumPnl losses in
      let averageWin :=
        if (0 <? totalWins)%Z then ndiv totalWinPnl totalWins else Some 0%Q in
      let averageLoss :=
        if (0 <? totalLosses)%Z then ndiv totalLossPnl totalLosses else Some 0%Q in
      let profitFactor :=
        if nonZero totalLossPnl then absRatio totalWinPnl totalLossPnl
        else Some 0%Q in
      let sortedTrades := sort App.byDate closedTrades in
      let chartData :=
        (str "Start", Some 0%Q) :: series (fun c => c) (Some 0%Q) 0 sortedTrades in
      let equityChartData :=
        (str "Start", Some initialCapital)
        :: series (fun c => nadd (Some initialCapital) c) (Some 0%Q) 0 sortedTrades in
      let streaks := fold_left streakStep sortedTrades (mkStreaks 0 0 0 0) in
      let currentStreak :=
        match rev sortedTrades with
        | [] => (streak_none, 0%Z)
        | lastTrade :: _ =>
            let w := isWin lastTrade in
            (if w then streak_win else streak_loss,
             countStreak w (rev sortedTrades))
        end in
      mkDashboardMetrics totalPnl winRate lossRate totalWins totalLosses
        averageWin averageLoss profitFactor totalTrades (maxWin streaks)
        (maxLoss streaks) currentStreak chartData equityChartData
  end.

End TradeCalculations.

(** ** [components/SyncModal.tsx]: the backup *)

Module SyncModal.

(** [handleCreateBackup]: the object that is written to the file.  [now]
    is the time of the backup.  The text of the file is
    [JSON.stringify] of this object and [JSON.parse] gives the object
    back: an undefined field is left out and reads as undefined, a null
    reads as null, numbers and strings read as they were written. *)
Definition handleCreateBackup (now : Z) (s : AppState) : BackupData :=
  mkBackupData
    (Some (map (fun t => mkBackupTrade (toISOString (date t)) t) (trades s)))
    (Some (initialCapital s))
    (Some (strategies s))
    (activeStrategyId s)
    (Some (toISOString now)).

End SyncModal.

(** ** [App.tsx]: the filter bar, the asset list and the strategies *)

Module AppView.

(** [resetFilters]: the state it sets. *)
Definition resetFilters : FilterState := mkFilterState [] [] [] all [].

Definition isFilterActive (filters : FilterState) : bool :=
  App.nonEmpty (startDate filters) || App.nonEmpty (endDate filters)
  || App.nonEmpty (f_asset filters)
  || match pnlOutcome filters with all => false | _ => true end
  || App.nonEmpty (tradeId filters).

(** [new Set(l)] read back with [Array.from]: the first occurrence of each
    string, in the order of insertion. *)
Fixpoint distinct (l : list jsstring) : list jsstring :=
  match l with
  | [] => []
  | x :: r => x :: filter (fun y => negb (streq x y)) (distinct r)
  end.

(** [a < b] on strings: the order of the code units. *)
Fixpoint ltString (a b : jsstring) : bool :=
  match a, b with
  | _, [] => false
  | [], _ :: _ => true
  | x :: a', y :: b' =>
      (code x <? code y)%N || ((code x =? code y)%N && ltString a' b')
  end.

(** The comparison of [Array.prototype.sort] called without a
    comparator. *)
Definition sortCompare (a b : jsstring) : Z :=
  if ltString a b then (-1)%Z else if ltString b a then 1%Z else 0%Z.

Definition uniqueAssets (trades : list Trade) : list jsstring :=
  sort sortCompare
    (distinct (filter App.nonEmpty (map (fun t => trim (asset t)) trades))).

(** The strategies and the id of the active one. *)
Definition StrategyState : Type := (list Strategy * option jsstring)%type.

(** [strategies.find(s => s.id === activeStrategyId) || null] *)
Definition activeStrategy (st : StrategyState) : option Strategy :=
  match snd st with
  | Some i => find (fun s => streq (s_id s) i) (fst st)
  | None => None
  end.

Definition handleSaveStrategy (strategy : Strategy) (st : StrategyState)
    : StrategyState :=
  let prev := fst st in
  let exists_ := existsb (fun s => streq (s_id s) (s_id strategy)) prev in
  (if exists_
   then map (fun s => if streq (s_id s) (s_id strategy) then strategy else s) prev
   else prev ++ [strategy],
   Some (s_id strategy)).

(** [handleDeleteStrategy], once the user has confirmed. *)
Definition handleDeleteStrategy (strategyId : jsstring) (st : StrategyState)
    : StrategyState :=
  (filter (fun s => negb (streq (s_id s) strategyId)) (fst st),
   match snd st with
   | Some a => if streq a strategyId then None else Some a
   | None => None
   end).

End AppView.

(** ** [components/LiveTrading.tsx]: saving a strategy *)

Module LiveTrading.

(** [handleSave]: the strategy handed to [onSaveStrategy], or nothing when
    the name or the content is blank.  [now] is the time of the call. *)
Definition handleSave (now : Z) (activeStrategyId : option jsstring)
    (currentName currentContent : jsstring) : option Strategy :=
  if negb (App.nonEmpty (trim currentName))
     || negb (App.nonEmpty (trim currentContent))
  then None
  else
    Some (mkStrategy
            (match orNull activeStrategyId with
             | Some i => i
             | None => toISOString now
             end)
            currentName currentContent).

End LiveTrading.

(** ** [utils/tradeCalculations.ts]: the current losing streak, and the
    audit suggestion of [App.tsx] that reads it *)

Module Streak.

(** The loop from the most recent trade backwards: [l] is the sorted list
    reversed. *)
Fixpoint countLosing (l : list Trade) : Z :=
  match l with
  | [] => 0
  | trade :: r => if le0 (pnl trade) then (1 + countLosing r)%Z else 0%Z
  end.

Definition calculateCurrentLosingTradeStreak (trades : list Trade) : Z :=
  let closedTrades :=
    sort App.byDate (filter TradeCalculations.isClosed trades) in
  match closedTrades with
  | [] => 0%Z
  | _ => countLosing (rev closedTrades)
  end.

(** What the effect on the trades asks the user. *)
Inductive Prompt :=
| NoPrompt
| StreakPrompt (losingTradeStreak : Z) (dismissUntil : Z)
| MilestonePrompt (currentCount : Z).

(** The effect of [App.tsx] that runs when the trades change.  [prevCount]
    is the count the ref holds ([None] before the first run); the result is
    the count the ref holds afterwards, the new value of
    [dismissedStreakAuditUntil] and the prompt.  [dismissUntil] is what the
    dismiss button of the prompt stores. *)
Definition auditSuggestion (prevCount : option Z) (trades : list Trade)
    (dismissedStreakAuditUntil : option Z) : Z * option Z * Prompt :=
  let currentCount := Z.of_nat (length trades) in
  let dismissed' :=
    match dismissedStreakAuditUntil with
    | Some d => if (d <? currentCount)%Z then None else Some d
    | None => None
    end in
  let prompt :=
    match prevCount with
    | None => NoPrompt
    | Some p =>
        if (currentCount <=? p)%Z then NoPrompt
        else
          let losingTradeStreak := calculateCurrentLosingTradeStreak trades in
          if (3 <=? losingTradeStreak)%Z then
            match dismissedStreakAuditUntil with
            | Some d =>
                if (currentCount <=? d)%Z then NoPrompt
                else StreakPrompt losingTradeStreak (currentCount + 10)
            | None => StreakPrompt losingTradeStreak (currentCount + 10)
            end
          else if (0 <? currentCount)%Z && (currentCount mod 10 =? 0)%Z
          then MilestonePrompt currentCount
          else NoPrompt
    end in
  (currentCount, dismissed', prompt).

End Streak.

(** ** [components/TradeModal.tsx]: the title and the submit button *)

Module TradeModalView.

Definition hasValidExitPrice (formData : TradeModal.FormData) : bool :=
  let exitPrice := parseFloat (TradeModal.fd_exitPrice formData) in
  negb (isNaN exitPrice) && gt0 exitPrice.

Definition getSubmitButtonText (existingTrade : option Trade)
    (formData : TradeModal.FormData) : jsstring :=
  match existingTrade with
  | None =>
      if hasValidExitPrice formData then str "Add Closed Trade"
      else str "Open Trade"
  | Some existing =>
      match status existing with
      | open =>
          if hasValidExitPrice formData then str "Save & Close Trade"
          else str "Save Changes"
      | closed => str "Save Changes"
      end
  end.

End TradeModalView.

(** ** [utils/googleSheetParser.ts] *)

Module GoogleSheetParser.

Definition sheetPrefix : jsstring :=
  str "https://docs.google.com/spreadsheets/d/".

Definition csvSuffix : jsstring :=
  str "/gviz/tq?tqx=out:csv&sheet=operaciones".

(** [[a-zA-Z0-9_-]] *)
Definition isIdChar (c : ascii) : bool :=
  let n := code c in
  ((97 <=? n) && (n <=? 122) || (65 <=? n) && (n <=? 90)
   || (48 <=? n) && (n <=? 57) || (n =? 95) || (n =? 45))%N.

Fixpoint spanId (s : jsstring) : jsstring * jsstring :=
  match s with
  | c :: r =>
      if isIdChar c then let '(i, rest) := spanId r in (c :: i, rest)
      else ([], s)
  | [] => ([], [])
  end.

(** [s] without the prefix [p], when it starts with it. *)
Fixpoint dropPrefix (p s : jsstring) : option jsstring :=
  match p, s with
  | [], _ => Some s
  | a :: p', b :: s' => if eqc a b then dropPrefix p' s' else None
  | _ :: _, [] => None
  end.

(** The regular expression tried at the start of [s]: the text of its
    group.  The class is matched greedily and the code unit after it has to
    be [/], which is not of the class, so no shorter match exists. *)
Definition matchHere (s : jsstring) : option jsstring :=
  match dropPrefix sheetPrefix s with
  | Some r =>
      match spanId r with
      | ((_ :: _) as sheetId, c :: _) =>
          if eqc c "/"%char then Some sheetId else None
      | _ => None
      end
  | None => None
  end.

(** [url.match(regex)]: the leftmost match. *)
Fixpoint firstMatch (url : jsstring) : option jsstring :=
  match matchHere url with
  | Some sheetId => Some sheetId
  | None =>
      match url with
      | [] => None
      | _ :: r => firstMatch r
      end
  end.

Definition getGoogleSheetCsvUrl (url : jsstring) : option jsstring :=
  match firstMatch url with
  | Some sheetId => Some (sheetPrefix ++ sheetId ++ csvSuffix)
  | None => None
  end.

End GoogleSheetParser.

(** ** [components/GoogleSheetImportModal.tsx]: reading the sheet *)

Module SheetReader.

Import GoogleSheetImportModal.

Definition dquote : ascii := ascii_of_N 34.

(** The loop of [parseCsvRow] over the rest of the line. *)
Fixpoint parseCsvLoop (line : jsstring) (result : list jsstring)
    (currentField : jsstring) (inQuotes : bool) : list jsstring :=
  match line with
  | [] => result ++ [currentField]
  | char :: rest =>
      if eqc char dquote then
        match rest with
        | next :: rest' =>
            if inQuotes && eqc next dquote
            then parseCsvLoop rest' result (currentField ++ [dquote]) inQuotes
            else parseCsvLoop rest result currentField (negb inQuotes)
        | [] => parseCsvLoop rest result currentField (negb inQuotes)
        end
      else if eqc char ","%char && negb inQuotes
      then parseCsvLoop rest (result ++ [currentField]) [] inQuotes
      else parseCsvLoop rest result (currentField ++ [char]) inQuotes
  end.

Definition parseCsvRow (line : jsstring) : list jsstring :=
  parseCsvLoop line [] [] false.

(** [text.split(/\r?\n/)]: a line feed ends a line and takes the carriage
    return before it. *)
Fixpoint splitLines (text : jsstring) : list jsstring :=
  match text with
  | [] => [[]]
  | c :: r =>
      if eqc c (ascii_of_N 10) then [] :: splitLines r
      else if eqc c (ascii_of_N 13)
              && match r with
                 | d :: _ => eqc d (ascii_of_N 10)
                 | [] => false
                 end
      then splitLines r
      else match splitLines r with
           | h :: t => (c :: h) :: t
           | [] => [[c]]
           end
  end.

(** What [handleFetch] makes of the text of the sheet: the headers and the
    rows, or nothing when the sheet has no data row (an exception in the
    source). *)
Definition readSheet (text : jsstring)
    : option (list jsstring * list (list jsstring)) :=
  let lines :=
    filter (fun line => App.nonEmpty (trim line)) (splitLines text) in
  match lines with
  | first :: ((_ :: _) as rows) =>
      Some (map trim (parseCsvRow first), map parseCsvRow rows)
  | _ => None
  end.

Definition eqKey (a b : MappableFieldKey) : bool :=
  match a, b with
  | k_date, k_date | k_asset, k_asset | k_direction, k_direction
  | k_leverage, k_leverage | k_entryPrice, k_entryPrice
  | k_exitPrice, k_exitPrice | k_size, k_size | k_stopLoss, k_stopLoss
  | k_takeProfit, k_takeProfit | k_justificacion, k_justificacion
  | k_notas, k_notas => true
  | _, _ => false
  end.

Definition allKeys : list MappableFieldKey :=
  [k_date; k_asset; k_direction; k_leverage; k_entryPrice; k_exitPrice;
   k_size; k_stopLoss; k_takeProfit; k_justificacion; k_notas].

(** [MAPPABLE_FIELDS]: the keys that are required. *)
Definition isRequiredKey (k : MappableFieldKey) : bool :=
  match k with
  | k_date | k_asset | k_direction | k_entryPrice | k_exitPrice | k_size => true
  | _ => false
  end.

(** [!!mapping[key]] *)
Definition isMapped (mapping : Mapping) (k : MappableFieldKey) : bool :=
  match mapping k with
  | Some h => App.nonEmpty h
  | None => false
  end.

Definition isMappingValid (mapping : Mapping) : bool :=
  forallb (fun k => negb (isRequiredKey k) || isMapped mapping k) allKeys.

(** The word that [autoMapHeaders] looks for in a header, for each key. *)
Definition keyword (k : MappableFieldKey) : jsstring :=
  match k with
  | k_date => str "fecha"
  | k_asset => str "par"
  | k_direction => str "direcci" ++ [ascii_of_N 243] ++ str "n"
  | k_leverage => str "apalancamiento"
  | k_entryPrice => str "entrada"
  | k_exitPrice => str "salida"
  | k_size => str "tama" ++ [ascii_of_N 241] ++ str "o"
  | k_stopLoss => str "stop loss"
  | k_takeProfit => str "take profit"
  | k_justificacion => str "justificaci" ++ [ascii_of_N 243] ++ str "n"
  | k_notas => str "notas"
  end.

Definition setKey (mapping : Mapping) (k : MappableFieldKey) (h : jsstring)
    : Mapping :=
  fun k' => if eqKey k k' then Some h else mapping k'.

(** The chain of [if ... else if ...]: the first key, in the order of the
    source, that is not mapped yet and whose word the header contains. *)
Fixpoint firstFree (mapping : Mapping) (lowerHeader : jsstring)
    (keys : list MappableFieldKey) : option MappableFieldKey :=
  match keys with
  | [] => None
  | k :: r =>
      if negb (isMapped mapping k) && includes lowerHeader (keyword k)
      then Some k
      else firstFree mapping lowerHeader r
  end.

(** [Object.values(newMapping).includes(header)] *)
Definition isValueOf (mapping : Mapping) (header : jsstring) : bool :=
  existsb (fun k => match mapping k with
                    | Some h => streq h header
                    | None => false
                    end) allKeys.

Definition autoMapStep (newMapping : Mapping) (header : jsstring) : Mapping :=
  let lowerHeader := trim (toLowerCase header) in
  if isValueOf newMapping header then newMapping
  else match firstFree newMapping lowerHeader allKeys with
       | Some k => setKey newMapping k header
       | None => newMapping
       end.

Definition autoMapHeaders (csvHeaders : list jsstring) : Mapping :=
  fold_left autoMapStep csvHeaders (fun _ => None).

End SheetReader.

(** ** [components/SyncModal.tsx]: the journal columns of the export *)

Module SheetExport.

(** [s.split(sep)] for a separator of at least one code unit; [skip]
    counts the code units of a separator still to pass over. *)
Fixpoint splitOn (sep : jsstring) (skip : nat) (s : jsstring)
    : list jsstring :=
  match s with
  | [] => [[]]
  | c :: r =>
      match skip with
      | S k => splitOn sep k r
      | O =>
          if startsWith sep s
          then [] :: splitOn sep (Nat.pred (length sep)) r
          else match splitOn sep 0 r with
               | h :: t => (c :: h) :: t
               | [] => [[c]]
               end
      end
  end.

(** [s.replace(pat, '')] with a string pattern: the first occurrence goes. *)
Fixpoint removeFirst (pat s : jsstring) : jsstring :=
  if startsWith pat s then skipn (length pat) s
  else match s with
       | [] => []
       | c :: r => c :: removeFirst pat r
       end.

(** The column titles of the first line that [handleExportForSheet]
    writes, which are separated by tabs there. *)
Definition headers : list jsstring :=
  [str "N" ++ [ascii_of_N 186]; str "Fecha"; str "Par";
   str "Direcci" ++ [ascii_of_N 243] ++ str "n"; str "Apalancamiento";
   str "Entrada"; str "Salida"; str "Stop Loss"; str "Take Profit";
   str "Tama" ++ [ascii_of_N 241] ++ str "o (ETH)";
   str "Justificaci" ++ [ascii_of_N 243] ++ str "n t" ++ [ascii_of_N 233]
   ++ str "cnica";
   str "Notas adicionales"].

Definition notasMark : jsstring := str "Notas adicionales:".

Definition justificacionMark : jsstring :=
  str "Justificaci" ++ [ascii_of_N 243] ++ str "n t" ++ [ascii_of_N 233]
  ++ str "cnica:".

(** The cells [justificacion] and [notas] that [handleExportForSheet]
    writes for a trade. *)
Definition journalCells (t : Trade) : jsstring * jsstring :=
  let journalParts := splitOn notasMark 0 (journal t) in
  let justificacion := trim (removeFirst justificacionMark (nth 0 journalParts [])) in
  let notas := nth 1 journalParts [] in
  (justificacion, trim notas).

End SheetExport.

(** ** [components/AiAudit.tsx]: the trades of an audit *)

Module AiAudit.

Inductive Selection :=
| lastN (n : Z)
| dateRange (startDate endDate : jsstring)
| idRange (startId endId : Z).

Inductive AuditError :=
| MissingDates
| StartAfterEnd
| NoTrades
| TooManyTrades.

(** [l.slice(-n)] *)
Definition sliceLast (A : Type) (n : Z) (l : list A) : list A :=
  let len := Z.of_nat (length l) in
  let relativeStart := (- n)%Z in
  let k :=
    if (relativeStart <? 0)%Z then Z.max (len + relativeStart) 0
    else Z.min relativeStart len in
  skipn (Z.to_nat k) l.

(** The trades that the selection picks.  [Date_parse] is
    [new Date(string)] and [endOfDay] is [setHours(23, 59, 59, 999)], which
    depends on the time zone; a comparison with an invalid date is false. *)
Definition selectTrades (Date_parse : jsstring -> option Z)
    (endOfDay : Z -> Z) (allTrades : list Trade) (selection : Selection)
    : AuditError + list Trade :=
  match selection with
  | lastN n => inr (sliceLast n allTrades)
  | dateRange startDate endDate =>
      if negb (App.nonEmpty startDate) || negb (App.nonEmpty endDate)
      then inl MissingDates
      else
        inr (match Date_parse startDate, Date_parse endDate with
             | Some st, Some en =>
                 filter (fun t => (st <=? date t)%Z && (date t <=? endOfDay en)%Z)
                   allTrades
             | _, _ => []
             end)
  | idRange startId endId =>
      if (endId <? startId)%Z then inl StartAfterEnd
      else inr (filter (fun t => (startId <=? id t)%Z && (id t <=? endId)%Z)
                  allTrades)
  end.

(** [handleRunAudit] up to the call of [onRunAudit]: the trade count of
    the parameters and the trades to audit, or the error shown. *)
Definition handleRunAudit (Date_parse : jsstring -> option Z)
    (endOfDay : Z -> Z) (allTrades : list Trade) (selection : Selection)
    : AuditError + (Z * list Trade) :=
  match selectTrades Date_parse endOfDay allTrades selection with
  | inl e => inl e
  | inr tradesToAudit =>
      match tradesToAudit with
      | [] => inl NoTrades
      | _ =>
          if (200 <? length tradesToAudit)%nat then inl TooManyTrades
          else inr (Z.of_nat (length tradesToAudit), tradesToAudit)
      end
  end.

End AiAudit.

(** ** [App.tsx]: the trades kept in local storage *)

Module Storage.

(** An element of the stored array: [None] for a falsy element; the date
    is [None] when the property is missing; the status may be missing in
    data of older versions.  [st_rest] holds the other fields. *)
Record StoredTrade := mkStoredTrade {
  st_date : option jsstring;
  st_status : option Status;
  st_rest : Trade
}.

(** [JSON.stringify(trades)] read back by [JSON.parse]: a date is written
    as its ISO string. *)
Definition saveTrades (trades : list Trade) : list (option StoredTrade) :=
  map (fun t => Some (mkStoredTrade (Some (toISOString (date t)))
                        (Some (status t)) t)) trades.

(** [t && t.date] *)
Definition hasDate (t : option StoredTrade) : bool :=
  match t with
  | Some s => match st_date s with Some d => App.nonEmpty d | None => false end
  | None => false
  end.

(** The elements with the time value of their date. *)
Fixpoint timed (Date_parse : jsstring -> option Z)
    (l : list (option StoredTrade)) : option (list (Z * StoredTrade)) :=
  match l with
  | [] => Some []
  | Some s :: r =>
      match st_date s with
      | Some d =>
          match Date_parse d, timed Date_parse r with
          | Some t, Some r' => Some ((t, s) :: r')
          | _, _ => None
          end
      | None => None
      end
  | None :: _ => None
  end.

(** The effect that loads the trades.  An element whose date is invalid
    has no representation here ([None]). *)
Definition loadTrades (Date_parse : jsstring -> option Z)
    (parsedData : list (option StoredTrade)) : option (list Trade) :=
  let filteredData := filter hasDate parsedData in
  match timed Date_parse filteredData with
  | Some l =>
      let sorted := sort (fun a b => (fst a - fst b)%Z) l in
      Some (mapi (fun (p : Z * StoredTrade) index =>
                    let t := st_rest (snd p) in
                    withStatus (withDate (withId t (index + 1)) (fst p))
                      (match st_status (snd p) with
                       | Some st => st
                       | None => closed
                       end))
              sorted)
  | None => None
  end.

End Storage.

(** ** Properties stated about the ledger *)

(** The ids are positional labels: sorting the stored trades by date and
    numbering them from 1 gives back the stored trades, ids included, and
    the ids are 1..N in the stored order. *)
Definition positional (l : list Trade) : Prop :=
  App.renumber (sort App.byDate l) = l
  /\ map id l = map Z.of_nat (seq 1 (length l)).

Definition sortedByDate (l : list Trade) : Prop :=
  Sorted Z.le (map date l).

(** ** Properties stated about the status and the result of a trade *)

(** A trade is closed exactly when its [pnl] is defined, and a defined
    [pnl] comes with a positive exit price. *)
Definition wellFormed (t : Trade) : Prop :=
  (status t = closed <-> pnl t <> None)
  /\ (pnl t <> None -> gt0 (exitPrice t) = true).

(** What the user can do to the ledger through the trade form, the
    quick-add box and the delete button. *)
Inductive Event :=
| SubmitNew (isExitRequiredAfterPaste : bool) (formData : TradeModal.FormData)
| SubmitEdit (existingTrade : Trade) (isExitRequiredAfterPaste : bool)
    (formData : TradeModal.FormData)
| QuickAddOpen (text : jsstring)
| Delete (i : Z).

Definition perform (Date_parse : jsstring -> option Z) (e : Event)
    (prev : list Trade) : list Trade :=
  match e with
  | SubmitNew b f =>
      TradeModal.applyAction (TradeModal.handleSubmit Date_parse None b f) prev
  | SubmitEdit t b f =>
      TradeModal.applyAction (TradeModal.handleSubmit Date_parse (Some t) b f) prev
  | QuickAddOpen text =>
      match TradeModal.handlePasteDataChange Date_parse text with
      | TradeModal.ConfirmOpenTrade a _ => TradeModal.applyAction a prev
      | _ => prev
      end
  | Delete i => App.handleConfirmDelete i prev
  end.

Inductive reachable (Date_parse : jsstring -> option Z) : list Trade -> Prop :=
| reach_empty : reachable Date_parse []
| reach_step : forall l e,
    reachable Date_parse l -> reachable Date_parse (perform Date_parse e l).

(** ** Properties stated about the metrics *)



(** Sum of the pnl of trades that all have one. *)
Fixpoint sumDefined (l : list Trade) : Q :=
  match l with
  | [] => 0
  | t :: r => orZero (pnl t) + sumDefined r
  end.

(** Every closed trade has a pnl. *)
Definition closedHavePnl (l : list Trade) : Prop :=
  forall t, In t l -> status t = closed -> pnl t <> None.


(** ** Properties stated about the numbers of a sheet *)

Definition digits (s : jsstring) : Prop := forallb isDigit s = true.

(** The groups of digits of an integer part, none of them empty. *)
Definition digitGroups (gs : list jsstring) : Prop :=
  gs <> [] /\ Forall (fun g => g <> [] /\ digits g) gs.

(** The number that the digits [ip], a decimal point and the digits [fp]
    denote. *)
Definition decimalValue (ip fp : jsstring) : Q :=
  inject_Z (digitsVal (ip ++ fp)) / inject_Z (10 ^ Z.of_nat (length fp)).

(** An integer part in groups divided by [sep], the decimal separator
    [dec], the fraction [fp]. *)
Definition grouped (sep dec : ascii) (gs : list jsstring) (fp : jsstring)
    : jsstring :=
  join [sep] gs ++ dec :: fp.

(** A text made of digits, periods and minus signs only. *)
Definition plainDecimal (s : jsstring) : Prop :=
  forallb (fun c => isDigit c || eqc c "."%char || eqc c "-"%char) s = true.

(** ** Properties stated about the id filter *)

(** No minus sign. *)
Definition dashFree (s : jsstring) : Prop :=
  forallb (fun c => negb (eqc "-" c)) s = true.

(** The part starts with an integer written with the digits [ds]: white
    space, at most one plus sign, then the digits, at least one, and after
    them the end of the part or something else than a digit. *)
Definition startsWithInteger (part ds : jsstring) : Prop :=
  ds <> [] /\ digits ds
  /\ exists ws sg rest,
       part = ws ++ sg ++ ds ++ rest
       /\ forallb isWhiteSpace ws = true
       /\ (sg = [] \/ sg = ["+"%char])
       /\ match rest with c :: _ => isDigit c = false | [] => True end.

(** The part starts with no integer: after its white space and at most one
    plus sign it is over, or goes on with something else than a digit. *)
Definition startsWithNoInteger (part : jsstring) : Prop :=
  exists ws sg rest,
    part = ws ++ sg ++ rest
    /\ forallb isWhiteSpace ws = true
    /\ (sg = [] \/ sg = ["+"%char])
    /\ match rest with
       | c :: _ =>
           isDigit c = false
           /\ (sg = [] -> isWhiteSpace c = false /\ c <> "+"%char)
       | [] => True
       end.

(** The text has a minus sign: [p0] is what comes before the first one
    and [p1] what comes between the first one and the next one, or the
    end of the text. *)
Definition rangeText (text p0 p1 : jsstring) : Prop :=
  dashFree p0 /\ dashFree p1
  /\ exists tail,
       text = p0 ++ "-"%char :: p1 ++ tail
       /\ (tail = [] \/ exists r, tail = "-"%char :: r).

(** ** Properties stated about the dates of a sheet *)

(** A day of a month of the calendar. *)
Definition realCalendarDate (y m d : Z) : bool :=
  ((1 <=? m) && (m <=? 12) && (1 <=? d) && (d <=? daysInMonth y m))%Z.

(** The year, month and day that a text denotes: three components split
    on [/], [-] or [.], each starting with an integer; year first when the
    first component has four characters, day first otherwise; a year below
    100 is of 1950 to 2049. *)
Definition dateComponents (v : jsstring) : option (Z * Z * Z) :=
  match split GoogleSheetImportModal.isDateSeparator (trim v) with
  | [s1; s2; s3] =>
      match parseInt s1, parseInt s2, parseInt s3 with
      | Some p1, Some p2, Some p3 =>
          let '(day, month, year) :=
            if (length s1 =? 4)%nat then (p3, p2, p1) else (p1, p2, p3) in
          Some (if (year <? 100)%Z
                then (if (50 <=? year)%Z then 1900 + year else 2000 + year)%Z
                else year,
                month, day)
      | _, _, _ => None
      end
  | _ => None
  end.

(** The integers from [a], [n] of them. *)
Fixpoint rangeFrom (a : Z) (n : nat) : list Z :=
  match n with
  | O => []
  | S n' => a :: rangeFrom (a + 1) n'
  end.

Definition rangeZ (a n : Z) : list Z := rangeFrom a (Z.to_nat n).

(** The day slots of the years 2000 to 2399, 31 to a month. *)
Definition civilSlots : list (Z * (Z * Z)) :=
  list_prod (rangeZ 2000 400) (list_prod (rangeZ 1 12) (rangeZ 1 31)).

(** When the slot is a day of the calendar, the civil date of its day
    number is that day. *)
Definition civilSlotOk (s : Z * (Z * Z)) : bool :=
  (let '(y, (m, d)) := s in
   negb (d <=? daysInMonth y m)
   || match civilFromDays (daysFromCivil y m d) with
      | (y', m', d') => (y' =? y) && (m' =? m) && (d' =? d)
      end)%Z.

(** The civil date of a day number is a day of the calendar with that
    day number. *)
Definition civilDayOk (z : Z) : bool :=
  match civilFromDays z with
  | (y, m, d) => realCalendarDate y m d && (daysFromCivil y m d =? z)%Z
  end.

(** ** Properties stated about quick-add *)

(** The code unit of [text] at [i]; a space past the end. *)
Definition charAt (text : jsstring) (i : nat) : ascii := nth i text " "%char.

(** The comma at [i] sits between a digit and at least three digits. *)
Definition groupingComma (text : jsstring) (i : nat) : bool :=
  eqc (charAt text i) ","
  && match i with
     | O => false
     | S j => isDigit (charAt text j)
     end
  && isDigit (charAt text (i + 1))
  && isDigit (charAt text (i + 2))
  && isDigit (charAt text (i + 3)).

(** [text] without its grouping commas; [s] is [text] from [i] on. *)
Fixpoint dropGroupingCommas (text : jsstring) (i : nat) (s : jsstring)
    : jsstring :=
  match s with
  | [] => []
  | c :: r =>
      if groupingComma text i then dropGroupingCommas text (S i) r
      else c :: dropGroupingCommas text (S i) r
  end.

(** The rule in the words of the specification: the comma goes when a
    digit comes before it and exactly three digits come after it. *)
Definition exactlyThreeDigitsAhead (s : jsstring) : bool :=
  match s with
  | a :: b :: c :: rest =>
      isDigit a && isDigit b && isDigit c
      && match rest with d :: _ => negb (isDigit d) | [] => true end
  | _ => false
  end.

Fixpoint stripGroupingExact (prev : option ascii) (s : jsstring) : jsstring :=
  match s with
  | [] => []
  | c :: r =>
      if eqc c ","%char
         && match prev with Some p => isDigit p | None => false end
         && exactlyThreeDigitsAhead r
      then stripGroupingExact (Some c) r
      else c :: stripGroupingExact (Some c) r
  end.

(** [tok] contains [pat] when case is ignored. *)
Definition containsIgnoringCase (tok pat : jsstring) : Prop :=
  exists a m b, tok = a ++ m ++ b /\ toLowerCase m = pat.

Definition commaFree (s : jsstring) : Prop :=
  forallb (fun c => negb (TradeModal.isComma c)) s = true.

Definition directionOf (token : jsstring) : TradeDirection :=
  if includes (toLowerCase token) (str "long") then Long else Short.

(** The date part of [toISOString]. *)
Definition isoDate (t : Z) : jsstring :=
  hd [] (split (fun c => eqc c "T"%char) (toISOString t)).

(** ** Properties stated about the backup *)

(** Two trades that differ at most in their id. *)
Definition sameButId (t u : Trade) : Prop := withId t 0 = withId u 0.

(** The same trades, order and ids apart. *)
Definition sameUpToIds (l l' : list Trade) : Prop :=
  Permutation (map (fun t => withId t 0) l) (map (fun t => withId t 0) l').

(** ** Properties stated about the rows of a sheet *)

(** A field as a CSV writer quotes it: between double quotes, a double
    quote of the field written twice. *)
Definition quoteField (f : jsstring) : jsstring :=
  SheetReader.dquote
  :: flat_map (fun c => if eqc c SheetReader.dquote
                        then [SheetReader.dquote; SheetReader.dquote]
                        else [c]) f
  ++ [SheetReader.dquote].

Definition csvLine (fields : list jsstring) : jsstring :=
  join (str ",") (map quoteField fields).

(** No carriage return and no line feed. *)
Definition oneLine (s : jsstring) : Prop :=
  forallb (fun c => negb (eqc c (ascii_of_N 10) || eqc c (ascii_of_N 13))) s
  = true.
(** What the loop of [autoMapHeaders] keeps true of the mapping: a mapped
    header is one of the headers seen and contains the word of its key,
    and no header is mapped to two keys. *)
Definition autoMapped (seen : list jsstring) (mapping : GoogleSheetImportModal.Mapping) : Prop :=
  (forall k h,
     mapping k = Some h ->
     In h seen /\ includes (trim (toLowerCase h)) (SheetReader.keyword k) = true)
  /\ (forall k k' h, mapping k = Some h -> mapping k' = Some h -> k = k').

(** ** Properties stated about the journal columns *)

(** No occurrence of [sep] starts in [a] when [a] is followed by [rest]. *)
Fixpoint noStart (sep a rest : jsstring) : bool :=
  match a with
  | [] => true
  | _ :: a' => negb (startsWith sep (a ++ rest)) && noStart sep a' rest
  end.

(** ** Sample data *)

Definition day_2024_01_01 : Z := 1704067200000.

Definition day_2024_01_02 : Z := 1704153600000.

Definition sampleLong : TradeInput :=
  mkTradeInput day_2024_01_01 (str "BTC/USDT") Long 100 (Some 110%Q) 1 None []
    None None None None.

Definition sampleShort : TradeInput :=
  mkTradeInput day_2024_01_02 (str "BTC/USDT") Short 100 (Some 90%Q) 2 None []
    None None None None.

Definition sampleLedger : list Trade :=
  App.handleAddCompleteTrade sampleShort (App.handleAddCompleteTrade sampleLong []).

Definition sampleState : AppState :=
  mkAppState sampleLedger 1000 [mkStrategy (str "s1") (str "Breakout") (str "Buy high")]
    (Some (str "s1")).

Definition blankForm : TradeModal.FormData :=
  TradeModal.mkFormData (str "2024-01-01") (str "BTC/USDT") Long (str "10x")
    (str "100") [] (str "1") [] [] [].

Definition exitForm : TradeModal.FormData :=
  TradeModal.mkFormData (str "2024-01-01") (str "BTC/USDT") Long (str "10x")
    (str "100") (str "110") (str "1") [] [] [].

Definition idFilterOf (text : string) : FilterState :=
  mkFilterState [] [] [] all (str text).

Definition openOn (day : Z) : TradeInput :=
  mkTradeInput (day_2024_01_01 + day * msPerDay) (str "ETH/USDT") Long 100 None
    1 None [] None None None None.

(** A ledger of ten trades on ten consecutive days. *)
Definition tenTrades : list Trade :=
  fold_left (fun l day => App.handleOpenTrade (openOn (Z.of_nat day)) l)
    (seq 0 10) [].

Definition sampleHeaders : list jsstring :=
  map str ["Fecha"; "Par"; "Direccion"; "Entrada"; "Salida"; "Volumen"]%string.

Definition sampleMapping : GoogleSheetImportModal.Mapping :=
  fun key =>
    match key with
    | GoogleSheetImportModal.k_date => Some (str "Fecha")
    | GoogleSheetImportModal.k_asset => Some (str "Par")
    | GoogleSheetImportModal.k_direction => Some (str "Direccion")
    | GoogleSheetImportModal.k_entryPrice => Some (str "Entrada")
    | GoogleSheetImportModal.k_exitPrice => Some (str "Salida")
    | GoogleSheetImportModal.k_size => Some (str "Volumen")
    | _ => None
    end.

Definition sampleRow : list jsstring :=
  map str ["02/01/2024"; "BTC/USDT"; "venta"; "100"; "90"; "2"]%string.

(** The same row with an exit price of 0. *)
Definition zeroExitRow : list jsstring :=
  map str ["02/01/2024"; "BTC/USDT"; "compra"; "100"; "0"; "2"]%string.

(** The same row with no exit price. *)
Definition noExitRow : list jsstring :=
  map str ["02/01/2024"; "BTC/USDT"; "compra"; "100"; ""; "2"]%string.

Definition sampleLoss : TradeInput :=
  mkTradeInput (day_2024_01_02 + msPerDay) (str "BTC/USDT") Long 100 (Some 95%Q)
    2 None [] None None None None.

Definition mixedLedger : list Trade :=
  App.handleAddCompleteTrade sampleLoss sampleLedger.

(** A ledger with one open trade, then the import of [sampleRow]. *)
Definition openLedger : list Trade :=
  perform parseISO (SubmitNew false blankForm) [].

Definition importedLedger : list Trade :=
  GoogleSheetImportModal.handleImport sampleMapping sampleHeaders [sampleRow]
    openLedger.

(** A quick-add line with an exit price of 0. *)
Definition quickAddZeroExit : jsstring :=
  str "2024-01-01, BTC/USDT, Long, 10x, 100, 0, 95, 120, 1, late entry".

(** A quick-add line whose entry price is followed by a comma and four
    digits. *)
Definition quickAddFourDigits : jsstring :=
  str "2024-01-01,BTC,Long,10x,1,2345,0,50,60,1,note".

Definition quickAddLine : jsstring :=
  str "2024-01-01, BTC/USDT, long, 10x, 100.5, 110, 95, 120, 1.5, breakout, retest".

(** A state whose active strategy id is the empty string. *)
Definition emptyIdState : AppState :=
  mkAppState sampleLedger 1000 [mkStrategy [] (str "Unnamed") (str "Buy low")]
    (Some []).

(** A quick-add line of nine parts whose date is empty. *)
Definition quickAddNoDate : jsstring :=
  str ", BTC/USDT, long, 10x, 100, 110, 95, 120, 1".

Definition dateFilterOf (a b : string) : FilterState :=
  mkFilterState (str a) (str b) [] all [].

Definition lossOn (day : Z) : TradeInput :=
  mkTradeInput (day_2024_01_01 + day * msPerDay) (str "ETH/USDT") Long 100
    (Some 95%Q) 1 None [] None None None None.

(** A ledger of three losing trades on three consecutive days. *)
Definition losingLedger : list Trade :=
  fold_left (fun l day => App.handleAddCompleteTrade (lossOn (Z.of_nat day)) l)
    (seq 0 3) [].

(** * Proofs *)

Import App.

(** ** The stable sort and the renumbering *)

Lemma date_withId : forall t n, date (withId t n) = date t.
Proof. reflexivity. Qed.

Lemma map_date_mapi_withId : forall l i,
  map date (mapi_from (fun t index => withId t (index + 1)) i l) = map date l.
Proof.
  induction l as [|t l IH]; intros i; simpl.
  - reflexivity.
  - now rewrite IH.
Qed.

Lemma sortInsert_dates_sorted : forall x l,
  sortedByDate l -> sortedByDate (sortInsert byDate x l).
Proof.
  unfold sortedByDate.
  intros x l; induction l as [|y l IH]; intros Hs; simpl.
  - repeat constructor.
  - destruct (byDate x y <=? 0)%Z eqn:E; simpl.
    + constructor; [assumption|].
      constructor. unfold byDate in E. apply Z.leb_le in E. lia.
    + inversion Hs as [|a b Hs' Hhd]; subst.
      constructor; [now apply IH|].
      unfold byDate in E. apply Z.leb_gt in E.
      destruct l as [|z l]; simpl.
      * constructor. lia.
      * destruct (byDate x z <=? 0)%Z; simpl; constructor.
        -- lia.
        -- now inversion Hhd.
Qed.

Lemma sort_dates_sorted : forall l, sortedByDate (sort byDate l).
Proof.
  induction l as [|x l IH]; simpl.
  - constructor.
  - now apply sortInsert_dates_sorted.
Qed.

Lemma sort_fixes_sorted : forall l, sortedByDate l -> sort byDate l = l.
Proof.
  unfold sortedByDate.
  induction l as [|x l IH]; intros Hs; simpl.
  - reflexivity.
  - inversion Hs as [|a b Hs' Hhd]; subst.
    rewrite (IH Hs').
    destruct l as [|y l]; simpl.
    + reflexivity.
    + inversion Hhd; subst.
      unfold byDate.
      destruct (date x - date y <=? 0)%Z eqn:E.
      * reflexivity.
      * apply Z.leb_gt in E. lia.
Qed.

Lemma renumber_sortedByDate : forall l,
  sortedByDate l -> sortedByDate (renumber l).
Proof.
  unfold sortedByDate, renumber, mapi. intros l H.
  now rewrite map_date_mapi_withId.
Qed.

Lemma withId_withId : forall t n m, withId (withId t n) m = withId t m.
Proof. reflexivity. Qed.

Lemma mapi_withId_idem : forall l i,
  mapi_from (fun t index => withId t (index + 1)) i
    (mapi_from (fun t index => withId t (index + 1)) i l)
  = mapi_from (fun t index => withId t (index + 1)) i l.
Proof.
  induction l as [|t l IH]; intros i; simpl.
  - reflexivity.
  - now rewrite IH.
Qed.

Lemma length_mapi_from : forall (A B : Type) (f : A -> Z -> B) l i,
  length (mapi_from f i l) = length l.
Proof.
  induction l as [|t l IH]; intros i; simpl; [reflexivity|now rewrite IH].
Qed.

Lemma ids_mapi_withId : forall l n,
  map id (mapi_from (fun t index => withId t (index + 1)) (Z.of_nat n) l)
  = map Z.of_nat (seq (S n) (length l)).
Proof.
  induction l as [|t l IH]; intros n; simpl.
  - reflexivity.
  - f_equal; [lia|].
    replace (Z.of_nat n + 1)%Z with (Z.of_nat (S n)) by lia.
    apply IH.
Qed.

Lemma resequence_positional : forall l, positional (resequence l).
Proof.
  intros l. unfold positional, resequence. split.
  - rewrite sort_fixes_sorted.
    + unfold renumber, mapi. apply mapi_withId_idem.
    + apply renumber_sortedByDate, sort_dates_sorted.
  - unfold renumber, mapi.
    rewrite length_mapi_from.
    apply (ids_mapi_withId (sort byDate l) 0).
Qed.


Lemma parseDates_succeeds : forall Date_parse l,
  (forall b, In b l -> Date_parse (b_date b) <> None) ->
  exists dated, parseDates Date_parse l = Some dated.
Proof.
  intros dp l. induction l as [|b l IH]; intros H; simpl.
  - eauto.
  - destruct (dp (b_date b)) as [d|] eqn:E.
    + destruct IH as [dated ->]; [intros; apply H; now right|]. eauto.
    + exfalso. apply (H b); [now left|assumption].
Qed.

(** A backup of the right shape whose dates are dates is restored. *)
Lemma handleRestore_succeeds : forall Date_parse d ts,
  isValidBackup d = true -> d_trades d = Some ts ->
  (forall b, In b ts -> Date_parse (b_date b) <> None) ->
  exists s, handleRestore Date_parse d = Restored s.
Proof.
  intros dp d ts V T H. unfold handleRestore, isValidBackup in *.
  rewrite T in *.
  destruct (d_initialCapital d); [|discriminate].
  destruct (d_strategies d); [|discriminate].
  destruct (d_timestamp d); [|discriminate].
  destruct (@parseDates_succeeds dp ts H) as [dated ->]. eauto.
Qed.



(** ** Status and result of a trade *)

Import TradeModal.

Section Preservation.
Variable P : Trade -> Prop.
Hypothesis P_withId : forall t n, P t -> P (withId t n).

Lemma Forall_sortInsert : forall (cmp : Trade -> Trade -> Z) x l,
  P x -> Forall P l -> Forall P (sortInsert cmp x l).
Proof.
  intros cmp x l Hx. induction l as [|y l IH]; intros Hl; simpl.
  - now constructor.
  - inversion Hl; subst.
    destruct (cmp x y <=? 0)%Z; constructor; auto.
Qed.

Lemma Forall_sort : forall (cmp : Trade -> Trade -> Z) l,
  Forall P l -> Forall P (sort cmp l).
Proof.
  intros cmp l. induction l as [|x l IH]; intros Hl; simpl.
  - constructor.
  - inversion Hl; subst. apply Forall_sortInsert; auto.
Qed.

Lemma Forall_mapi_withId : forall l i,
  Forall P l ->
  Forall P (mapi_from (fun t index => withId t (index + 1)) i l).
Proof.
  induction l as [|x l IH]; intros i Hl; simpl.
  - constructor.
  - inversion Hl; subst. constructor; auto.
Qed.

Lemma Forall_resequence : forall l, Forall P l -> Forall P (resequence l).
Proof.
  intros l Hl. unfold resequence, renumber, mapi.
  now apply Forall_mapi_withId, Forall_sort.
Qed.
End Preservation.

Lemma wellFormed_withId : forall t n, wellFormed t -> wellFormed (withId t n).
Proof. intros t n H. exact H. Qed.

Lemma wellFormed_resequence : forall l,
  Forall wellFormed l -> Forall wellFormed (resequence l).
Proof. apply Forall_resequence, wellFormed_withId. Qed.

Lemma notPositive_false : forall x,
  notPositive x = false -> exists q, x = Some q /\ gt0 (Some q) = true.
Proof.
  intros [q|]; unfold notPositive; simpl; intros H; [|discriminate].
  exists q. split; [reflexivity|]. now rewrite H.
Qed.

Lemma gt0_orUndefined : forall x,
  gt0 (orUndefined x) = true ->
  exists q, x = Some q /\ orUndefined x = Some q /\ gt0 (Some q) = true.
Proof.
  intros [q|]; simpl; [|discriminate].
  destruct (Qeq_bool q 0); simpl; [discriminate|].
  intros H. exists q. auto.
Qed.

(** The trade that an accepted edit hands to the ledger. *)
Lemma handleSubmit_update_wellFormed : forall Date_parse existing b f t,
  handleSubmit Date_parse (Some existing) b f = OnUpdateTrade t ->
  wellFormed t.
Proof.
  intros dp existing b f t. unfold handleSubmit.
  destruct (validate (Some existing) b f) eqn:V; simpl; [|discriminate].
  destruct (dp (fd_date f)) as [d|]; [|discriminate].
  destruct (parseFloat (fd_entryPrice f)) as [entry|] eqn:E; [|discriminate].
  destruct (parseFloat (fd_size f)) as [sz|] eqn:S; [|discriminate].
  intros H; inversion H; subst; clear H.
  unfold validate in V. rewrite E, S in V.
  apply andb_prop in V; destruct V as [V _].
  apply andb_prop in V; destruct V as [V Vs].
  apply andb_prop in V; destruct V as [_ Ve].
  apply negb_true_iff in Ve, Vs.
  destruct (notPositive_false _ Ve) as [e' [He' Ge]]; inversion He'; subst e'.
  destruct (notPositive_false _ Vs) as [s' [Hs' Gs]]; inversion Hs'; subst s'.
  unfold wellFormed; simpl.
  destruct (gt0 (orUndefined (parseFloat (fd_exitPrice f)))) eqn:G.
  - destruct (gt0_orUndefined _ G) as [x [Hx [_ Gx]]].
    unfold calculatedPnl. rewrite E, S, Hx, Ge, Gs, Gx. simpl.
    repeat split; intros; congruence.
  - repeat split; intros; congruence.
Qed.

Lemma handleSubmit_new_cases : forall Date_parse b f,
  match handleSubmit Date_parse None b f with
  | OnOpenTrade t => i_pnl t = None
  | OnAddCompleteTrade t => gt0 (i_exitPrice t) = true
  | OnUpdateTrade _ => False
  | NoAction | InvalidDate => True
  end.
Proof.
  intros dp b f. unfold handleSubmit.
  destruct (validate None b f); simpl; [|exact I].
  destruct (dp (fd_date f)); [|exact I].
  destruct (parseFloat (fd_entryPrice f)); [|exact I].
  destruct (parseFloat (fd_size f)); [|exact I].
  destruct (gt0 (orUndefined (parseFloat (fd_exitPrice f)))) eqn:G; simpl.
  - exact G.
  - reflexivity.
Qed.

Lemma handleOpenTrade_wellFormed : forall t prev,
  i_pnl t = None -> Forall wellFormed prev ->
  Forall wellFormed (handleOpenTrade t prev).
Proof.
  intros t prev Hp Hl. unfold handleOpenTrade.
  apply wellFormed_resequence, Forall_app. split; [assumption|].
  constructor; [|constructor].
  unfold wellFormed, newTrade; simpl. rewrite Hp.
  repeat split; intros; congruence.
Qed.

Lemma handleAddCompleteTrade_wellFormed : forall t prev,
  gt0 (i_exitPrice t) = true -> Forall wellFormed prev ->
  Forall wellFormed (handleAddCompleteTrade t prev).
Proof.
  intros t prev Hx Hl. unfold handleAddCompleteTrade.
  apply wellFormed_resequence, Forall_app. split; [assumption|].
  constructor; [|constructor].
  unfold wellFormed, newTrade; simpl.
  repeat split; intros; congruence.
Qed.

Lemma handleUpdateTrade_wellFormed : forall t prev,
  wellFormed t -> Forall wellFormed prev ->
  Forall wellFormed (handleUpdateTrade t prev).
Proof.
  intros t prev Ht Hl. unfold handleUpdateTrade.
  apply wellFormed_resequence.
  induction Hl as [|x l Hx Hl IH]; simpl; constructor; auto.
  destruct (id x =? id t)%Z; assumption.
Qed.

Lemma handleConfirmDelete_wellFormed : forall i prev,
  Forall wellFormed prev -> Forall wellFormed (handleConfirmDelete i prev).
Proof.
  intros i prev Hl. unfold handleConfirmDelete.
  apply wellFormed_resequence.
  induction Hl as [|x l Hx Hl IH]; simpl; [constructor|].
  destruct (negb (id x =? i)%Z); [constructor|]; auto.
Qed.

Lemma quickAdd_opens_without_pnl : forall Date_parse text a data,
  handlePasteDataChange Date_parse text = ConfirmOpenTrade a data ->
  a = InvalidDate
  \/ exists t, a = OnOpenTrade t /\ i_pnl t = None /\ i_exitPrice t = None.
Proof.
  intros dp text a data. unfold handlePasteDataChange.
  destruct (parsePastedData dp text) as [d|]; [|discriminate].
  destruct (gt0 (orUndefined (p_exitPrice d))); [discriminate|].
  intros H; inversion H; subst; clear H.
  destruct (dp (p_date data)); [right|left; reflexivity].
  eexists; repeat split.
Qed.

Lemma perform_wellFormed : forall Date_parse e l,
  Forall wellFormed l -> Forall wellFormed (perform Date_parse e l).
Proof.
  intros dp e l Hl. destruct e as [b f|t b f|text|i]; simpl.
  - pose proof (handleSubmit_new_cases dp b f) as H.
    destruct (handleSubmit dp None b f); simpl; auto.
    + now apply handleOpenTrade_wellFormed.
    + now apply handleAddCompleteTrade_wellFormed.
    + contradiction.
  - destruct (handleSubmit dp (Some t) b f) as [| |ti|ti|u] eqn:H; simpl; auto.
    + exfalso. revert H. unfold handleSubmit.
      destruct (negb _); [discriminate|].
      destruct (dp _); [|discriminate].
      destruct (parseFloat _); [|discriminate].
      destruct (parseFloat _); discriminate.
    + exfalso. revert H. unfold handleSubmit.
      destruct (negb _); [discriminate|].
      destruct (dp _); [|discriminate].
      destruct (parseFloat _); [|discriminate].
      destruct (parseFloat _); discriminate.
    + apply handleUpdateTrade_wellFormed; [|assumption].
      eapply handleSubmit_update_wellFormed; eassumption.
  - destruct (handlePasteDataChange dp text) as [|d|a d] eqn:H; auto.
    destruct (quickAdd_opens_without_pnl _ _ H) as [->|[t [-> [Hp _]]]]; simpl.
    + assumption.
    + now apply handleOpenTrade_wellFormed.
  - now apply handleConfirmDelete_wellFormed.
Qed.

Lemma trimStart_nil : forall s,
  trimStart s = [] <-> forallb isWhiteSpace s = true.
Proof.
  induction s as [|c s IH]; simpl.
  - tauto.
  - destruct (isWhiteSpace c); simpl; [exact IH|].
    split; discriminate.
Qed.

Lemma trim_nil : forall s, trim s = [] -> trimStart s = [].
Proof.
  intros s H. unfold trim, trimEnd in H.
  assert (H1 : trimStart (rev (trimStart s)) = []).
  { destruct (trimStart (rev (trimStart s))) as [|a u]; [reflexivity|].
    simpl in H. destruct (rev u); discriminate. }
  apply trimStart_nil in H1. rewrite forallb_forall in H1.
  destruct (trimStart s) as [|c r] eqn:E; [reflexivity|].
  assert (Hc : isWhiteSpace c = true).
  { apply H1. rewrite <- in_rev. now left. }
  clear H H1. revert E Hc. induction s as [|x s IH]; simpl; [discriminate|].
  destruct (isWhiteSpace x) eqn:W; [exact IH|].
  intros E; inversion E; subst. congruence.
Qed.

Lemma parseFloat_blank : forall s, trim s = [] -> parseFloat s = None.
Proof.
  intros s H. unfold parseFloat. now rewrite (trim_nil _ H).
Qed.

Lemma reachable_wellFormed : forall Date_parse l,
  reachable Date_parse l -> Forall wellFormed l.
Proof.
  intros dp l H. induction H as [|l e H IH].
  - constructor.
  - now apply perform_wellFormed.
Qed.

(** C2, as the code has it.  In every ledger state reached from the empty
    ledger by form submissions, confirmed quick-add trades and deletions, a
    trade is closed exactly when its pnl is defined and a stored pnl comes
    with a positive exit price.  An edit of a closed trade that leaves the
    exit price blank is refused by the validation and changes nothing; an
    accepted edit with a blank exit price is an edit of an open trade, and
    the trade stays open without exit price and without pnl. *)
Theorem C2_closed_iff_pnl : forall Date_parse : jsstring -> option Z,
  (forall l, reachable Date_parse l -> Forall wellFormed l)
  /\ (forall existing b f prev,
        status existing = closed -> trim (fd_exitPrice f) = [] ->
        handleSubmit Date_parse (Some existing) b f = NoAction
        /\ perform Date_parse (SubmitEdit existing b f) prev = prev)
  /\ (forall existing b f t,
        handleSubmit Date_parse (Some existing) b f = OnUpdateTrade t ->
        wellFormed t
        /\ (trim (fd_exitPrice f) = [] ->
            status existing = open /\ status t = open
            /\ pnl t = None /\ exitPrice t = None)).
Proof.
  intros dp. split; [|split].
  - apply reachable_wellFormed.
  - intros existing b f prev Hc Hb.
    assert (H : handleSubmit dp (Some existing) b f = NoAction).
    { unfold handleSubmit, validate. simpl. rewrite Hc, Hb. simpl.
      now rewrite !andb_false_r. }
    split; [exact H|]. simpl. now rewrite H.
  - intros existing b f t H. split.
    + eapply handleSubmit_update_wellFormed; eassumption.
    + intros Hb. revert H. unfold handleSubmit.
      destruct (validate (Some existing) b f) eqn:V; simpl; [|discriminate].
      destruct (dp (fd_date f)); [|discriminate].
      destruct (parseFloat (fd_entryPrice f)); [|discriminate].
      destruct (parseFloat (fd_size f)); [|discriminate].
      rewrite (parseFloat_blank _ Hb). simpl.
      intros H; inversion H; subst; clear H. simpl.
      repeat split.
      unfold validate in V. simpl in V. rewrite Hb in V. simpl in V.
      destruct (status existing); [reflexivity|].
      simpl in V. now rewrite !andb_false_r in V.
Qed.

Lemma C2_closed_iff_pnl_witness :
  Forall wellFormed (perform parseISO (SubmitNew false exitForm) [])
  /\ (exists c,
        perform parseISO (SubmitNew false exitForm) [] = [c]
        /\ status c = closed
        /\ handleSubmit parseISO (Some c) false blankForm = NoAction)
  /\ (exists o t,
        perform parseISO (SubmitNew false blankForm) [] = [o]
        /\ handleSubmit parseISO (Some o) false blankForm = OnUpdateTrade t
        /\ status t = open /\ pnl t = None).
Proof.
  pose proof (C2_closed_iff_pnl parseISO) as [H1 [H2 H3]].
  split; [|split].
  - apply H1. apply reach_step, reach_empty.
  - eexists. split; [vm_compute; reflexivity|].
    split; [reflexivity|].
    apply (H2 _ false blankForm []); reflexivity.
  - eexists. eexists. split; [vm_compute; reflexivity|].
    split; [vm_compute; reflexivity|].
    match goal with
    | |- status ?t = open /\ pnl ?t = None =>
        assert (E : handleSubmit parseISO
                      (Some (hd t (perform parseISO (SubmitNew false blankForm) [])))
                      false blankForm = OnUpdateTrade t)
          by (vm_compute; reflexivity);
        destruct (H3 _ _ _ _ E) as [_ H4];
        destruct (H4 eq_refl) as [_ [Hs [Hp _]]]; auto
    end.
Defined.

(** C2 as stated fails.  The trade form refuses to clear the exit price of
    a closed trade, so the trade stays closed and keeps its pnl; and the
    import of a row whose exit cell is 0 stores a pnl with an exit price
    that is not positive. *)
Lemma C2_counterexample :
  (exists c,
     handleAddCompleteTrade sampleLong [] = [c]
     /\ exitPrice c = Some 110%Q
     /\ fd_exitPrice blankForm = []
     /\ perform parseISO (SubmitEdit c false blankForm) [c] = [c]
     /\ status c = closed
     /\ pnl c <> None)
  /\ (exists t,
        GoogleSheetImportModal.handleImport sampleMapping sampleHeaders
          [zeroExitRow] [] = [t]
        /\ pnl t = Some (-200)
        /\ exitPrice t = Some 0
        /\ gt0 (exitPrice t) = false).
Proof.
  split.
  - eexists. split; [vm_compute; reflexivity|].
    repeat split; try reflexivity. discriminate.
  - eexists. split; [vm_compute; reflexivity|].
    repeat split.
Qed.

(** The import from a sheet stamps [closed] on every trade of the combined
    ledger: a trade that was open becomes closed without a pnl. *)
Lemma import_closes_open_trades :
  let ledger := perform parseISO (SubmitNew false blankForm) [] in
  let imported := (sampleShort, closed) in
  Forall wellFormed ledger
  /\ ~ Forall wellFormed (handleImportFromGoogleSheet [imported] ledger).
Proof.
  split.
  - eapply reachable_wellFormed, reach_step, reach_empty.
  - intros H. vm_compute in H.
    inversion H as [|x l [Hx _] _]; subst.
    destruct Hx as [Hx _]. specialize (Hx eq_refl). now apply Hx.
Qed.

(** ** The id filter *)

Lemma filteredTrades_id : forall Date_parse trades filters,
  trim (tradeId filters) <> [] ->
  filteredTrades Date_parse trades filters
  = match idBounds (trim (tradeId filters)) with
    | Some (startId, endId) =>
        filter (fun trade => (startId <=? id trade)%Z && (id trade <=? endId)%Z)
          trades
    | None => []
    end.
Proof.
  intros dp l f H. unfold filteredTrades.
  destruct (trim (tradeId f)); [contradiction|reflexivity].
Qed.

Lemma positional_ten_ids : forall l,
  positional l -> length l = 10%nat ->
  map id l = [1; 2; 3; 4; 5; 6; 7; 8; 9; 10]%Z.
Proof.
  intros l [_ H] Hn. rewrite H, Hn. reflexivity.
Qed.

(** ** The metrics *)

Import TradeCalculations.

Lemma fold_nadd_defined : forall l a,
  Forall (fun t => pnl t <> None) l ->
  exists q,
    fold_left (fun acc t => nadd acc (pnl t)) l (Some a) = Some q
    /\ q == a + sumDefined l.
Proof.
  induction l as [|t l IH]; intros a Hl; simpl.
  - exists a. split; [reflexivity|ring].
  - inversion Hl as [|x r Hx Hr]; subst.
    destruct (pnl t) as [p|] eqn:E; [|congruence]. simpl.
    destruct (IH (a + p) Hr) as [q [Hq Hs]].
    exists q. split; [exact Hq|]. rewrite Hs. ring.
Qed.

Lemma sumPnl_defined : forall l,
  Forall (fun t => pnl t <> None) l ->
  exists q, sumPnl l = Some q /\ q == sumDefined l.
Proof.
  intros l Hl. destruct (fold_nadd_defined 0 Hl) as [q [Hq Hs]].
  exists q. split; [exact Hq|]. rewrite Hs. ring.
Qed.

Lemma isWin_defined : forall t, isWin t = true -> pnl t <> None.
Proof. unfold isWin. intros t; destruct (pnl t); simpl; congruence. Qed.

Lemma isLoss_defined : forall t, isLoss t = true -> pnl t <> None.
Proof. unfold isLoss. intros t; destruct (pnl t); simpl; congruence. Qed.

Lemma filter_Forall : forall (A : Type) (f : A -> bool) (P : A -> Prop) l,
  (forall x, f x = true -> P x) -> Forall P (filter f l).
Proof.
  intros A f P l H. apply Forall_forall. intros x Hx.
  apply filter_In in Hx. now apply H.
Qed.






Lemma win_or_loss : forall t, pnl t <> None -> isWin t = negb (isLoss t).
Proof.
  intros t. unfold isWin, isLoss. destruct (pnl t); simpl; [reflexivity|congruence].
Qed.

Lemma wins_plus_losses : forall l,
  Forall (fun t => pnl t <> None) l ->
  (length (filter isWin l) + length (filter isLoss l))%nat = length l.
Proof.
  induction l as [|t l IH]; intros H; simpl.
  - reflexivity.
  - inversion H as [|x r Hx Hr]; subst.
    rewrite (win_or_loss _ Hx).
    destruct (isLoss t); simpl; rewrite <- (IH Hr); lia.
Qed.

Lemma rates_add_up : forall a b n : Z,
  (a + b = n)%Z -> (0 < n)%Z ->
  inject_Z a / inject_Z n * 100 + inject_Z b / inject_Z n * 100 == 100.
Proof.
  intros a b n H Hn. subst n. rewrite inject_Z_plus.
  assert (N : ~ inject_Z a + inject_Z b == 0).
  { rewrite <- inject_Z_plus. intros E.
    assert (L : inject_Z 0 < inject_Z (a + b)) by (rewrite <- Zlt_Qlt; exact Hn).
    rewrite E in L. now apply Qlt_irrefl in L. }
  field. exact N.
Qed.

Lemma closedHavePnl_Forall : forall l,
  closedHavePnl l -> Forall (fun t => pnl t <> None) (filter isClosed l).
Proof.
  intros l H. apply Forall_forall. intros t Ht.
  apply filter_In in Ht. destruct Ht as [Hin Hc].
  apply H; [assumption|].
  unfold isClosed in Hc. destruct (status t); [discriminate|reflexivity].
Qed.

(** When every closed trade has a pnl and there is at least one closed
    trade, the win rate and the loss rate add up to 100: each closed trade
    is a win (pnl above 0) or a loss (pnl of 0 or below) and not both.
    With no closed trade both rates are 0. *)
Theorem rates_add_up_with_pnl : forall (trades : list Trade) (cap : Q),
  (filter isClosed trades = [] ->
   winRate (calculateMetrics trades cap) = Some 0
   /\ lossRate (calculateMetrics trades cap) = Some 0)
  /\ (filter isClosed trades <> [] -> closedHavePnl trades ->
      exists w l,
        winRate (calculateMetrics trades cap) = Some w
        /\ lossRate (calculateMetrics trades cap) = Some l
        /\ w + l == 100)
  /\ (forall t, In t trades -> status t = closed -> pnl t <> None ->
      isWin t = negb (isLoss t)).
Proof.
  intros trades cap. split; [|split].
  - intros E. unfold calculateMetrics. rewrite E. split; reflexivity.
  - intros N H. unfold calculateMetrics.
    pose proof (wins_plus_losses (closedHavePnl_Forall H)) as P.
    destruct (filter isClosed trades) as [|c r] eqn:E; [contradiction|].
    cbv zeta. cbn [winRate lossRate].
    assert (L : (0 < lengthZ (c :: r))%Z) by (unfold lengthZ; simpl; lia).
    apply Z.ltb_lt in L. rewrite L.
    eexists. eexists. split; [reflexivity|]. split; [reflexivity|].
    apply rates_add_up.
    + unfold lengthZ. rewrite <- P. lia.
    + now apply Z.ltb_lt.
  - intros t _ _ H. now apply win_or_loss.
Qed.

Lemma rates_add_up_with_pnl_witness :
  exists w l,
    winRate (calculateMetrics mixedLedger 1000) = Some w
    /\ lossRate (calculateMetrics mixedLedger 1000) = Some l
    /\ w + l == 100.
Proof.
  apply (proj1 (proj2 (rates_add_up_with_pnl mixedLedger 1000))).
  - vm_compute. discriminate.
  - intros t Ht _. vm_compute in Ht.
    destruct Ht as [<-|[<-|[<-|[]]]]; discriminate.
Defined.

(** C10 at the failing input.  A trade is opened from the form and a row
    of a sheet is imported; the import stamps [closed] on the open trade,
    which has no pnl.  [calculateMetrics] counts that trade among the
    closed trades and neither as a win nor as a loss, and the two rates
    add up to 50, not to 100. *)
Lemma C10_failing_input :
  exists t w l,
    In t importedLedger /\ status t = closed
    /\ isWin t = false /\ isLoss t = false
    /\ winRate (calculateMetrics importedLedger 0) = Some w
    /\ lossRate (calculateMetrics importedLedger 0) = Some l
    /\ w + l == 50 /\ ~ w + l == 100.
Proof.
  eexists. eexists. eexists.
  split; [vm_compute; left; reflexivity|].
  repeat split; try (vm_compute; reflexivity).
  vm_compute. discriminate.
Qed.

(** ** A non-positive exit price *)

Import GoogleSheetImportModal.

Lemma In_sortInsert : forall (cmp : Trade -> Trade -> Z) x y l,
  In y (x :: l) -> In y (sortInsert cmp x l).
Proof.
  intros cmp x y l. induction l as [|z l IH]; simpl; intros H.
  - exact H.
  - destruct (cmp x z <=? 0)%Z; simpl.
    + exact H.
    + destruct H as [H|[H|H]].
      * right. apply IH. now left.
      * now left.
      * right. apply IH. now right.
Qed.

Lemma In_sort : forall (cmp : Trade -> Trade -> Z) y l,
  In y l -> In y (sort cmp l).
Proof.
  intros cmp y l. induction l as [|x l IH]; simpl; intros H.
  - exact H.
  - apply In_sortInsert. destruct H as [H|H]; [now left|right; auto].
Qed.

Lemma In_mapi_withId : forall y l i,
  In y l ->
  exists n, In (withId y n) (mapi_from (fun t index => withId t (index + 1)) i l).
Proof.
  intros y l. induction l as [|x l IH]; simpl; intros i H.
  - contradiction.
  - destruct H as [->|H].
    + eexists. left. reflexivity.
    + destruct (IH (i + 1)%Z H) as [n Hn]. exists n. now right.
Qed.

Lemma In_resequence : forall y l,
  In y l -> exists n, In (withId y n) (resequence l).
Proof.
  intros y l H. unfold resequence, renumber, mapi.
  now apply In_mapi_withId, In_sort.
Qed.

Lemma importRow_closed : forall mapping headers row t st,
  importRow mapping headers row = inr (t, st) ->
  exists x,
    GoogleSheetImportModal.parseNumericValue
      (tradeData mapping headers row k_exitPrice) true = inr (Some x)
    /\ st = closed
    /\ i_exitPrice t = Some x
    /\ i_pnl t = Some (match i_direction t with
                       | Long => (x - i_entryPrice t) * i_size t
                       | Short => (i_entryPrice t - x) * i_size t
                       end).
Proof.
  intros mapping headers row t st. unfold importRow.
  destruct (parseDate _) as [e|d]; simpl; [discriminate|].
  destruct (GoogleSheetImportModal.parseNumericValue
              (tradeData mapping headers row k_entryPrice) true)
    as [e|entry]; simpl; [discriminate|].
  destruct (GoogleSheetImportModal.parseNumericValue
              (tradeData mapping headers row k_exitPrice) true)
    as [e|exit]; simpl; [discriminate|].
  destruct (GoogleSheetImportModal.parseNumericValue
              (tradeData mapping headers row k_size) true)
    as [e|sz]; simpl; [discriminate|].
  destruct (GoogleSheetImportModal.parseNumericValue
              (tradeData mapping headers row k_stopLoss) false)
    as [e|sl]; simpl; [discriminate|].
  destruct (GoogleSheetImportModal.parseNumericValue
              (tradeData mapping headers row k_takeProfit) false)
    as [e|tp]; simpl; [discriminate|].
  destruct entry as [entry|]; simpl; [|discriminate].
  destruct exit as [exit|]; simpl; [|discriminate].
  destruct sz as [sz|]; simpl; [|discriminate].
  destruct (parseDirection _) as [e|dir]; simpl; [discriminate|].
  intros H; inversion H; subst; clear H. simpl.
  exists exit. destruct dir; repeat split.
Qed.

(** A number that is not required never makes a row fail. *)
Lemma optional_number : forall value,
  exists o, GoogleSheetImportModal.parseNumericValue value false = inr o.
Proof.
  intros value. unfold GoogleSheetImportModal.parseNumericValue.
  destruct value as [v|]; [|now exists None].
  destruct (negb (nonEmpty v) || negb (nonEmpty (trim v)));
    [now exists None|].
  destruct (parseFloat _) as [q|]; [now exists (Some q)|now exists None].
Qed.

(** A row whose date, prices, size and direction are read is imported. *)
Lemma importRow_accepts : forall mapping headers row d entry x sz dir,
  parseDate (tradeData mapping headers row k_date) = inr d ->
  GoogleSheetImportModal.parseNumericValue
    (tradeData mapping headers row k_entryPrice) true = inr (Some entry) ->
  GoogleSheetImportModal.parseNumericValue
    (tradeData mapping headers row k_exitPrice) true = inr (Some x) ->
  GoogleSheetImportModal.parseNumericValue
    (tradeData mapping headers row k_size) true = inr (Some sz) ->
  parseDirection (tradeData mapping headers row k_direction) = inr dir ->
  exists t,
    importRow mapping headers row = inr (t, closed)
    /\ i_date t = d /\ i_direction t = dir /\ i_entryPrice t = entry
    /\ i_size t = sz /\ i_exitPrice t = Some x
    /\ i_pnl t = Some (match dir with
                       | Long => (x - entry) * sz
                       | Short => (entry - x) * sz
                       end).
Proof.
  intros mapping headers row d entry x sz dir Hd He Hx Hs Hdir.
  unfold importRow. rewrite Hd, He, Hx, Hs. cbn [rbind].
  destruct (optional_number (tradeData mapping headers row k_stopLoss))
    as [sl ->].
  destruct (optional_number (tradeData mapping headers row k_takeProfit))
    as [tp ->].
  cbn [rbind required ret]. rewrite Hdir. cbn [rbind].
  eexists. split; [reflexivity|]. cbn. repeat split.
Qed.

(** C7, as the code has it.  In quick-add, a record whose exit price is 0
    or below is handled like one with no exit price: the user is asked to
    confirm an open trade, and the trade is then stored open, without exit
    price and without pnl.  The column-mapped import has no open trade:
    the exit price is a required number, a row with an empty exit cell is
    skipped, and every row that is imported is a closed trade with the
    number of its exit cell as exit price and the pnl computed from it; a
    row whose date, entry price, size and direction are read and whose
    exit cell reads as a number above 0 is imported so. *)
Theorem C7_nonpositive_exit : forall Date_parse : jsstring -> option Z,
  (forall text data d,
     parsePastedData Date_parse text = Some data ->
     gt0 (p_exitPrice data) = false ->
     Date_parse (p_date data) = Some d ->
     exists t,
       handlePasteDataChange Date_parse text
       = ConfirmOpenTrade (OnOpenTrade t) data
       /\ i_exitPrice t = None /\ i_pnl t = None
       /\ forall prev, exists u,
            In u (applyAction (OnOpenTrade t) prev)
            /\ status u = open /\ exitPrice u = None /\ pnl u = None
            /\ date u = d)
  /\ (forall mapping headers row t st,
        importRow mapping headers row = inr (t, st) ->
        exists x,
          GoogleSheetImportModal.parseNumericValue
            (tradeData mapping headers row k_exitPrice) true = inr (Some x)
          /\ st = closed
          /\ i_exitPrice t = Some x
          /\ i_pnl t = Some (match i_direction t with
                             | Long => (x - i_entryPrice t) * i_size t
                             | Short => (i_entryPrice t - x) * i_size t
                             end))
  /\ (forall mapping headers row,
        trimmed (tradeData mapping headers row k_exitPrice) = [] ->
        exists e, importRow mapping headers row = inl e)
  /\ (forall mapping headers row d entry x sz dir,
        parseDate (tradeData mapping headers row k_date) = inr d ->
        GoogleSheetImportModal.parseNumericValue
          (tradeData mapping headers row k_entryPrice) true
        = inr (Some entry) ->
        GoogleSheetImportModal.parseNumericValue
          (tradeData mapping headers row k_exitPrice) true = inr (Some x) ->
        0 < x ->
        GoogleSheetImportModal.parseNumericValue
          (tradeData mapping headers row k_size) true = inr (Some sz) ->
        parseDirection (tradeData mapping headers row k_direction)
        = inr dir ->
        exists t,
          importRow mapping headers row = inr (t, closed)
          /\ i_date t = d /\ i_exitPrice t = Some x
          /\ i_pnl t = Some (match dir with
                             | Long => (x - entry) * sz
                             | Short => (entry - x) * sz
                             end)).
Proof.
  intros dp. split; [|split; [|split]].
  - intros text data d Hp Hg Hd. unfold handlePasteDataChange.
    rewrite Hp.
    assert (G : gt0 (orUndefined (p_exitPrice data)) = false).
    { destruct (p_exitPrice data) as [x|]; simpl in *; [|reflexivity].
      destruct (Qeq_bool x 0); simpl; [reflexivity|assumption]. }
    rewrite G, Hd. eexists. split; [reflexivity|]. simpl.
    split; [reflexivity|]. split; [reflexivity|].
    intros prev. unfold handleOpenTrade.
    match goal with
    | |- context [resequence (prev ++ [?n])] =>
        destruct (@In_resequence n (prev ++ [n])) as [k Hk];
          [apply in_or_app; right; now left|];
          exists (withId n k)
    end.
    split; [exact Hk|]. repeat split.
  - apply importRow_closed.
  - intros mapping headers row H. unfold importRow.
    destruct (parseDate _) as [e|d]; simpl; [now exists e|].
    destruct (GoogleSheetImportModal.parseNumericValue
                (tradeData mapping headers row k_entryPrice) true)
      as [e|entry]; simpl; [now exists e|].
    assert (E : GoogleSheetImportModal.parseNumericValue
                  (tradeData mapping headers row k_exitPrice) true
                = inl FieldEmpty).
    { unfold GoogleSheetImportModal.parseNumericValue, trimmed in *.
      destruct (tradeData mapping headers row k_exitPrice) as [v|];
        [|reflexivity].
      rewrite H. simpl. now rewrite orb_true_r. }
    rewrite E. simpl. now exists FieldEmpty.
  - intros mapping headers row d entry x sz dir Hd He Hx _ Hs Hdir.
    destruct (@importRow_accepts mapping headers row d entry x sz dir
                Hd He Hx Hs Hdir) as [t [H1 [H2 [_ [_ [_ [H3 H4]]]]]]].
    exists t. auto.
Qed.

Lemma C7_nonpositive_exit_witness :
  (exists data t,
     parsePastedData parseISO quickAddZeroExit = Some data
     /\ p_exitPrice data = Some 0
     /\ handlePasteDataChange parseISO quickAddZeroExit
        = ConfirmOpenTrade (OnOpenTrade t) data
     /\ i_exitPrice t = None /\ i_pnl t = None)
  /\ (exists x,
        GoogleSheetImportModal.parseNumericValue
          (tradeData sampleMapping sampleHeaders zeroExitRow k_exitPrice) true
        = inr (Some x)
        /\ x == 0)
  /\ (exists e, importRow sampleMapping sampleHeaders noExitRow = inl e)
  /\ (exists t,
        importRow sampleMapping sampleHeaders sampleRow = inr (t, closed)
        /\ i_exitPrice t = Some 90
        /\ i_pnl t = Some ((100 - 90) * 2)).
Proof.
  pose proof (C7_nonpositive_exit parseISO) as [H1 [H2 [H3 H4]]].
  split; [|split; [|split]].
  - assert (E : exists data,
               parsePastedData parseISO quickAddZeroExit = Some data
               /\ p_exitPrice data = Some 0
               /\ gt0 (p_exitPrice data) = false
               /\ parseISO (p_date data) = Some day_2024_01_01).
    { eexists. split; [vm_compute; reflexivity|].
      repeat split; vm_compute; reflexivity. }
    destruct E as [data [Hp [Hx [Hg Hd]]]].
    destruct (H1 _ _ _ Hp Hg Hd) as [t [Ht [He [Hn _]]]].
    exists data, t. auto.
  - assert (E : exists t,
               importRow sampleMapping sampleHeaders zeroExitRow = inr (t, closed))
      by (eexists; vm_compute; reflexivity).
    destruct E as [t Ht].
    destruct (H2 _ _ _ _ _ Ht) as [x [Hx _]].
    exists x. split; [exact Hx|].
    vm_compute in Hx. inversion Hx. reflexivity.
  - apply H3. reflexivity.
  - destruct (H4 sampleMapping sampleHeaders sampleRow day_2024_01_02
                100 90 2 Short) as [t [E [_ [Hx Hp]]]];
      try (vm_compute; reflexivity).
    exists t. auto.
Defined.

(** C7 as stated fails in the column-mapped import, which makes no open
    trade: a row whose exit cell is 0 does not become an open trade
    without pnl, it becomes a closed trade with a pnl, while a row without
    exit price is skipped. *)
Lemma C7_counterexample :
  exists t,
    importRow sampleMapping sampleHeaders zeroExitRow = inr (t, closed)
    /\ i_exitPrice t = Some 0
    /\ i_pnl t = Some (-200)
    /\ importRow sampleMapping sampleHeaders noExitRow = inl FieldEmpty.
Proof.
  eexists. split; [vm_compute; reflexivity|].
  repeat split.
Qed.

(** ** The numbers of a sheet *)

Lemma whiteSpace_notNumeric : forall c,
  isWhiteSpace c = true -> notNumeric c = true.
Proof.
  intros [[] [] [] [] [] [] [] []]; vm_compute; intros H;
    try reflexivity; discriminate H.
Qed.

Lemma digit_classes : forall c,
  isDigit c = true ->
  isWhiteSpace c = false /\ notNumeric c = false
  /\ eqc c "," = false /\ eqc c "." = false
  /\ eqc c "-" = false /\ eqc c "+" = false.
Proof.
  intros [[] [] [] [] [] [] [] []]; vm_compute; intros H;
    try discriminate H; repeat split.
Qed.

Lemma removeAll_trimStart : forall s,
  removeAll notNumeric (trimStart s) = removeAll notNumeric s.
Proof.
  unfold removeAll. induction s as [|c s IH]; simpl.
  - reflexivity.
  - destruct (isWhiteSpace c) eqn:W; [|reflexivity].
    now rewrite (whiteSpace_notNumeric _ W).
Qed.

Lemma removeAll_rev : forall cls s,
  removeAll cls (rev s) = rev (removeAll cls s).
Proof. intros. unfold removeAll. apply filter_rev. Qed.

Lemma removeAll_trim : forall s,
  removeAll notNumeric (trim s) = removeAll notNumeric s.
Proof.
  intros s. unfold trim, trimEnd.
  now rewrite removeAll_rev, removeAll_trimStart, removeAll_rev, rev_involutive,
    removeAll_trimStart.
Qed.

Lemma removeAll_none : forall cls s,
  forallb (fun c => negb (cls c)) s = true -> removeAll cls s = s.
Proof.
  unfold removeAll. induction s as [|c s IH]; simpl; intros H.
  - reflexivity.
  - apply andb_prop in H. destruct H as [H1 H2].
    rewrite H1. now rewrite IH.
Qed.

Lemma removeAll_app : forall cls a b,
  removeAll cls (a ++ b) = removeAll cls a ++ removeAll cls b.
Proof. intros. unfold removeAll. apply filter_app. Qed.

(** What [parseNumericValue] makes of a cell depends only on the digits,
    commas, periods and minus signs in it. *)
Lemma parseNumericValue_sanitized : forall v req,
  trim v <> [] ->
  GoogleSheetImportModal.parseNumericValue (Some v) req
  = match parseFloat (normalizeSeparators (removeAll notNumeric v)) with
    | None => if req then inl NotANumber else inr None
    | Some number => inr (Some number)
    end.
Proof.
  intros v req H. unfold GoogleSheetImportModal.parseNumericValue.
  assert (N : nonEmpty v = true).
  { destruct v; [|reflexivity]. now elim H. }
  assert (N' : nonEmpty (trim v) = true).
  { destruct (trim v); [|reflexivity]. now elim H. }
  rewrite N, N'. simpl. rewrite removeAll_trim. reflexivity.
Qed.

Lemma lastIndexOf_from_app : forall c a b i found,
  lastIndexOf_from c i (a ++ b) found
  = lastIndexOf_from c (i + Z.of_nat (length a)) b (lastIndexOf_from c i a found).
Proof.
  intros c a. induction a as [|x a IH]; intros b i found; simpl.
  - now rewrite Z.add_0_r.
  - rewrite IH. f_equal. lia.
Qed.

Lemma lastIndexOf_from_absent : forall c s i found,
  occurs c s = false -> lastIndexOf_from c i s found = found.
Proof.
  intros c s. unfold occurs. induction s as [|x s IH]; intros i found H; simpl.
  - reflexivity.
  - simpl in H. apply orb_false_elim in H. destruct H as [H1 H2].
    rewrite IH by assumption.
    unfold eqc in *. rewrite Ascii.eqb_sym in H1. now rewrite H1.
Qed.

Lemma lastIndexOf_from_bound : forall c s i found,
  (found < i)%Z ->
  (found <= lastIndexOf_from c i s found < i + Z.of_nat (length s))%Z.
Proof.
  intros c s. induction s as [|x s IH]; intros i found H; simpl.
  - lia.
  - destruct (eqc x c).
    + specialize (IH (i + 1)%Z i). lia.
    + specialize (IH (i + 1)%Z found). lia.
Qed.

Lemma lastIndexOf_from_present : forall c s i found,
  occurs c s = true -> (i <= lastIndexOf_from c i s found)%Z.
Proof.
  intros c s. unfold occurs. induction s as [|x s IH]; intros i found H; simpl.
  - discriminate.
  - simpl in H. unfold eqc in *. rewrite (Ascii.eqb_sym c x) in H.
    destruct (Ascii.eqb x c) eqn:E; simpl in H.
    + pose proof (@lastIndexOf_from_bound c s (i + 1)%Z i). lia.
    + specialize (IH (i + 1)%Z found H). lia.
Qed.

Lemma removeAll_absent : forall c s,
  occurs c s = false -> removeAll (fun x => eqc x c) s = s.
Proof.
  intros c s. unfold occurs, removeAll.
  induction s as [|x s IH]; simpl; intros H.
  - reflexivity.
  - apply orb_false_elim in H. destruct H as [H1 H2].
    unfold eqc in *. rewrite (Ascii.eqb_sym x c), H1. simpl. now rewrite IH.
Qed.

Lemma lastIndexOf_last : forall c a b,
  occurs c b = false ->
  lastIndexOf c (a ++ c :: b) = Z.of_nat (length a).
Proof.
  intros c a b H. unfold lastIndexOf.
  rewrite lastIndexOf_from_app. simpl.
  unfold eqc. rewrite Ascii.eqb_refl.
  now rewrite lastIndexOf_from_absent.
Qed.

Lemma lastIndexOf_before : forall c d a b,
  eqc d c = false -> occurs c b = false ->
  lastIndexOf c (a ++ d :: b) = lastIndexOf c a
  /\ (-1 <= lastIndexOf c a < Z.of_nat (length a))%Z.
Proof.
  intros c d a b Hd H. unfold lastIndexOf. split.
  - rewrite lastIndexOf_from_app. simpl. rewrite Hd.
    now rewrite lastIndexOf_from_absent.
  - pose proof (@lastIndexOf_from_bound c a 0 (-1)). lia.
Qed.

Lemma lastIndexOf_negative : forall c s,
  (lastIndexOf c s <= -1)%Z -> occurs c s = false.
Proof.
  intros c s H. destruct (occurs c s) eqn:E; [|reflexivity].
  pose proof (@lastIndexOf_from_present c s 0 (-1) E).
  unfold lastIndexOf in H. lia.
Qed.

(** When the last separator is a comma, the periods go and the comma
    becomes the decimal point. *)
Lemma normalize_comma_last : forall a f,
  occurs "," f = false -> occurs "." f = false ->
  normalizeSeparators (a ++ ","%char :: f)
  = replaceFirst "," "." (removeAll isPeriod (a ++ ","%char :: f)).
Proof.
  intros a f Hc Hp. unfold normalizeSeparators.
  rewrite (lastIndexOf_last _ a _ Hc).
  destruct (@lastIndexOf_before "."%char ","%char a f eq_refl Hp) as [E B].
  rewrite E.
  assert (C : (-1 <? Z.of_nat (length a))%Z = true) by (apply Z.ltb_lt; lia).
  rewrite C. simpl.
  destruct (-1 <? lastIndexOf "." a)%Z eqn:L.
  - assert (L' : (lastIndexOf "." a <? Z.of_nat (length a))%Z = true)
      by (apply Z.ltb_lt; lia).
    now rewrite L'.
  - apply Z.ltb_ge in L.
    rewrite <- E in L. apply lastIndexOf_negative in L.
    unfold isPeriod. now rewrite (removeAll_absent _ _ L).
Qed.

(** When the last separator is a period, the commas go. *)
Lemma normalize_period_last : forall a f,
  occurs "," f = false -> occurs "." f = false ->
  normalizeSeparators (a ++ "."%char :: f) = removeAll isComma (a ++ "."%char :: f).
Proof.
  intros a f Hc Hp. unfold normalizeSeparators.
  rewrite (lastIndexOf_last _ a _ Hp).
  destruct (@lastIndexOf_before ","%char "."%char a f eq_refl Hc) as [E B].
  rewrite E.
  assert (C : (-1 <? Z.of_nat (length a))%Z = true) by (apply Z.ltb_lt; lia).
  rewrite C.
  destruct (-1 <? lastIndexOf "," a)%Z eqn:L; simpl.
  - assert (L' : (Z.of_nat (length a) <? lastIndexOf "," a)%Z = false)
      by (apply Z.ltb_ge; lia).
    now rewrite L'.
  - apply Z.ltb_ge in L.
    rewrite <- E in L. apply lastIndexOf_negative in L.
    unfold isComma. now rewrite (removeAll_absent _ _ L).
Qed.

(** Without a comma the text is parsed as it stands. *)
Lemma normalize_no_comma : forall s,
  occurs "," s = false -> normalizeSeparators s = s.
Proof.
  intros s H. unfold normalizeSeparators.
  assert (E : lastIndexOf "," s = (-1)%Z).
  { unfold lastIndexOf. now apply lastIndexOf_from_absent. }
  rewrite E. reflexivity.
Qed.

Lemma digits_app : forall a b, digits a -> digits b -> digits (a ++ b).
Proof.
  unfold digits. intros a b Ha Hb. rewrite forallb_app. now rewrite Ha, Hb.
Qed.

Lemma digits_absent : forall c s,
  isDigit c = false -> digits s -> occurs c s = false.
Proof.
  intros c s Hc. unfold digits, occurs.
  induction s as [|x s IH]; simpl; intros H.
  - reflexivity.
  - apply andb_prop in H. destruct H as [H1 H2].
    rewrite (IH H2), orb_false_r.
    unfold eqc. destruct (Ascii.eqb c x) eqn:E; [|reflexivity].
    apply Ascii.eqb_eq in E. congruence.
Qed.

Lemma digits_concat : forall gs,
  Forall (fun g => g <> [] /\ digits g) gs -> digits (concat gs).
Proof.
  induction gs as [|g gs IH]; intros H; simpl.
  - reflexivity.
  - inversion H as [|x r [_ Hg] Hr]; subst.
    apply digits_app; auto.
Qed.

Lemma removeAll_join : forall c gs,
  isDigit c = false ->
  Forall (fun g => g <> [] /\ digits g) gs ->
  removeAll (fun x => eqc x c) (join [c] gs) = concat gs.
Proof.
  intros c gs Hc. induction gs as [|g gs IH]; intros H.
  - reflexivity.
  - inversion H as [|x r [_ Hg] Hr]; subst.
    pose proof (removeAll_absent _ _ (digits_absent c Hc Hg)) as Eg.
    destruct gs as [|g' gs].
    + simpl. now rewrite app_nil_r.
    + change (join [c] (g :: g' :: gs)) with (g ++ [c] ++ join [c] (g' :: gs)).
      rewrite !removeAll_app, Eg, (IH Hr).
      simpl. unfold removeAll. simpl. unfold eqc. now rewrite Ascii.eqb_refl.
Qed.

Lemma replaceFirst_here : forall c d a b,
  occurs c a = false -> replaceFirst c d (a ++ c :: b) = a ++ d :: b.
Proof.
  intros c d a b. unfold occurs. induction a as [|x a IH]; simpl; intros H.
  - unfold eqc. now rewrite Ascii.eqb_refl.
  - apply orb_false_elim in H. destruct H as [H1 H2].
    unfold eqc in *. rewrite (Ascii.eqb_sym x c), H1. now rewrite IH.
Qed.

Lemma spanDigits_digits : forall ds rest,
  digits ds ->
  match rest with c :: _ => isDigit c = false | [] => True end ->
  spanDigits (ds ++ rest) = (ds, rest).
Proof.
  unfold digits. induction ds as [|c ds IH]; simpl; intros rest H R.
  - destruct rest as [|c r]; [reflexivity|]. simpl. now rewrite R.
  - apply andb_prop in H. destruct H as [H1 H2].
    rewrite H1. now rewrite (IH rest H2 R).
Qed.

(** [parseFloat] on digits, a decimal point and digits. *)
Lemma parseFloat_decimal : forall ip fp,
  ip <> [] -> digits ip -> digits fp ->
  exists q, parseFloat (ip ++ "."%char :: fp) = Some q /\ q == decimalValue ip fp.
Proof.
  intros ip fp N Hi Hf.
  destruct ip as [|c ip]; [contradiction|].
  assert (Hc : isDigit c = true).
  { unfold digits in Hi. simpl in Hi. now apply andb_prop in Hi. }
  destruct (digit_classes _ Hc) as [W [_ [_ [_ [M P]]]]].
  unfold parseFloat.
  change ((c :: ip) ++ "."%char :: fp) with (c :: (ip ++ "."%char :: fp)).
  cbn [trimStart]. rewrite W. cbn [signOf]. rewrite M, P.
  change (c :: (ip ++ "."%char :: fp)) with ((c :: ip) ++ "."%char :: fp).
  rewrite (@spanDigits_digits (c :: ip) ("."%char :: fp) Hi eq_refl).
  cbn [eqc Ascii.eqb Bool.eqb andb].
  pose proof (@spanDigits_digits fp [] Hf I) as S. rewrite app_nil_r in S.
  rewrite S. eexists. split; [reflexivity|].
  unfold decimalValue, exponentOf, pow10.
  change (0 <=? 0)%Z with true. cbv iota.
  change (inject_Z (10 ^ 0)) with 1. change (inject_Z 1) with 1.
  generalize (inject_Z (digitsVal ((c :: ip) ++ fp))
              / inject_Z (10 ^ Z.of_nat (length fp))).
  intros x. ring.
Qed.

(** [parseFloat] on digits alone. *)
Lemma parseFloat_digits : forall ip,
  ip <> [] -> digits ip ->
  exists q, parseFloat ip = Some q /\ q == decimalValue ip [].
Proof.
  intros ip N Hi.
  destruct ip as [|c ip]; [contradiction|].
  assert (Hc : isDigit c = true).
  { unfold digits in Hi. simpl in Hi. now apply andb_prop in Hi. }
  destruct (digit_classes _ Hc) as [W [_ [_ [_ [M P]]]]].
  unfold parseFloat. cbn [trimStart]. rewrite W. cbn [signOf]. rewrite M, P.
  pose proof (@spanDigits_digits (c :: ip) [] Hi I) as S.
  rewrite app_nil_r in S. rewrite S.
  eexists. split; [reflexivity|].
  unfold decimalValue, exponentOf, pow10.
  change (0 <=? 0)%Z with true. cbv iota.
  change (inject_Z (10 ^ 0)) with 1. change (inject_Z 1) with 1.
  generalize (inject_Z (digitsVal ((c :: ip) ++ []))
              / inject_Z (10 ^ Z.of_nat (length (@nil ascii)))).
  intros x. ring.
Qed.

Lemma digits_numeric : forall s,
  digits s -> forallb (fun c => negb (notNumeric c)) s = true.
Proof.
  unfold digits. induction s as [|c s IH]; simpl; intros H.
  - reflexivity.
  - apply andb_prop in H. destruct H as [H1 H2].
    destruct (digit_classes _ H1) as [_ [N _]]. rewrite N. simpl. auto.
Qed.

Lemma join_numeric : forall sep gs,
  notNumeric sep = false ->
  Forall (fun g => g <> [] /\ digits g) gs ->
  forallb (fun c => negb (notNumeric c)) (join [sep] gs) = true.
Proof.
  intros sep gs Hs. induction gs as [|g gs IH]; intros H.
  - reflexivity.
  - inversion H as [|x r [_ Hg] Hr]; subst.
    destruct gs as [|g' gs].
    + simpl. now apply digits_numeric.
    + change (join [sep] (g :: g' :: gs)) with (g ++ [sep] ++ join [sep] (g' :: gs)).
      rewrite !forallb_app, (digits_numeric Hg), (IH Hr). simpl.
      now rewrite Hs.
Qed.

Lemma grouped_numeric : forall sep dec gs fp,
  notNumeric sep = false -> notNumeric dec = false ->
  digitGroups gs -> digits fp ->
  removeAll notNumeric (grouped sep dec gs fp) = grouped sep dec gs fp
  /\ trim (grouped sep dec gs fp) <> [].
Proof.
  intros sep dec gs fp Hs Hd [_ Hg] Hf.
  assert (E : removeAll notNumeric (grouped sep dec gs fp) = grouped sep dec gs fp).
  { apply removeAll_none. unfold grouped.
    rewrite forallb_app, (join_numeric _ Hs Hg). simpl.
    rewrite Hd. simpl. now apply digits_numeric. }
  split; [exact E|].
  intros T. rewrite <- removeAll_trim, T in E.
  unfold grouped in E. simpl in E. destruct (join [sep] gs); discriminate.
Qed.

Lemma concat_groups_nonempty : forall gs, digitGroups gs -> concat gs <> [].
Proof.
  intros gs [N H]. destruct gs as [|g gs]; [contradiction|].
  inversion H as [|x r [Ng _] _]; subst. simpl.
  destruct g; [contradiction|discriminate].
Qed.

(** The value of a cell whose last separator is a comma. *)
Lemma parse_comma_decimal : forall gs fp req,
  digitGroups gs -> digits fp ->
  exists q,
    GoogleSheetImportModal.parseNumericValue (Some (grouped "." "," gs fp)) req
    = inr (Some q)
    /\ q == decimalValue (concat gs) fp.
Proof.
  intros gs fp req G Hf.
  destruct (@grouped_numeric "."%char ","%char gs fp eq_refl eq_refl G Hf) as [E T].
  rewrite (parseNumericValue_sanitized _ req T), E.
  unfold grouped.
  rewrite normalize_comma_last by (apply digits_absent; auto).
  rewrite removeAll_app.
  unfold isPeriod at 1. rewrite (@removeAll_join "."%char gs eq_refl (proj2 G)).
  assert (R : removeAll isPeriod (","%char :: fp) = ","%char :: fp).
  { unfold isPeriod. apply removeAll_absent.
    change (occurs "." (","%char :: fp)) with (eqc "." "," || occurs "." fp).
    now rewrite (digits_absent "."%char eq_refl Hf). }
  rewrite R.
  rewrite replaceFirst_here
    by (apply digits_absent; [reflexivity|apply digits_concat, G]).
  destruct (parseFloat_decimal (concat_groups_nonempty G)
              (digits_concat (proj2 G)) Hf) as [q [Hq Eq]].
  rewrite Hq. exists q. auto.
Qed.

(** The value of a cell whose last separator is a period. *)
Lemma parse_period_decimal : forall gs fp req,
  digitGroups gs -> digits fp ->
  exists q,
    GoogleSheetImportModal.parseNumericValue (Some (grouped "," "." gs fp)) req
    = inr (Some q)
    /\ q == decimalValue (concat gs) fp.
Proof.
  intros gs fp req G Hf.
  destruct (@grouped_numeric ","%char "."%char gs fp eq_refl eq_refl G Hf) as [E T].
  rewrite (parseNumericValue_sanitized _ req T), E.
  unfold grouped.
  rewrite normalize_period_last by (apply digits_absent; auto).
  rewrite removeAll_app.
  unfold isComma at 1. rewrite (@removeAll_join ","%char gs eq_refl (proj2 G)).
  assert (R : removeAll isComma ("."%char :: fp) = "."%char :: fp).
  { unfold isComma. apply removeAll_absent.
    change (occurs "," ("."%char :: fp)) with (eqc "," "." || occurs "," fp).
    now rewrite (digits_absent ","%char eq_refl Hf). }
  rewrite R.
  destruct (parseFloat_decimal (concat_groups_nonempty G)
              (digits_concat (proj2 G)) Hf) as [q [Hq Eq]].
  rewrite Hq. exists q. auto.
Qed.

Lemma plainDecimal_kept : forall v : jsstring,
  plainDecimal v ->
  removeAll notNumeric v = v /\ occurs "," v = false
  /\ forallb (fun c => negb (isWhiteSpace c)) v = true.
Proof.
  unfold plainDecimal, occurs. induction v as [|c v IH]; intros H.
  - repeat split.
  - cbn [forallb] in H. apply andb_prop in H. destruct H as [Hc Hv].
    destruct (IH Hv) as [E [O W]].
    assert (C : notNumeric c = false /\ eqc "," c = false
                /\ isWhiteSpace c = false).
    { apply orb_prop in Hc. destruct Hc as [Hc|Hc];
        [apply orb_prop in Hc; destruct Hc as [Hc|Hc]|].
      - destruct (digit_classes _ Hc) as [Hw [Hn [Hk _]]].
        unfold eqc in *. rewrite Ascii.eqb_sym. auto.
      - apply Ascii.eqb_eq in Hc. subst c. repeat split.
      - apply Ascii.eqb_eq in Hc. subst c. repeat split. }
    destruct C as [C1 [C2 C3]].
    unfold removeAll in *. cbn [filter existsb forallb].
    rewrite C1, C2, C3, E, O, W. repeat split.
Qed.

Lemma trim_plain : forall v : jsstring,
  v <> [] -> forallb (fun c => negb (isWhiteSpace c)) v = true ->
  trim v <> [].
Proof.
  intros v N W E. apply trim_nil in E.
  destruct v as [|c r]; [now elim N|].
  cbn [forallb] in W. apply andb_prop in W. destruct W as [W _].
  apply negb_true_iff in W. cbn [trimStart] in E. rewrite W in E.
  discriminate.
Qed.

Lemma parse_plain : forall (v : jsstring) req,
  v <> [] -> plainDecimal v ->
  GoogleSheetImportModal.parseNumericValue (Some v) req
  = match parseFloat v with
    | None => if req then inl NotANumber else inr None
    | Some number => inr (Some number)
    end.
Proof.
  intros v req N P. destruct (@plainDecimal_kept v P) as [E [O W]].
  rewrite (@parseNumericValue_sanitized v req (@trim_plain v N W)).
  now rewrite E, (@normalize_no_comma v O).
Qed.

(** C3, as the code has it.  A cell is read after dropping everything but
    digits, commas, periods and minus signs, so currency symbols and white
    space do not count, and neither does a letter.  In a numeral written
    in groups of digits, with one separator between the groups and the
    other one before the fraction, the separator that comes last is the
    decimal point and the other one is dropped, whichever symbol it is; a
    lone comma is the decimal point; without a comma what is kept is
    parsed as a decimal numeral, so that a cell of digits, periods and
    minus signs reads as its decimal parse.  Hence "1.234,56" and
    "1,234.56" both read as 1234.56; an empty required cell fails, an
    empty optional cell is undefined. *)
Theorem C3_parseNumber :
  (forall v w req,
     trim v <> [] -> trim w <> [] ->
     removeAll notNumeric v = removeAll notNumeric w ->
     GoogleSheetImportModal.parseNumericValue (Some v) req
     = GoogleSheetImportModal.parseNumericValue (Some w) req)
  /\ (forall gs fp req,
        digitGroups gs -> digits fp ->
        exists q q',
          GoogleSheetImportModal.parseNumericValue
            (Some (grouped "." "," gs fp)) req = inr (Some q)
          /\ GoogleSheetImportModal.parseNumericValue
               (Some (grouped "," "." gs fp)) req = inr (Some q')
          /\ q == decimalValue (concat gs) fp
          /\ q' == decimalValue (concat gs) fp)
  /\ (forall v req,
        trim v <> [] -> occurs "," (removeAll notNumeric v) = false ->
        GoogleSheetImportModal.parseNumericValue (Some v) req
        = match parseFloat (removeAll notNumeric v) with
          | None => if req then inl NotANumber else inr None
          | Some number => inr (Some number)
          end)
  /\ (forall (v : jsstring) req,
        v <> [] -> plainDecimal v ->
        GoogleSheetImportModal.parseNumericValue (Some v) req
        = match parseFloat v with
          | None => if req then inl NotANumber else inr None
          | Some number => inr (Some number)
          end)
  /\ (exists q q',
        GoogleSheetImportModal.parseNumericValue (Some (str "1.234,56")) true
        = inr (Some q)
        /\ GoogleSheetImportModal.parseNumericValue (Some (str "1,234.56")) true
           = inr (Some q')
        /\ q == 1234.56 /\ q' == 1234.56)
  /\ GoogleSheetImportModal.parseNumericValue (Some []) true = inl FieldEmpty
  /\ GoogleSheetImportModal.parseNumericValue (Some (str "  ")) true
     = inl FieldEmpty
  /\ GoogleSheetImportModal.parseNumericValue (Some []) false = inr None.
Proof.
  split; [|split; [|split; [|split; [|split; [|repeat split]]]]].
  - intros v w req Hv Hw E.
    now rewrite (parseNumericValue_sanitized _ req Hv),
      (parseNumericValue_sanitized _ req Hw), E.
  - intros gs fp req G Hf.
    destruct (parse_comma_decimal req G Hf) as [q [H1 E1]].
    destruct (parse_period_decimal req G Hf) as [q' [H2 E2]].
    exists q, q'. auto.
  - intros v req T H.
    now rewrite (parseNumericValue_sanitized _ req T), (normalize_no_comma _ H).
  - intros v req N P. exact (@parse_plain v req N P).
  - eexists. eexists. split; [vm_compute; reflexivity|].
    split; [vm_compute; reflexivity|]. split; reflexivity.
Qed.

Lemma C3_parseNumber_witness :
  (exists q q',
     GoogleSheetImportModal.parseNumericValue
       (Some (grouped "." "," [str "12"; str "345"; str "678"] (str "90"))) true
     = inr (Some q)
     /\ GoogleSheetImportModal.parseNumericValue
          (Some (grouped "," "." [str "12"; str "345"; str "678"] (str "90"))) true
        = inr (Some q')
     /\ q == 12345678.90 /\ q' == 12345678.90)
  /\ GoogleSheetImportModal.parseNumericValue (Some (str " $1.234,56 USD")) true
     = GoogleSheetImportModal.parseNumericValue (Some (str "1.234,56")) true.
Proof.
  pose proof C3_parseNumber as [H1 [H2 _]].
  split.
  - destruct (H2 [str "12"; str "345"; str "678"] (str "90") true)
      as [q [q' [E1 [E2 [V1 V2]]]]].
    + split; [discriminate|].
      repeat constructor; discriminate.
    + reflexivity.
    + exists q, q'. repeat split; assumption.
  - apply H1; [vm_compute; discriminate|vm_compute; discriminate|reflexivity].
Defined.

(** C3 as stated fails: "1e3" is a numeric string without a comma or a
    period whose decimal parse is 1000, and the cell reads as 13, because
    the letter goes with everything that is not a digit, a comma, a period
    or a minus sign. *)
Lemma C3_counterexample :
  occurs "," (str "1e3") = false /\ occurs "." (str "1e3") = false
  /\ exists p q,
       parseFloat (str "1e3") = Some p /\ p == 1000
       /\ GoogleSheetImportModal.parseNumericValue (Some (str "1e3")) true
          = inr (Some q)
       /\ q == 13 /\ ~ q == p.
Proof.
  split; [reflexivity|]. split; [reflexivity|].
  eexists. eexists. split; [vm_compute; reflexivity|].
  split; [reflexivity|]. split; [vm_compute; reflexivity|].
  split; [reflexivity|]. vm_compute. discriminate.
Qed.

(** ** The calendar *)

Unset Implicit Arguments.

Lemma civilSlots_ok : forallb civilSlotOk civilSlots = true.
Proof. vm_cast_no_check (eq_refl true). Qed.

Lemma rangeFrom_In : forall n a x,
  (a <= x < a + Z.of_nat n)%Z -> In x (rangeFrom a n).
Proof.
  induction n as [|n IH]; intros a x H; simpl.
  - lia.
  - destruct (Z.eq_dec a x) as [E|E]; [now left|].
    right. apply IH. lia.
Qed.

Lemma rangeZ_In : forall a n x, (a <= x < a + n)%Z -> In x (rangeZ a n).
Proof. intros a n x H. unfold rangeZ. apply rangeFrom_In. lia. Qed.

Lemma daysInMonth_le_31 : forall y m, (daysInMonth y m <= 31)%Z.
Proof.
  intros y m. unfold daysInMonth.
  repeat match goal with |- context [if ?b then _ else _] => destruct b end; lia.
Qed.

Lemma civil_window : forall y m d,
  (2000 <= y < 2400)%Z -> realCalendarDate y m d = true ->
  civilFromDays (daysFromCivil y m d) = (y, m, d).
Proof.
  intros y m d Hy R. unfold realCalendarDate in R.
  apply andb_prop in R. destruct R as [R Hd].
  apply andb_prop in R. destruct R as [R Hd1].
  apply andb_prop in R. destruct R as [Hm1 Hm12].
  apply Z.leb_le in Hm1, Hm12, Hd1.
  assert (D31 : (d <= 31)%Z).
  { apply Z.leb_le in Hd. pose proof (daysInMonth_le_31 y m). lia. }
  pose proof civilSlots_ok as C. rewrite forallb_forall in C.
  assert (I : In (y, (m, d)) civilSlots).
  { unfold civilSlots. apply in_prod; [apply rangeZ_In; lia|].
    apply in_prod; apply rangeZ_In; lia. }
  specialize (C _ I). unfold civilSlotOk in C. rewrite Hd in C.
  change (negb true) with false in C. rewrite orb_false_l in C.
  destruct (civilFromDays (daysFromCivil y m d)) as [[y' m'] d'].
  apply andb_prop in C. destruct C as [C C3].
  apply andb_prop in C. destruct C as [C1 C2].
  apply Z.eqb_eq in C1, C2, C3. now subst.
Qed.

Lemma daysFromCivil_shift : forall y m d k,
  daysFromCivil (y + 400 * k) m d = (daysFromCivil y m d + 146097 * k)%Z.
Proof.
  intros y m d k. unfold daysFromCivil.
  set (y1 := if (m <=? 2)%Z then (y - 1)%Z else y).
  replace (if (m <=? 2)%Z then (y + 400 * k - 1)%Z else (y + 400 * k)%Z)
    with (y1 + k * 400)%Z by (unfold y1; destruct (m <=? 2)%Z; lia).
  rewrite Z.div_add by lia.
  replace (y1 + k * 400 - (y1 / 400 + k) * 400)%Z
    with (y1 - y1 / 400 * 400)%Z by lia.
  set (yoe := (y1 - y1 / 400 * 400)%Z).
  set (doe := (yoe * 365 + yoe / 4 - yoe / 100
               + ((153 * (if (2 <? m)%Z then m - 3 else m + 9) + 2) / 5 + d - 1))%Z).
  lia.
Qed.

Lemma civilFromDays_shift : forall z k,
  civilFromDays (z + 146097 * k)
  = match civilFromDays z with (y, m, d) => ((y + 400 * k)%Z, m, d) end.
Proof.
  intros z k. unfold civilFromDays.
  replace (z + 146097 * k + 719468)%Z with (z + 719468 + k * 146097)%Z by lia.
  rewrite Z.div_add by lia.
  set (era := ((z + 719468) / 146097)%Z).
  replace (z + 719468 + k * 146097 - (era + k) * 146097)%Z
    with (z + 719468 - era * 146097)%Z by lia.
  set (doe := (z + 719468 - era * 146097)%Z).
  set (yoe := ((doe - doe / 1460 + doe / 36524 - doe / 146096) / 365)%Z).
  set (doy := (doe - (365 * yoe + yoe / 4 - yoe / 100))%Z).
  set (mp := ((5 * doy + 2) / 153)%Z).
  destruct (mp <? 10)%Z;
    match goal with |- context [if ?b then _ else _] => destruct b end;
    f_equal; f_equal; lia.
Qed.

Lemma isLeap_shift : forall y k, isLeap (y + 400 * k) = isLeap y.
Proof.
  intros y k. unfold isLeap.
  replace (y + 400 * k)%Z with (y + (k * 100) * 4)%Z at 1 by lia.
  replace (y + 400 * k)%Z with (y + (k * 4) * 100)%Z at 1 by lia.
  replace (y + 400 * k)%Z with (y + k * 400)%Z by lia.
  now rewrite !Z_mod_plus_full.
Qed.

Lemma daysInMonth_shift : forall y m k,
  daysInMonth (y + 400 * k) m = daysInMonth y m.
Proof. intros. unfold daysInMonth. now rewrite isLeap_shift. Qed.

(** The civil date of the day number of a day of the calendar is that
    day. *)
Lemma civil_round_trip : forall y m d,
  realCalendarDate y m d = true ->
  civilFromDays (daysFromCivil y m d) = (y, m, d).
Proof.
  intros y m d R.
  set (k := ((y - 2000) / 400)%Z).
  set (y0 := (2000 + (y - 2000) mod 400)%Z).
  assert (Ey : y = (y0 + 400 * k)%Z).
  { unfold y0, k. pose proof (Z.div_mod (y - 2000) 400). lia. }
  assert (By : (2000 <= y0 < 2400)%Z).
  { unfold y0. pose proof (Z.mod_pos_bound (y - 2000) 400). lia. }
  clearbody y0 k. subst y.
  unfold realCalendarDate in R. rewrite daysInMonth_shift in R.
  rewrite daysFromCivil_shift, civilFromDays_shift.
  now rewrite (civil_window y0 m d By R).
Qed.

(** ** The dates of a sheet *)

Lemma split_cons : forall sep s, exists h t, split sep s = h :: t.
Proof.
  intros sep s. destruct s as [|c s]; simpl.
  - eauto.
  - destruct (sep c); [eauto|]. destruct (split sep s); eauto.
Qed.

Lemma split_parts : forall sep s p,
  In p (split sep s) -> forallb (fun c => negb (sep c)) p = true.
Proof.
  intros sep s. induction s as [|c s IH]; simpl; intros p H.
  - destruct H as [<-|[]]. reflexivity.
  - destruct (sep c) eqn:E.
    + destruct H as [<-|H]; [reflexivity|auto].
    + destruct (split sep s) as [|h t].
      * destruct H as [<-|[]]. simpl. now rewrite E.
      * destruct H as [<-|H].
        -- simpl. rewrite E. simpl. apply IH. now left.
        -- apply IH. now right.
Qed.

Lemma spanDigits_fst : forall s, digits (fst (spanDigits s)).
Proof.
  unfold digits. induction s as [|c s IH]; simpl.
  - reflexivity.
  - destruct (isDigit c) eqn:E; [|reflexivity].
    destruct (spanDigits s) as [ds rest]. simpl in *. now rewrite E.
Qed.

Lemma digitVal_nonneg : forall c, isDigit c = true -> (0 <= digitVal c)%Z.
Proof.
  intros c H. unfold isDigit in H. apply andb_prop in H. destruct H as [H _].
  apply N.leb_le in H. unfold digitVal. lia.
Qed.

Lemma digitsVal_nonneg : forall ds, digits ds -> (0 <= digitsVal ds)%Z.
Proof.
  intros ds. unfold digits, digitsVal.
  assert (G : forall acc, (0 <= acc)%Z -> forallb isDigit ds = true ->
              (0 <= fold_left (fun a c => 10 * a + digitVal c) ds acc)%Z).
  { induction ds as [|c ds IH]; cbn [fold_left forallb]; intros acc Ha H;
      [assumption|].
    apply andb_prop in H. destruct H as [H1 H2].
    apply IH; [|assumption]. pose proof (digitVal_nonneg _ H1). lia. }
  apply G. lia.
Qed.

Lemma forallb_trimStart : forall (f : ascii -> bool) s,
  forallb f s = true -> forallb f (trimStart s) = true.
Proof.
  intros f s. induction s as [|c s IH]; simpl; intros H; [reflexivity|].
  apply andb_prop in H. destruct H as [H1 H2].
  destruct (isWhiteSpace c); [auto|]. simpl. now rewrite H1, H2.
Qed.

(** A component of a date has no minus sign, so its integer is not
    negative. *)
Lemma parseInt_component_nonneg : forall s n,
  forallb (fun c => negb (isDateSeparator c)) s = true ->
  parseInt s = Some n -> (0 <= n)%Z.
Proof.
  intros s n H. apply forallb_trimStart in H. unfold parseInt, signOf.
  destruct (trimStart s) as [|c r].
  - simpl. discriminate.
  - simpl in H. apply andb_prop in H. destruct H as [Hc _].
    unfold isDateSeparator in Hc.
    destruct (eqc c "-") eqn:M.
    + rewrite orb_true_r in Hc. simpl in Hc. discriminate.
    + assert (G : forall sg r', (0 <= sg)%Z ->
                match spanDigits r' with
                | ([], _) => None
                | (ds, _) => Some (sg * digitsVal ds)%Z
                end = Some n -> (0 <= n)%Z).
      { intros sg r' Hs. pose proof (spanDigits_fst r') as D.
        destruct (spanDigits r') as [[|d ds] rest]; [discriminate|].
        intros E. injection E as <-. simpl fst in D.
        apply Z.mul_nonneg_nonneg; [assumption|].
        exact (@digitsVal_nonneg (d :: ds) D). }
      destruct (eqc c "+"); apply (G 1%Z); lia.
Qed.

Lemma TimeClip_Some : forall x t,
  TimeClip x = Some t <-> t = x /\ (Z.abs t <= maxTime)%Z.
Proof.
  intros x t. unfold TimeClip.
  destruct (Z.abs x <=? maxTime)%Z eqn:E.
  - apply Z.leb_le in E. split.
    + intros H. inversion H. subst. auto.
    + intros [-> _]. reflexivity.
  - apply Z.leb_gt in E. split; [discriminate|].
    intros [-> H]. lia.
Qed.

Lemma Date_UTC_explicit : forall y m d,
  (100 <= y)%Z -> (1 <= m <= 12)%Z ->
  Date_UTC y (m - 1) d = TimeClip ((daysFromCivil y m 1 + d - 1) * msPerDay).
Proof.
  intros y m d Hy Hm. unfold Date_UTC, MakeDay.
  assert (E : ((0 <=? y) && (y <=? 99))%Z = false).
  { apply andb_false_iff. right. apply Z.leb_gt. lia. }
  rewrite E, Z.div_small, Z.mod_small by lia.
  now replace (y + 0)%Z with y by lia; replace (m - 1 + 1)%Z with m by lia.
Qed.

Lemma daysFromCivil_day : forall y m d,
  daysFromCivil y m d = (daysFromCivil y m 1 + d - 1)%Z.
Proof. intros. unfold daysFromCivil. lia. Qed.

Lemma year_rule_ge_100 : forall year,
  (0 <= year)%Z ->
  (100 <= (if year <? 100
           then if 50 <=? year then 1900 + year else 2000 + year
           else year))%Z.
Proof.
  intros year H.
  destruct (year <? 100)%Z eqn:E; [|apply Z.ltb_ge in E; lia].
  destruct (50 <=? year)%Z; lia.
Qed.

(** What [parseDate] returns, in terms of the components of the text. *)
Lemma parseDate_components : forall v,
  GoogleSheetImportModal.parseDate (Some v)
  = match dateComponents v with
    | Some (y, m, d) =>
        if ((1 <=? m) && (m <=? 12) && (1 <=? d) && (d <=? 31))%Z
        then match TimeClip ((daysFromCivil y m 1 + d - 1) * msPerDay) with
             | Some t => inr t
             | None => inl DateValues
             end
        else inl DateValues
    | None =>
        if negb (nonEmpty (trim v)) then inl DateMissing
        else match split isDateSeparator (trim v) with
             | [_; _; _] => inl DateValues
             | _ => inl DateFormat
             end
    end.
Proof.
  intros v. unfold GoogleSheetImportModal.parseDate, dateComponents.
  destruct (nonEmpty (trim v)) eqn:T.
  - assert (N : nonEmpty v = true).
    { destruct v; [discriminate T|reflexivity]. }
    rewrite N. simpl.
    pose proof (@split_parts isDateSeparator (trim v)) as P.
    destruct (split isDateSeparator (trim v)) as [|s1 [|s2 [|s3 [|s4 l]]]];
      try reflexivity.
    destruct (parseInt s1) as [p1|] eqn:E1; [|reflexivity].
    destruct (parseInt s2) as [p2|] eqn:E2; [|reflexivity].
    destruct (parseInt s3) as [p3|] eqn:E3; [|reflexivity].
    pose proof (@parseInt_component_nonneg s1 p1 (P s1 ltac:(simpl; auto)) E1) as N1.
    pose proof (@parseInt_component_nonneg s3 p3 (P s3 ltac:(simpl; auto)) E3) as N3.
    assert (G : forall day month year, (0 <= year)%Z ->
      match
        Date_UTC
          (if (year <? 100)%Z
           then if (50 <=? year)%Z then (1900 + year)%Z else (2000 + year)%Z
           else year) (month - 1) day
      with
      | Some t =>
          if ((month <? 1) || (12 <? month) || (day <? 1) || (31 <? day))%Z
          then throw Z DateValues else ret t
      | None => throw Z DateValues
      end
      = if ((1 <=? month) && (month <=? 12) && (1 <=? day) && (day <=? 31))%Z
        then match
               TimeClip
                 ((daysFromCivil
                     (if (year <? 100)%Z
                      then if (50 <=? year)%Z then (1900 + year)%Z
                           else (2000 + year)%Z
                      else year) month 1 + day - 1) * msPerDay)
             with
             | Some t => inr t
             | None => inl DateValues
             end
        else inl DateValues).
    { intros day month year Hy.
      pose proof (year_rule_ge_100 _ Hy) as Y.
      destruct ((1 <=? month) && (month <=? 12) && (1 <=? day) && (day <=? 31))%Z
        eqn:R.
      - apply andb_prop in R. destruct R as [R R4].
        apply andb_prop in R. destruct R as [R R3].
        apply andb_prop in R. destruct R as [R1 R2].
        apply Z.leb_le in R1, R2, R3, R4.
        rewrite Date_UTC_explicit by lia.
        assert (F : ((month <? 1) || (12 <? month) || (day <? 1) || (31 <? day))%Z
                    = false).
        { repeat (apply orb_false_intro); apply Z.ltb_ge; lia. }
        rewrite F. reflexivity.
      - assert (F : ((month <? 1) || (12 <? month) || (day <? 1) || (31 <? day))%Z
                    = true).
        { rewrite !Z.leb_antisym in R. rewrite <- !negb_orb in R.
          now apply negb_false_iff in R. }
        rewrite F. destruct (Date_UTC _ _ _); reflexivity. }
    destruct (length s1 =? 4)%nat; apply G; assumption.
  - assert (Tv : trim v = []).
    { destruct (trim v); [reflexivity|discriminate T]. }
    cbn [negb]. rewrite orb_true_r, Tv. reflexivity.
Qed.

(** C4, as the code has it.  [parseDate] succeeds exactly on the texts
    that split on [/], [-] or [.] into three components which each start
    with an integer and, after the order rule and the two-digit-year rule,
    have a month in 1..12 and a day in 1..31 within the range of [Date];
    the result is UTC midnight of that day counted from the first of the
    month.  When the components are a day of the calendar the result is
    that day; a day past the end of its month is not refused, it rolls over
    into the next month.  Every other text fails. *)
Theorem C4_parseDate : forall v : jsstring,
  (forall t,
     GoogleSheetImportModal.parseDate (Some v) = inr t <->
     exists y m d,
       dateComponents v = Some (y, m, d)
       /\ (1 <= m <= 12)%Z /\ (1 <= d <= 31)%Z
       /\ t = ((daysFromCivil y m 1 + d - 1) * msPerDay)%Z
       /\ (Z.abs t <= maxTime)%Z)
  /\ (forall t y m d,
        GoogleSheetImportModal.parseDate (Some v) = inr t ->
        dateComponents v = Some (y, m, d) ->
        realCalendarDate y m d = true ->
        civilFromDays (t / msPerDay) = (y, m, d) /\ (t mod msPerDay = 0)%Z)
  /\ (forall e,
        GoogleSheetImportModal.parseDate (Some v) = inl e ->
        e = DateMissing \/ e = DateFormat \/ e = DateValues)
  /\ GoogleSheetImportModal.parseDate (Some (str "31/01/2024"))
     = inr 1706659200000%Z
  /\ GoogleSheetImportModal.parseDate (Some (str "2024-01-31"))
     = inr 1706659200000%Z
  /\ toISOString 1706659200000 = str "2024-01-31T00:00:00.000Z"
  /\ GoogleSheetImportModal.parseDate (Some (str "31-31-2024")) = inl DateValues
  /\ GoogleSheetImportModal.parseDate (Some (str "31/02/2024"))
     = GoogleSheetImportModal.parseDate (Some (str "02/03/2024"))
  /\ GoogleSheetImportModal.parseDate (Some (str "15/06/99"))
     = GoogleSheetImportModal.parseDate (Some (str "1999.06.15")).
Proof.
  intros v.
  assert (A : forall t,
     GoogleSheetImportModal.parseDate (Some v) = inr t <->
     exists y m d,
       dateComponents v = Some (y, m, d)
       /\ (1 <= m <= 12)%Z /\ (1 <= d <= 31)%Z
       /\ t = ((daysFromCivil y m 1 + d - 1) * msPerDay)%Z
       /\ (Z.abs t <= maxTime)%Z).
  { intros t. rewrite parseDate_components.
    destruct (dateComponents v) as [[[y m] d]|].
    - destruct ((1 <=? m) && (m <=? 12) && (1 <=? d) && (d <=? 31))%Z eqn:R.
      + apply andb_prop in R. destruct R as [R R4].
        apply andb_prop in R. destruct R as [R R3].
        apply andb_prop in R. destruct R as [R1 R2].
        apply Z.leb_le in R1, R2, R3, R4.
        destruct (TimeClip ((daysFromCivil y m 1 + d - 1) * msPerDay)) as [t'|]
          eqn:C.
        * apply TimeClip_Some in C. destruct C as [-> C]. split.
          -- intros H. inversion H. subst. exists y, m, d. repeat split; auto.
          -- intros [y' [m' [d' [E [_ [_ [-> _]]]]]]]. now inversion E.
        * split; [discriminate|].
          intros [y' [m' [d' [E [_ [_ [Ht Hb]]]]]]]. inversion E; subst.
          assert (C' : TimeClip ((daysFromCivil y' m' 1 + d' - 1) * msPerDay)
                       = Some ((daysFromCivil y' m' 1 + d' - 1) * msPerDay)%Z)
            by (apply TimeClip_Some; auto).
          congruence.
      + split; [discriminate|].
        intros [y' [m' [d' [E [Hm [Hd _]]]]]]. inversion E; subst.
        assert (R' : ((1 <=? m') && (m' <=? 12) && (1 <=? d') && (d' <=? 31))%Z
                     = true).
        { repeat (apply andb_true_intro; split); apply Z.leb_le; lia. }
        congruence.
    - split.
      + destruct (negb (nonEmpty (trim v))); [discriminate|].
        destruct (split isDateSeparator (trim v)) as [|s1 [|s2 [|s3 [|s4 l]]]];
          discriminate.
      + intros [y [m [d [E _]]]]. discriminate. }
  split; [exact A|]. split; [|split].
  - intros t y m d H E R. apply A in H.
    destruct H as [y' [m' [d' [E' [_ [_ [-> _]]]]]]].
    rewrite E in E'. inversion E'; subst.
    rewrite Z.div_mul, Z.mod_mul by (unfold msPerDay; lia).
    rewrite <- daysFromCivil_day. split; [|reflexivity].
    now apply civil_round_trip.
  - intros e. rewrite parseDate_components.
    destruct (dateComponents v) as [[[y m] d]|].
    + destruct ((1 <=? m) && (m <=? 12) && (1 <=? d) && (d <=? 31))%Z.
      * destruct (TimeClip _); [discriminate|].
        intros H; inversion H; auto.
      * intros H; inversion H; auto.
    + destruct (negb (nonEmpty (trim v))); [intros H; inversion H; auto|].
      destruct (split isDateSeparator (trim v)) as [|s1 [|s2 [|s3 [|s4 l]]]];
        intros H; inversion H; auto.
  - repeat split; vm_compute; reflexivity.
Qed.

Lemma C4_parseDate_witness :
  exists t,
    GoogleSheetImportModal.parseDate (Some (str "29/02/2024")) = inr t
    /\ civilFromDays (t / msPerDay) = (2024, 2, 29)%Z
    /\ (t mod msPerDay = 0)%Z
    /\ (Z.abs t <= maxTime)%Z.
Proof.
  destruct (C4_parseDate (str "29/02/2024")) as [A [B _]].
  assert (E : exists t,
            GoogleSheetImportModal.parseDate (Some (str "29/02/2024")) = inr t)
    by (eexists; vm_compute; reflexivity).
  destruct E as [t E]. exists t. split; [exact E|].
  destruct (B t 2024 2 29 E eq_refl eq_refl)%Z as [B1 B2].
  split; [exact B1|]. split; [exact B2|].
  apply A in E. destruct E as [y [m [d [_ [_ [_ [_ L]]]]]]]. exact L.
Defined.

(** C4 as stated fails: 31/02/2024 is not a day of the calendar and is
    accepted; it reads as 2 March 2024. *)
Lemma C4_counterexample :
  dateComponents (str "31/02/2024") = Some (2024, 2, 31)%Z
  /\ realCalendarDate 2024 2 31 = false
  /\ GoogleSheetImportModal.parseDate (Some (str "31/02/2024"))
     = inr 1709337600000%Z
  /\ toISOString 1709337600000 = str "2024-03-02T00:00:00.000Z".
Proof. repeat split; vm_compute; reflexivity. Qed.

(** ** Quick-add *)

Lemma charAt_middle : forall pre c r, charAt (pre ++ c :: r) (length pre) = c.
Proof. intros. unfold charAt. apply nth_middle. Qed.

Lemma charAt_after : forall pre c r k,
  charAt (pre ++ c :: r) (length pre + S k) = nth k r " "%char.
Proof.
  intros pre c r k. unfold charAt.
  rewrite app_nth2 by lia.
  replace (length pre + S k - length pre)%nat with (S k) by lia.
  reflexivity.
Qed.

Lemma threeDigitsAhead_nth : forall r,
  threeDigitsAhead r
  = isDigit (nth 0 r " "%char) && isDigit (nth 1 r " "%char)
    && isDigit (nth 2 r " "%char).
Proof.
  intros [|a [|b [|c r]]]; simpl; try reflexivity.
  - now rewrite andb_false_r.
  - now rewrite andb_false_r.
Qed.

Lemma stripGrouping_positions : forall s pre,
  stripGrouping (match rev pre with c :: _ => Some c | [] => None end) s
  = dropGroupingCommas (pre ++ s) (length pre) s.
Proof.
  induction s as [|c r IH]; intros pre.
  - reflexivity.
  - cbn [stripGrouping dropGroupingCommas].
    assert (E : eqc c ","
                && match match rev pre with x :: _ => Some x | [] => None end with
                   | Some p => isDigit p
                   | None => false
                   end
                && threeDigitsAhead r
                = groupingComma (pre ++ c :: r) (length pre)).
    { unfold groupingComma.
      rewrite charAt_middle.
      replace (length pre + 1)%nat with (length pre + S 0)%nat by lia.
      replace (length pre + 2)%nat with (length pre + S 1)%nat by lia.
      replace (length pre + 3)%nat with (length pre + S 2)%nat by lia.
      rewrite !charAt_after, threeDigitsAhead_nth, !andb_assoc.
      f_equal. f_equal. f_equal. f_equal.
      destruct pre as [|x pre'] using rev_ind.
      - reflexivity.
      - rewrite rev_app_distr, length_app. simpl.
        replace (length pre' + 1)%nat with (S (length pre')) by lia.
        rewrite <- app_assoc. simpl. now rewrite charAt_middle. }
    rewrite E.
    specialize (IH (pre ++ [c])).
    rewrite rev_app_distr, <- app_assoc, length_app in IH. simpl in IH.
    replace (length pre + 1)%nat with (S (length pre)) in IH by lia.
    now rewrite IH.
Qed.

Lemma split_commaFree : forall f, commaFree f -> split TradeModal.isComma f = [f].
Proof.
  unfold commaFree. induction f as [|c f IH]; simpl; intros H.
  - reflexivity.
  - apply andb_prop in H. destruct H as [H1 H2].
    apply negb_true_iff in H1. rewrite H1, (IH H2). reflexivity.
Qed.

Lemma split_field : forall f rest,
  commaFree f ->
  split TradeModal.isComma (f ++ ","%char :: rest) = f :: split TradeModal.isComma rest.
Proof.
  unfold commaFree. induction f as [|c f IH]; simpl; intros rest H.
  - reflexivity.
  - apply andb_prop in H. destruct H as [H1 H2].
    apply negb_true_iff in H1. rewrite H1, (IH rest H2). reflexivity.
Qed.

(** Splitting what was joined gives the fields back. *)
Lemma split_join : forall fs,
  fs <> [] -> Forall commaFree fs ->
  split TradeModal.isComma (join (str ",") fs) = fs.
Proof.
  induction fs as [|f fs IH]; intros N H; [contradiction|].
  inversion H as [|x r Hf Hr]; subst.
  destruct fs as [|g fs].
  - simpl. now apply split_commaFree.
  - change (join (str ",") (f :: g :: fs))
      with (f ++ ","%char :: join (str ",") (g :: fs)).
    rewrite (@split_field f _ Hf), IH; [reflexivity|discriminate|assumption].
Qed.

Lemma join_cons : forall c h t,
  join (str ",") ((c :: h) :: t) = c :: join (str ",") (h :: t).
Proof. intros c h [|g t]; reflexivity. Qed.

(** Joining what was split gives the text back, and no part has a
    comma. *)
Lemma join_split : forall s,
  join (str ",") (split TradeModal.isComma s) = s.
Proof.
  induction s as [|c s IH].
  - reflexivity.
  - cbn [split]. destruct (split_cons TradeModal.isComma s) as [h [t E]].
    rewrite E in *.
    destruct (TradeModal.isComma c) eqn:C.
    + apply Ascii.eqb_eq in C. subst c.
      change (join (str ",") ([] :: h :: t))
        with (","%char :: join (str ",") (h :: t)).
      now rewrite IH.
    + rewrite join_cons. f_equal. exact IH.
Qed.

Lemma split_commaFree_parts : forall s,
  Forall commaFree (split TradeModal.isComma s).
Proof.
  intros s. apply Forall_forall. intros p H.
  exact (split_parts TradeModal.isComma s p H).
Qed.

Lemma startsWith_spec : forall p s,
  startsWith p s = true <-> exists b, s = p ++ b.
Proof.
  induction p as [|a p IH]; intros s; simpl.
  - split; [intros _; now exists s|reflexivity].
  - destruct s as [|b s].
    + split; [discriminate|]. intros [x H]. discriminate.
    + split.
      * intros H. apply andb_prop in H. destruct H as [H1 H2].
        apply Ascii.eqb_eq in H1. subst.
        apply IH in H2. destruct H2 as [x ->]. now exists x.
      * intros [x H]. inversion H; subst.
        unfold eqc. rewrite Ascii.eqb_refl. simpl. apply IH. now exists x.
Qed.

Lemma includes_spec : forall s sub,
  includes s sub = true <-> exists a b, s = a ++ sub ++ b.
Proof.
  induction s as [|c s IH]; intros sub.
  - simpl. rewrite orb_false_r. rewrite startsWith_spec. split.
    + intros [b H]. exists [], b. exact H.
    + intros [a [b H]]. destruct a; [now exists b|discriminate].
  - cbn [includes]. split.
    + intros H. apply orb_prop in H. destruct H as [H|H].
      * apply startsWith_spec in H. destruct H as [b H]. exists [], b. exact H.
      * apply IH in H. destruct H as [a [b H]]. exists (c :: a), b.
        simpl. now rewrite H.
    + intros [a [b H]]. apply orb_true_intro.
      destruct a as [|x a].
      * left. apply startsWith_spec. now exists b.
      * right. apply IH. inversion H. now exists a, b.
Qed.

(** The direction is long exactly when the token contains "long", case
    ignored. *)
Lemma directionOf_long : forall tok,
  directionOf tok = Long <-> containsIgnoringCase tok (str "long").
Proof.
  intros tok. unfold directionOf, containsIgnoringCase.
  destruct (includes (toLowerCase tok) (str "long")) eqn:E.
  - split; [intros _|reflexivity].
    apply includes_spec in E. destruct E as [a [b E]].
    unfold toLowerCase in E.
    apply map_eq_app in E. destruct E as [a' [r [-> [Ha E]]]].
    apply map_eq_app in E. destruct E as [m [b' [-> [Hm Hb]]]].
    now exists a', m, b'.
  - split; [discriminate|].
    intros [a [m [b [-> H]]]].
    assert (I : includes (toLowerCase (a ++ m ++ b)) (str "long") = true).
    { apply includes_spec. exists (toLowerCase a), (toLowerCase b).
      unfold toLowerCase in *. now rewrite !map_app, H. }
    congruence.
Qed.

Lemma parsePastedData_short : forall Date_parse text,
  (length (split TradeModal.isComma (stripGrouping None text)) < 8)%nat ->
  parsePastedData Date_parse text = None.
Proof.
  intros dp text H. unfold parsePastedData.
  apply Nat.ltb_lt in H. now rewrite H.
Qed.

Lemma parsePastedData_fields :
  forall Date_parse text f0 f1 f2 f3 f4 f5 f6 f7 f8 js,
  Forall commaFree (f0 :: f1 :: f2 :: f3 :: f4 :: f5 :: f6 :: f7 :: f8 :: js) ->
  stripGrouping None text
  = join (str ",") (f0 :: f1 :: f2 :: f3 :: f4 :: f5 :: f6 :: f7 :: f8 :: js) ->
  parsePastedData Date_parse text
  = match Date_parse (trim f0) with
    | None => None
    | Some t =>
        Some (mkPastedData (isoDate t) (trim f1) (directionOf (trim f2)) (trim f3)
                (TradeModal.parseNumericValue (Some (trim f4)))
                (TradeModal.parseNumericValue (Some (trim f5)))
                (TradeModal.parseNumericValue (Some (trim f6)))
                (TradeModal.parseNumericValue (Some (trim f7)))
                (TradeModal.parseNumericValue (Some (trim f8)))
                (match js with [] => [] | _ => trim (join (str ",") js) end))
    end.
Proof.
  intros dp text f0 f1 f2 f3 f4 f5 f6 f7 f8 js H E.
  unfold parsePastedData. rewrite E, split_join by (assumption || discriminate).
  cbn [length Nat.ltb Nat.leb firstn skipn map nth_error].
  destruct (dp (trim f0)) as [t|]; [|reflexivity].
  destruct js; reflexivity.
Qed.

Lemma parsePastedData_eight :
  forall Date_parse text f0 f1 f2 f3 f4 f5 f6 f7,
  Forall commaFree [f0; f1; f2; f3; f4; f5; f6; f7] ->
  stripGrouping None text = join (str ",") [f0; f1; f2; f3; f4; f5; f6; f7] ->
  parsePastedData Date_parse text
  = match Date_parse (trim f0) with
    | None => None
    | Some t =>
        Some (mkPastedData (isoDate t) (trim f1) (directionOf (trim f2)) (trim f3)
                (TradeModal.parseNumericValue (Some (trim f4)))
                (TradeModal.parseNumericValue (Some (trim f5)))
                (TradeModal.parseNumericValue (Some (trim f6)))
                (TradeModal.parseNumericValue (Some (trim f7)))
                None [])
    end.
Proof.
  intros dp text f0 f1 f2 f3 f4 f5 f6 f7 H E.
  unfold parsePastedData. rewrite E, split_join by (assumption || discriminate).
  cbn [length Nat.ltb Nat.leb firstn skipn map nth_error].
  destruct (dp (trim f0)) as [t|]; reflexivity.
Qed.

(** C8, as the code has it.  Quick-add first removes every comma that has
    a digit before it and at least three digits after it, then splits the
    line on commas: the parts have no comma and, joined by commas, give the
    line back.  With fewer than 8 parts, or when the first part is not a
    date, no candidate is produced.  Otherwise the parts map in
    order to date (as YYYY-MM-DD), asset, direction, leverage, entry price,
    exit price, stop loss, take profit and size, each trimmed, the parts
    after the ninth joined by commas are the journal, and the direction
    is long exactly when its token contains "long", case ignored. *)
Theorem C8_quick_add : forall (Date_parse : jsstring -> option Z)
    (text : jsstring),
  stripGrouping None text = dropGroupingCommas text 0 text
  /\ join (str ",") (split TradeModal.isComma (stripGrouping None text))
     = stripGrouping None text
  /\ Forall commaFree (split TradeModal.isComma (stripGrouping None text))
  /\ ((length (split TradeModal.isComma (stripGrouping None text)) < 8)%nat ->
      parsePastedData Date_parse text = None)
  /\ (forall f0 f1 f2 f3 f4 f5 f6 f7 f8 js,
        Forall commaFree
          (f0 :: f1 :: f2 :: f3 :: f4 :: f5 :: f6 :: f7 :: f8 :: js) ->
        stripGrouping None text
        = join (str ",")
            (f0 :: f1 :: f2 :: f3 :: f4 :: f5 :: f6 :: f7 :: f8 :: js) ->
        parsePastedData Date_parse text
        = match Date_parse (trim f0) with
          | None => None
          | Some t =>
              Some (mkPastedData (isoDate t) (trim f1) (directionOf (trim f2))
                      (trim f3)
                      (TradeModal.parseNumericValue (Some (trim f4)))
                      (TradeModal.parseNumericValue (Some (trim f5)))
                      (TradeModal.parseNumericValue (Some (trim f6)))
                      (TradeModal.parseNumericValue (Some (trim f7)))
                      (TradeModal.parseNumericValue (Some (trim f8)))
                      (match js with
                       | [] => []
                       | _ => trim (join (str ",") js)
                       end))
          end)
  /\ (forall f0 f1 f2 f3 f4 f5 f6 f7,
        Forall commaFree [f0; f1; f2; f3; f4; f5; f6; f7] ->
        stripGrouping None text
        = join (str ",") [f0; f1; f2; f3; f4; f5; f6; f7] ->
        parsePastedData Date_parse text
        = match Date_parse (trim f0) with
          | None => None
          | Some t =>
              Some (mkPastedData (isoDate t) (trim f1) (directionOf (trim f2))
                      (trim f3)
                      (TradeModal.parseNumericValue (Some (trim f4)))
                      (TradeModal.parseNumericValue (Some (trim f5)))
                      (TradeModal.parseNumericValue (Some (trim f6)))
                      (TradeModal.parseNumericValue (Some (trim f7)))
                      None [])
          end)
  /\ (forall tok,
        directionOf tok = Long <-> containsIgnoringCase tok (str "long")).
Proof.
  intros dp text. split; [|split; [|split; [|split; [|split; [|split]]]]].
  - exact (stripGrouping_positions text []).
  - apply join_split.
  - apply split_commaFree_parts.
  - apply parsePastedData_short.
  - intros. now apply parsePastedData_fields.
  - intros. now apply parsePastedData_eight.
  - apply directionOf_long.
Qed.

Lemma C8_quick_add_witness :
  exists data,
    parsePastedData parseISO quickAddLine = Some data
    /\ p_date data = str "2024-01-01"
    /\ p_asset data = str "BTC/USDT"
    /\ p_direction data = Long
    /\ p_leverage data = str "10x"
    /\ p_journal data = str "breakout, retest".
Proof.
  destruct (C8_quick_add parseISO quickAddLine) as [_ [_ [_ [_ [H _]]]]].
  specialize (H (str "2024-01-01") (str " BTC/USDT") (str " long") (str " 10x")
                (str " 100.5") (str " 110") (str " 95") (str " 120")
                (str " 1.5") [str " breakout"; str " retest"]).
  eexists. split.
  - rewrite H.
    + vm_compute. reflexivity.
    + repeat constructor.
    + vm_compute. reflexivity.
  - repeat split.
Defined.

(** C8 as stated fails: a comma followed by four digits is removed too.
    In this line the rule of exactly three digits leaves the entry price 1
    and the exit price 2345; the code reads the entry price 12345 and
    takes the next part as exit price.  And a line of nine parts whose
    date part is empty gives no candidate. *)
Lemma C8_counterexample :
  stripGroupingExact None quickAddFourDigits = quickAddFourDigits
  /\ nth 4 (split TradeModal.isComma (stripGroupingExact None quickAddFourDigits)) []
     = str "1"
  /\ nth 5 (split TradeModal.isComma (stripGroupingExact None quickAddFourDigits)) []
     = str "2345"
  /\ stripGrouping None quickAddFourDigits
     = str "2024-01-01,BTC,Long,10x,12345,0,50,60,1,note"
  /\ (exists data,
        parsePastedData parseISO quickAddFourDigits = Some data
        /\ p_entryPrice data = Some 12345
        /\ p_exitPrice data = Some 0)
  /\ length (split TradeModal.isComma (stripGrouping None quickAddNoDate)) = 9%nat
  /\ parsePastedData parseISO quickAddNoDate = None.
Proof.
  repeat split; try (vm_compute; reflexivity).
  eexists. split; [vm_compute; reflexivity|]. split; reflexivity.
Qed.

(** ** The backup *)

Lemma withDate_date : forall t, withDate t (date t) = t.
Proof. intros []; reflexivity. Qed.

Lemma parseDates_backup : forall (Date_parse : jsstring -> option Z) l,
  (forall t, In t l -> Date_parse (toISOString (date t)) = Some (date t)) ->
  parseDates Date_parse (map (fun t => mkBackupTrade (toISOString (date t)) t) l)
  = Some l.
Proof.
  intros dp l. induction l as [|t l IH]; intros H; simpl.
  - reflexivity.
  - rewrite (H t (or_introl eq_refl)), IH by (intros; apply H; now right).
    now rewrite withDate_date.
Qed.

Lemma sameButId_withId : forall t u n,
  sameButId t u -> withId t n = withId u n.
Proof.
  intros t u n H. unfold sameButId in H.
  change (withId t n) with (withId (withId t 0) n). rewrite H. reflexivity.
Qed.

Lemma sameButId_date : forall t u, sameButId t u -> date t = date u.
Proof.
  intros t u H. unfold sameButId in H.
  change (date t) with (date (withId t 0)). now rewrite H.
Qed.

Lemma sortInsert_sameButId : forall x y l1 l2,
  sameButId x y -> Forall2 sameButId l1 l2 ->
  Forall2 sameButId (sortInsert byDate x l1) (sortInsert byDate y l2).
Proof.
  intros x y l1 l2 Hxy H. induction H as [|a b l1 l2 Hab H IH]; simpl.
  - repeat constructor. assumption.
  - unfold byDate. rewrite (sameButId_date x y Hxy), (sameButId_date a b Hab).
    destruct (date y - date b <=? 0)%Z; repeat constructor; assumption.
Qed.

Lemma sort_sameButId : forall l1 l2,
  Forall2 sameButId l1 l2 ->
  Forall2 sameButId (sort byDate l1) (sort byDate l2).
Proof.
  intros l1 l2 H. induction H as [|a b l1 l2 Hab H IH]; simpl.
  - constructor.
  - now apply sortInsert_sameButId.
Qed.

Lemma mapi_withId_sameButId : forall l1 l2 i,
  Forall2 sameButId l1 l2 ->
  mapi_from (fun t index => withId t (index + 1)) i l1
  = mapi_from (fun t index => withId t (index + 1)) i l2.
Proof.
  intros l1 l2 i H. revert i. induction H as [|a b l1 l2 Hab H IH]; intros i; simpl.
  - reflexivity.
  - now rewrite (sameButId_withId a b _ Hab), IH.
Qed.

Lemma mapi_withId_related : forall l i,
  Forall2 sameButId (mapi_from (fun t index => withId t (index + 1)) i l) l.
Proof.
  induction l as [|t l IH]; intros i; simpl; constructor.
  - reflexivity.
  - apply IH.
Qed.

Lemma sortInsert_Permutation : forall (cmp : Trade -> Trade -> Z) x l,
  Permutation (sortInsert cmp x l) (x :: l).
Proof.
  intros cmp x l. induction l as [|y l IH]; simpl.
  - apply Permutation_refl.
  - destruct (cmp x y <=? 0)%Z.
    + apply Permutation_refl.
    + eapply Permutation_trans; [apply perm_skip, IH|apply perm_swap].
Qed.

Lemma sort_Permutation : forall (cmp : Trade -> Trade -> Z) l,
  Permutation (sort cmp l) l.
Proof.
  intros cmp l. induction l as [|x l IH]; simpl.
  - constructor.
  - eapply Permutation_trans; [apply sortInsert_Permutation|].
    now apply perm_skip.
Qed.

Lemma map_withId_mapi : forall l i,
  map (fun t => withId t 0)
    (mapi_from (fun t index => withId t (index + 1)) i l)
  = map (fun t => withId t 0) l.
Proof.
  induction l as [|t l IH]; intros i; simpl; [reflexivity|].
  now rewrite IH.
Qed.

Lemma resequence_sameUpToIds : forall l, sameUpToIds (resequence l) l.
Proof.
  intros l. unfold sameUpToIds, resequence, renumber, mapi.
  rewrite map_withId_mapi. apply Permutation_map, sort_Permutation.
Qed.

(** What a restore makes of a backup of the state [s]. *)
Lemma restore_backup : forall (Date_parse : jsstring -> option Z) now s,
  (forall t, In t (trades s) ->
     Date_parse (toISOString (date t)) = Some (date t)) ->
  handleRestore Date_parse (SyncModal.handleCreateBackup now s)
  = Restored (mkAppState (resequence (trades s)) (initialCapital s)
                (strategies s) (orNull (activeStrategyId s))).
Proof.
  intros dp now s H. unfold handleRestore, SyncModal.handleCreateBackup.
  cbn [d_trades d_initialCapital d_strategies d_timestamp d_activeStrategyId].
  rewrite (parseDates_backup dp _ H).
  assert (E : renumber
                (sort byDate (mapi (fun t index => withId t (index + 1)) (trades s)))
              = resequence (trades s)).
  { unfold resequence, renumber, mapi.
    apply mapi_withId_sameButId, sort_sameButId, mapi_withId_related. }
  rewrite E. reflexivity.
Qed.

(** ** The text of a date *)

Lemma code_ascii_of_N : forall n, (n < 256)%N -> code (ascii_of_N n) = n.
Proof. intros n H. unfold code. apply N_ascii_embedding. exact H. Qed.

Lemma digitChar_code : forall n, code (digitChar n) = Z.to_N (48 + n mod 10).
Proof.
  intros n. unfold digitChar. apply code_ascii_of_N.
  pose proof (Z.mod_pos_bound n 10). lia.
Qed.

Lemma isDigit_digitChar : forall n, isDigit (digitChar n) = true.
Proof.
  intros n. unfold isDigit. rewrite digitChar_code.
  pose proof (Z.mod_pos_bound n 10).
  apply andb_true_intro. split; apply N.leb_le; lia.
Qed.

Lemma digitVal_digitChar : forall n, digitVal (digitChar n) = (n mod 10)%Z.
Proof.
  intros n. unfold digitVal. rewrite digitChar_code.
  pose proof (Z.mod_pos_bound n 10). lia.
Qed.

Lemma length_pad : forall w n, length (pad w n) = w.
Proof.
  induction w as [|w IH]; intros n; simpl; [reflexivity|].
  rewrite length_app, IH. simpl. lia.
Qed.

Lemma digits_pad : forall w n, forallb isDigit (pad w n) = true.
Proof.
  induction w as [|w IH]; intros n; simpl; [reflexivity|].
  rewrite forallb_app, IH. simpl. now rewrite isDigit_digitChar.
Qed.

Lemma digitsVal_snoc : forall a c,
  digitsVal (a ++ [c]) = (10 * digitsVal a + digitVal c)%Z.
Proof. intros a c. unfold digitsVal. now rewrite fold_left_app. Qed.

Lemma digitsVal_pad : forall w n,
  digitsVal (pad w n) = (n mod 10 ^ Z.of_nat w)%Z.
Proof.
  induction w as [|w IH]; intros n.
  - simpl. now rewrite Z.mod_1_r.
  - cbn [pad]. rewrite digitsVal_snoc, IH, digitVal_digitChar.
    replace (Z.of_nat (S w)) with (1 + Z.of_nat w)%Z by lia.
    rewrite Z.pow_add_r by lia. change (10 ^ 1)%Z with 10%Z.
    rewrite Z.rem_mul_r by (try apply Z.pow_pos_nonneg; lia). lia.
Qed.

Lemma readDigits_pad : forall w n rest,
  (0 <= n < 10 ^ Z.of_nat w)%Z ->
  readDigits w (pad w n ++ rest) = Some (n, rest).
Proof.
  intros w n rest H. unfold readDigits.
  assert (F : firstn w (pad w n ++ rest) = pad w n).
  { rewrite firstn_app, length_pad, Nat.sub_diag.
    rewrite firstn_all2 by (rewrite length_pad; lia).
    simpl. apply app_nil_r. }
  assert (S : skipn w (pad w n ++ rest) = rest).
  { rewrite skipn_app, length_pad, Nat.sub_diag.
    rewrite skipn_all2 by (rewrite length_pad; lia). reflexivity. }
  rewrite F, S, length_pad, Nat.eqb_refl, digits_pad. simpl.
  now rewrite digitsVal_pad, Z.mod_small by lia.
Qed.

Lemma expect_here : forall c r, expect c (c :: r) = Some r.
Proof. intros c r. simpl. unfold eqc. now rewrite Ascii.eqb_refl. Qed.

(** Every day number is the day number of its civil date, which is a day
    of the calendar. *)
Lemma civilDays_ok : forallb civilDayOk (rangeZ 0 146097) = true.
Proof. vm_cast_no_check (eq_refl true). Qed.

Lemma days_window : forall z,
  (0 <= z < 146097)%Z ->
  match civilFromDays z with
  | (y, m, d) => realCalendarDate y m d = true /\ daysFromCivil y m d = z
  end.
Proof.
  intros z H. pose proof civilDays_ok as C. rewrite forallb_forall in C.
  specialize (C z (rangeZ_In 0 146097 z ltac:(lia))).
  unfold civilDayOk in C.
  destruct (civilFromDays z) as [[y m] d].
  apply andb_prop in C. destruct C as [C1 C2].
  apply Z.eqb_eq in C2. auto.
Qed.

Lemma days_round_trip : forall z,
  match civilFromDays z with
  | (y, m, d) => realCalendarDate y m d = true /\ daysFromCivil y m d = z
  end.
Proof.
  intros z.
  set (k := (z / 146097)%Z). set (z0 := (z mod 146097)%Z).
  assert (E : z = (z0 + 146097 * k)%Z).
  { unfold z0, k. pose proof (Z.div_mod z 146097). lia. }
  assert (B : (0 <= z0 < 146097)%Z).
  { unfold z0. apply Z.mod_pos_bound. lia. }
  clearbody z0 k. subst z.
  rewrite civilFromDays_shift.
  pose proof (days_window z0 B) as W.
  destruct (civilFromDays z0) as [[y m] d]. destruct W as [R D].
  split.
  - unfold realCalendarDate in *. now rewrite daysInMonth_shift.
  - now rewrite daysFromCivil_shift, D.
Qed.

Lemma timeOfDay : forall ms,
  (0 <= ms < 86400000 ->
   0 <= ms / 3600000 <= 23 /\ 0 <= ms / 60000 mod 60 <= 59
   /\ 0 <= ms / 1000 mod 60 <= 59 /\ 0 <= ms mod 1000 <= 999
   /\ ((ms / 3600000 * 60 + ms / 60000 mod 60) * 60 + ms / 1000 mod 60) * 1000
      + ms mod 1000 = ms)%Z.
Proof.
  intros ms H. Z.div_mod_to_equations. lia.
Qed.

Lemma year_bound : forall y m d,
  realCalendarDate y m d = true ->
  (Z.abs (daysFromCivil y m d) <= 100000000)%Z ->
  (-1000000 < y < 1000000)%Z.
Proof.
  intros y m d R B. unfold realCalendarDate in R.
  apply andb_prop in R. destruct R as [R Hd].
  apply andb_prop in R. destruct R as [R Hd1].
  apply andb_prop in R. destruct R as [Hm1 Hm12].
  apply Z.leb_le in Hm1, Hm12, Hd1, Hd.
  pose proof (daysInMonth_le_31 y m).
  unfold daysFromCivil in B.
  destruct (m <=? 2)%Z eqn:E1; destruct (2 <? m)%Z eqn:E2;
    Z.div_mod_to_equations; lia.
Qed.

Lemma readDigits_pad2 : forall n rest,
  (0 <= n <= 99)%Z -> readDigits 2 (pad 2 n ++ rest) = Some (n, rest).
Proof. intros. apply readDigits_pad. change (10 ^ Z.of_nat 2)%Z with 100%Z. lia. Qed.

Lemma readDigits_pad3 : forall n rest,
  (0 <= n <= 999)%Z -> readDigits 3 (pad 3 n ++ rest) = Some (n, rest).
Proof. intros. apply readDigits_pad. change (10 ^ Z.of_nat 3)%Z with 1000%Z. lia. Qed.

Lemma readDigits_pad4 : forall n rest,
  (0 <= n <= 9999)%Z -> readDigits 4 (pad 4 n ++ rest) = Some (n, rest).
Proof. intros. apply readDigits_pad. change (10 ^ Z.of_nat 4)%Z with 10000%Z. lia. Qed.

Lemma readDigits_pad6 : forall n rest,
  (0 <= n <= 999999)%Z -> readDigits 6 (pad 6 n ++ rest) = Some (n, rest).
Proof. intros. apply readDigits_pad. change (10 ^ Z.of_nat 6)%Z with 1000000%Z. lia. Qed.

(** The year as [toISOString] writes it. *)
Lemma pad4_head : forall y rest,
  exists c p, pad 4 y ++ rest = c :: p /\ isDigit c = true.
Proof.
  intros y rest. pose proof (digits_pad 4 y) as D.
  pose proof (length_pad 4 y) as L.
  destruct (pad 4 y) as [|c p]; [discriminate L|].
  simpl in D. apply andb_prop in D. destruct D as [D _].
  exists c, (p ++ rest). auto.
Qed.

Lemma isoYear_four : forall y rest,
  (0 <= y <= 9999)%Z -> isoYear (pad 4 y ++ rest) = Some (y, rest).
Proof.
  intros y rest H. destruct (pad4_head y rest) as [c [p [E D]]].
  unfold isoYear. rewrite E.
  destruct (digit_classes c D) as [_ [_ [_ [_ [M P]]]]].
  rewrite P, M, <- E. now apply readDigits_pad4.
Qed.

Lemma isoYear_plus : forall y rest,
  (0 <= y <= 999999)%Z ->
  isoYear ("+"%char :: pad 6 y ++ rest) = Some (y, rest).
Proof.
  intros y rest H. unfold isoYear.
  change (eqc "+" "+") with true. cbv iota. now apply readDigits_pad6.
Qed.

Lemma isoYear_minus : forall y rest,
  (0 <= y <= 999999)%Z ->
  isoYear ("-"%char :: pad 6 y ++ rest) = Some ((- y)%Z, rest).
Proof.
  intros y rest H. unfold isoYear.
  change (eqc "-" "+") with false. change (eqc "-" "-") with true. cbv iota.
  now rewrite readDigits_pad6.
Qed.

Lemma isoTime_pad : forall h mi sec ms,
  (0 <= h <= 23)%Z -> (0 <= mi <= 59)%Z -> (0 <= sec <= 59)%Z ->
  (0 <= ms <= 999)%Z ->
  isoTime ("T"%char :: pad 2 h ++ ":"%char :: pad 2 mi ++ ":"%char :: pad 2 sec
           ++ "."%char :: pad 3 ms ++ ["Z"%char])
  = Some (((h * 60 + mi) * 60 + sec) * 1000 + ms)%Z.
Proof.
  intros h mi sec ms Hh Hmi Hs Hms. unfold isoTime.
  rewrite expect_here. cbn [bind].
  rewrite readDigits_pad2 by lia. cbn [bind].
  rewrite expect_here. cbn [bind].
  rewrite readDigits_pad2 by lia. cbn [bind].
  rewrite expect_here. cbn [bind].
  rewrite readDigits_pad2 by lia. cbn [bind].
  rewrite expect_here. cbn [bind].
  rewrite readDigits_pad3 by lia. cbn [bind].
  rewrite expect_here. cbn [bind].
  assert (E : ((h <=? 23) && (mi <=? 59) && (sec <=? 59))%Z = true).
  { repeat (apply andb_true_intro; split); apply Z.leb_le; lia. }
  now rewrite E.
Qed.

(** [parseISO] on a year as written, a day of the calendar and a time. *)
Lemma parseISO_fields : forall yearStr y m d h mi sec ms,
  (forall rest, isoYear (yearStr ++ rest) = Some (y, rest)) ->
  realCalendarDate y m d = true ->
  (0 <= h <= 23)%Z -> (0 <= mi <= 59)%Z -> (0 <= sec <= 59)%Z ->
  (0 <= ms <= 999)%Z ->
  parseISO (yearStr ++ "-"%char :: pad 2 m ++ "-"%char :: pad 2 d
            ++ "T"%char :: pad 2 h ++ ":"%char :: pad 2 mi ++ ":"%char
            :: pad 2 sec ++ "."%char :: pad 3 ms ++ ["Z"%char])
  = TimeClip (daysFromCivil y m d * msPerDay
              + (((h * 60 + mi) * 60 + sec) * 1000 + ms)).
Proof.
  intros yearStr y m d h mi sec ms Hy R Hh Hmi Hs Hms.
  pose proof R as R'. unfold realCalendarDate in R'.
  apply andb_prop in R'. destruct R' as [R' Hd].
  apply andb_prop in R'. destruct R' as [R' Hd1].
  apply andb_prop in R'. destruct R' as [Hm1 Hm12].
  apply Z.leb_le in Hm1, Hm12, Hd1, Hd.
  pose proof (daysInMonth_le_31 y m) as D31.
  unfold parseISO. rewrite Hy. cbn [bind].
  rewrite expect_here. cbn [bind].
  rewrite readDigits_pad2 by lia. cbn [bind].
  rewrite expect_here. cbn [bind].
  rewrite readDigits_pad2 by lia. cbn [bind].
  unfold realCalendarDate in R. rewrite R. cbn [negb].
  rewrite isoTime_pad by assumption. reflexivity.
Qed.

(** [Date.parse] reads back what [toISOString] writes. *)
Lemma parseISO_toISOString : forall t,
  (Z.abs t <= maxTime)%Z -> parseISO (toISOString t) = Some t.
Proof.
  intros t B. unfold toISOString.
  pose proof (days_round_trip (t / msPerDay)) as C.
  destruct (civilFromDays (t / msPerDay)) as [[y m] d]. destruct C as [R D].
  assert (Hms : (0 <= t mod msPerDay < 86400000)%Z).
  { apply Z.mod_pos_bound. unfold msPerDay. lia. }
  destruct (timeOfDay _ Hms) as [Hh [Hmi [Hs [Hm E]]]].
  assert (Y : (-1000000 < y < 1000000)%Z).
  { apply (year_bound y m d R). rewrite D.
    unfold maxTime, msPerDay in *. Z.div_mod_to_equations. lia. }
  assert (T : TimeClip (daysFromCivil y m d * msPerDay
                + (((t mod msPerDay / 3600000 * 60 + t mod msPerDay / 60000 mod 60) * 60
                    + t mod msPerDay / 1000 mod 60) * 1000
                   + t mod msPerDay mod 1000)) = Some t).
  { apply TimeClip_Some. split; [|assumption].
    rewrite D, E. pose proof (Z.div_mod t msPerDay). unfold msPerDay in *. lia. }
  unfold str. cbn [list_ascii_of_string app].
  rewrite <- T.
  destruct ((0 <=? y) && (y <=? 9999))%Z eqn:Y4.
  - apply andb_prop in Y4. destruct Y4 as [Y1 Y2]. apply Z.leb_le in Y1, Y2.
    apply parseISO_fields; try assumption.
    intros rest. apply isoYear_four. lia.
  - destruct (y <? 0)%Z eqn:N.
    + apply Z.ltb_lt in N.
      change (("-"%char :: pad 6 (Z.abs y)) ++ ?r) with ("-"%char :: pad 6 (Z.abs y) ++ r).
      apply (parseISO_fields ("-"%char :: pad 6 (Z.abs y))); try assumption.
      intros rest. cbn [app]. rewrite isoYear_minus by lia.
      f_equal. f_equal. lia.
    + apply Z.ltb_ge in N.
      apply (parseISO_fields ("+"%char :: pad 6 (Z.abs y))); try assumption.
      intros rest. cbn [app]. rewrite isoYear_plus by lia.
      f_equal. f_equal. lia.
Qed.

(** With [Date.parse] as specified for the Date Time String Format, the
    backup of a ledger whose dates are within the range of [Date] is
    restored. *)
Lemma restore_backup_parseISO : forall now s,
  (forall t, In t (trades s) -> (Z.abs (date t) <= maxTime)%Z) ->
  handleRestore parseISO (SyncModal.handleCreateBackup now s)
  = Restored (mkAppState (resequence (trades s)) (initialCapital s)
                (strategies s) (orNull (activeStrategyId s))).
Proof.
  intros now s H. apply restore_backup.
  intros t Ht. apply parseISO_toISOString, H, Ht.
Qed.

(** C9, as the code has it.  Restoring the backup of a state gives back
    the same trades up to ids, renumbered in date order (the very same
    ledger when the ids were positional), the same capital and the same
    strategies; the active strategy id comes back as it was, except that
    an empty id comes back as null. *)
Theorem C9_backup_round_trip : forall (Date_parse : jsstring -> option Z)
    (now : Z) (s : AppState),
  (forall t, In t (trades s) ->
     Date_parse (toISOString (date t)) = Some (date t)) ->
  exists s',
    handleRestore Date_parse (SyncModal.handleCreateBackup now s) = Restored s'
    /\ trades s' = resequence (trades s)
    /\ sameUpToIds (trades s') (trades s)
    /\ (positional (trades s) -> trades s' = trades s)
    /\ initialCapital s' = initialCapital s
    /\ strategies s' = strategies s
    /\ activeStrategyId s' = orNull (activeStrategyId s)
    /\ (activeStrategyId s <> Some [] -> activeStrategyId s' = activeStrategyId s).
Proof.
  intros dp now s H. eexists. split; [apply restore_backup, H|].
  cbn [trades initialCapital strategies activeStrategyId].
  split; [reflexivity|]. split; [apply resequence_sameUpToIds|].
  split; [intros [P _]; exact P|].
  split; [reflexivity|]. split; [reflexivity|]. split; [reflexivity|].
  intros N. destruct (activeStrategyId s) as [[|c r]|]; try reflexivity.
  now elim N.
Qed.

Lemma C9_backup_round_trip_witness :
  exists s',
    handleRestore parseISO (SyncModal.handleCreateBackup 1706659200123 sampleState)
    = Restored s'
    /\ trades s' = trades sampleState
    /\ initialCapital s' = initialCapital sampleState
    /\ strategies s' = strategies sampleState
    /\ activeStrategyId s' = activeStrategyId sampleState.
Proof.
  destruct (C9_backup_round_trip parseISO 1706659200123 sampleState)
    as [s' [H1 [_ [_ [H4 [H5 [H6 [_ H8]]]]]]]].
  - intros t Ht. vm_compute in Ht.
    destruct Ht as [<-|[<-|[]]]; vm_compute; reflexivity.
  - exists s'. split; [exact H1|]. split.
    + apply H4. split; vm_compute; reflexivity.
    + split; [exact H5|]. split; [exact H6|]. apply H8. discriminate.
Defined.

(** C9 as stated fails: an active strategy id that is the empty string is
    restored as null. *)
Lemma C9_counterexample :
  exists s',
    handleRestore parseISO (SyncModal.handleCreateBackup 1706659200123 emptyIdState)
    = Restored s'
    /\ activeStrategyId emptyIdState = Some []
    /\ activeStrategyId s' = None
    /\ activeStrategyId s' <> activeStrategyId emptyIdState.
Proof.
  eexists. split; [vm_compute; reflexivity|].
  repeat split. discriminate.
Qed.

(** ** The ledger operations on a positional ledger *)

Lemma positional_sortedByDate : forall l, positional l -> sortedByDate l.
Proof.
  intros l [H _]. rewrite <- H.
  apply renumber_sortedByDate, sort_dates_sorted.
Qed.

Lemma ids_tail : forall (t : Trade) l k,
  map id (t :: l) = map Z.of_nat (seq (S k) (length (t :: l))) ->
  id t = Z.of_nat (S k)
  /\ map id l = map Z.of_nat (seq (S (S k)) (length l)).
Proof.
  intros t l k H. cbn [map length seq] in H.
  injection H as H1 H2. split; assumption.
Qed.


Lemma mapi_withId_fixes : forall l n,
  map id l = map Z.of_nat (seq (S n) (length l)) ->
  mapi_from (fun t index => withId t (index + 1)) (Z.of_nat n) l = l.
Proof.
  induction l as [|t l IH]; intros n H.
  - reflexivity.
  - apply ids_tail in H. destruct H as [H1 H2]. cbn [mapi_from].
    replace (Z.of_nat n + 1)%Z with (Z.of_nat (S n)) by lia.
    rewrite (IH (S n) H2). f_equal.
    rewrite <- H1. now destruct t.
Qed.

Lemma renumber_fixes : forall l,
  map id l = map Z.of_nat (seq 1 (length l)) -> renumber l = l.
Proof. intros l H. exact (mapi_withId_fixes l 0 H). Qed.

Lemma sorted_ids_positional : forall l,
  sortedByDate l -> map id l = map Z.of_nat (seq 1 (length l)) ->
  positional l.
Proof.
  intros l Hs Hi. split; [|exact Hi].
  rewrite sort_fixes_sorted by exact Hs. now apply renumber_fixes.
Qed.

Lemma sortedByDate_strong : forall l,
  sortedByDate l -> StronglySorted Z.le (map date l).
Proof.
  intros l H. apply Sorted_StronglySorted; [|exact H].
  intros a b c; lia.
Qed.

Lemma strong_sortedByDate : forall l,
  StronglySorted Z.le (map date l) -> sortedByDate l.
Proof. intros l H. now apply StronglySorted_Sorted. Qed.

Lemma filter_sortedByDate : forall (f : Trade -> bool) l,
  sortedByDate l -> sortedByDate (filter f l).
Proof.
  intros f l H. apply strong_sortedByDate.
  apply sortedByDate_strong in H.
  induction l as [|t l IH]; simpl in *; [constructor|].
  inversion H as [|a b Hs Hall]; subst.
  destruct (f t); simpl.
  - constructor; [now apply IH|].
    rewrite Forall_forall in *. intros x Hx.
    apply in_map_iff in Hx. destruct Hx as [u [<- Hu]].
    apply filter_In in Hu. apply Hall, in_map, Hu.
  - now apply IH.
Qed.

(** In a list whose ids count up from [k + 1], the trades whose id is not
    [i] are all but the one at position [i - k]. *)
Lemma filter_other_ids : forall l k i,
  map id l = map Z.of_nat (seq (S k) (length l)) ->
  filter (fun trade => negb (id trade =? i)%Z) l
  = firstn (Z.to_nat (i - 1 - Z.of_nat k)) l
    ++ skipn (Z.to_nat (i - Z.of_nat k)) l.
Proof.
  induction l as [|t l IH]; intros k i H.
  - now rewrite firstn_nil, skipn_nil.
  - apply ids_tail in H. destruct H as [H1 Hl]. cbn [filter].
    rewrite (IH (S k) i Hl).
    destruct (id t =? i)%Z eqn:E; cbn [negb].
    + apply Z.eqb_eq in E.
      replace (Z.to_nat (i - 1 - Z.of_nat k)) with 0%nat by lia.
      replace (Z.to_nat (i - Z.of_nat k)) with 1%nat by lia.
      replace (Z.to_nat (i - 1 - Z.of_nat (S k))) with 0%nat by lia.
      replace (Z.to_nat (i - Z.of_nat (S k))) with 0%nat by lia.
      reflexivity.
    + apply Z.eqb_neq in E.
      destruct (Z_lt_le_dec i (Z.of_nat (S k))) as [Lt|Ge].
      * replace (Z.to_nat (i - 1 - Z.of_nat k)) with 0%nat by lia.
        replace (Z.to_nat (i - Z.of_nat k)) with 0%nat by lia.
        replace (Z.to_nat (i - 1 - Z.of_nat (S k))) with 0%nat by lia.
        replace (Z.to_nat (i - Z.of_nat (S k))) with 0%nat by lia.
        reflexivity.
      * replace (Z.to_nat (i - 1 - Z.of_nat k))
          with (S (Z.to_nat (i - 1 - Z.of_nat (S k)))) by lia.
        replace (Z.to_nat (i - Z.of_nat k))
          with (S (Z.to_nat (i - Z.of_nat (S k)))) by lia.
        reflexivity.
Qed.



Lemma mapi_from_app : forall (A B : Type) (f : A -> Z -> B) a b i,
  mapi_from f i (a ++ b)
  = mapi_from f i a ++ mapi_from f (i + Z.of_nat (length a)) b.
Proof.
  intros A B f a. induction a as [|x a IH]; intros b i.
  - cbn [app mapi_from length]. f_equal. lia.
  - cbn [app mapi_from length]. rewrite IH. do 3 f_equal. lia.
Qed.

(** Numbering from [j + 1] a list whose ids count up from [k + 1] moves
    every id by [j - k]. *)
Lemma mapi_withId_shift : forall l k j,
  map id l = map Z.of_nat (seq (S k) (length l)) ->
  mapi_from (fun t index => withId t (index + 1)) j l
  = map (fun t => withId t (id t + (j - Z.of_nat k))) l.
Proof.
  induction l as [|t l IH]; intros k j H.
  - reflexivity.
  - apply ids_tail in H. destruct H as [H1 Hl]. cbn [mapi_from map].
    rewrite (IH (S k) (j + 1)%Z Hl). f_equal.
    + f_equal. lia.
    + apply map_ext. intros x. f_equal. lia.
Qed.

Lemma ids_firstn : forall l k m,
  map id l = map Z.of_nat (seq (S k) (length l)) ->
  map id (firstn m l) = map Z.of_nat (seq (S k) (length (firstn m l))).
Proof.
  induction l as [|t l IH]; intros k m H.
  - now rewrite firstn_nil.
  - apply ids_tail in H. destruct H as [H1 Hl].
    destruct m as [|m]; [reflexivity|].
    cbn [firstn map length seq]. f_equal; [exact H1|].
    exact (IH (S k) m Hl).
Qed.

Lemma ids_skipn : forall l k m,
  map id l = map Z.of_nat (seq (S k) (length l)) ->
  map id (skipn m l)
  = map Z.of_nat (seq (S (k + m)) (length (skipn m l))).
Proof.
  induction l as [|t l IH]; intros k m H.
  - now rewrite skipn_nil.
  - destruct m as [|m].
    + cbn [skipn]. now rewrite Nat.add_0_r.
    + apply ids_tail in H. destruct H as [H1 Hl]. cbn [skipn].
      rewrite (IH (S k) m Hl). do 3 f_equal. lia.
Qed.

(** A list sorted by date splits at a date into a prefix and a suffix. *)
Lemma sorted_split_at : forall l d,
  sortedByDate l ->
  let m := length (filter (fun t => (date t <=? d)%Z) l) in
  filter (fun t => (date t <=? d)%Z) l = firstn m l
  /\ filter (fun t => (d <? date t)%Z) l = skipn m l.
Proof.
  intros l d H. apply sortedByDate_strong in H.
  induction l as [|t l IH]; [split; reflexivity|].
  cbn [map] in H. inversion H as [|a b Hs Hall]; subst.
  specialize (IH Hs). cbn zeta in IH. destruct IH as [IH1 IH2].
  cbn zeta. cbn [filter].
  destruct (date t <=? d)%Z eqn:E.
  - apply Z.leb_le in E.
    assert (E' : (d <? date t)%Z = false) by (apply Z.ltb_ge; lia).
    rewrite E'. cbn [length firstn skipn]. split; [now f_equal|exact IH2].
  - apply Z.leb_gt in E.
    assert (E' : (d <? date t)%Z = true) by (apply Z.ltb_lt; lia).
    rewrite E'.
    assert (F : forall x, In x l -> (d < date x)%Z).
    { intros x Hx. rewrite Forall_forall in Hall.
      specialize (Hall (date x) (in_map date l x Hx)). lia. }
    assert (N : filter (fun t0 => (date t0 <=? d)%Z) l = []).
    { clear - F. induction l as [|x l IH]; [reflexivity|]. cbn [filter].
      assert (G : (date x <=? d)%Z = false)
        by (apply Z.leb_gt, F; now left).
      rewrite G. apply IH. intros y Hy. apply F. now right. }
    rewrite N. cbn [length firstn skipn]. split; [reflexivity|]. f_equal.
    clear - F. induction l as [|x l IH]; [reflexivity|]. cbn [filter].
    assert (G : (d <? date x)%Z = true) by (apply Z.ltb_lt, F; now left).
    rewrite G. f_equal. apply IH. intros y Hy. apply F. now right.
Qed.

Lemma sortInsert_least : forall x l,
  sortedByDate l ->
  match l with y :: _ => (date x <= date y)%Z | [] => True end ->
  sortInsert byDate x l = x :: l.
Proof.
  intros x [|y l] _ H; [reflexivity|]. cbn [sortInsert]. unfold byDate.
  destruct (date x - date y <=? 0)%Z eqn:E; [reflexivity|].
  apply Z.leb_gt in E. lia.
Qed.

(** The stable sort puts a trade appended to a sorted ledger after the
    trades dated on or before its date. *)
Lemma sort_snoc : forall l x,
  sortedByDate l ->
  sort byDate (l ++ [x])
  = filter (fun t => (date t <=? date x)%Z) l
    ++ x :: filter (fun t => (date x <? date t)%Z) l.
Proof.
  intros l x H. pose proof (sortedByDate_strong l H) as S.
  induction l as [|t l IH]; [reflexivity|].
  cbn [map] in S. inversion S as [|a b Hs Hall]; subst.
  assert (Hl : sortedByDate l) by now apply strong_sortedByDate.
  cbn [app sort]. rewrite (IH Hl Hs).
  destruct (sorted_split_at l (date x) Hl) as [F1 F2]. cbn zeta in F1, F2.
  assert (G : forall y, In y l -> (date t <= date y)%Z).
  { intros y Hy. rewrite Forall_forall in Hall.
    exact (Hall (date y) (in_map date l y Hy)). }
  cbn [filter].
  destruct (date t <=? date x)%Z eqn:E.
  - apply Z.leb_le in E.
    assert (E' : (date x <? date t)%Z = false) by (apply Z.ltb_ge; lia).
    rewrite E'. cbn [app]. apply sortInsert_least.
    + rewrite <- (IH Hl Hs). apply sort_dates_sorted.
    + destruct (filter (fun t0 => (date t0 <=? date x)%Z) l) as [|y r] eqn:Fy.
      * exact E.
      * cbn [app]. apply G.
        assert (In y (filter (fun t0 => (date t0 <=? date x)%Z) l))
          by (rewrite Fy; now left).
        now apply filter_In in H0.
  - apply Z.leb_gt in E.
    assert (E' : (date x <? date t)%Z = true) by (apply Z.ltb_lt; lia).
    rewrite E'.
    assert (N : filter (fun t0 => (date t0 <=? date x)%Z) l = []).
    { clear - G E. induction l as [|y l IH]; [reflexivity|]. cbn [filter].
      assert (Q : (date y <=? date x)%Z = false).
      { apply Z.leb_gt. specialize (G y (or_introl eq_refl)). lia. }
      rewrite Q. apply IH. intros z Hz. apply G. now right. }
    rewrite N. cbn [app sortInsert]. unfold byDate at 1.
    assert (Q : (date t - date x <=? 0)%Z = false) by (apply Z.leb_gt; lia).
    rewrite Q. f_equal.
    rewrite F2, N. cbn [length skipn]. apply sortInsert_least; [exact Hl|].
    destruct l as [|y r]; [exact I|]. apply G. now left.
Qed.

Lemma insert_position : forall prev n,
  positional prev ->
  let m := length (filter (fun t => (date t <=? date n)%Z) prev) in
  resequence (prev ++ [n])
  = firstn m prev ++ withId n (Z.of_nat m + 1)
    :: map (fun t => withId t (id t + 1)) (skipn m prev).
Proof.
  intros prev n P. pose proof (positional_sortedByDate prev P) as Hs.
  destruct P as [_ Hi]. cbn zeta. unfold resequence.
  rewrite (sort_snoc prev n Hs).
  destruct (sorted_split_at prev (date n) Hs) as [F1 F2]. cbn zeta in F1, F2.
  set (m := length (filter (fun t => (date t <=? date n)%Z) prev)) in *.
  rewrite F1, F2. unfold renumber, mapi.
  rewrite mapi_from_app. cbn [mapi_from].
  assert (Lm : length (firstn m prev) = m).
  { rewrite <- F1. reflexivity. }
  rewrite Lm. f_equal.
  - apply (mapi_withId_fixes (firstn m prev) 0).
    apply (ids_firstn prev 0 m Hi).
  - f_equal.
    rewrite (mapi_withId_shift (skipn m prev) m (0 + Z.of_nat m + 1)%Z
               (ids_skipn prev 0 m Hi)).
    apply map_ext. intros t. f_equal. lia.
Qed.

(** Adding a trade to a positional ledger keeps the ids of the trades
    dated on or before its date, gives the new trade the next id and moves
    the later trades up by one. *)
Theorem insert_keeps_order : forall (trade : TradeInput) (prev : list Trade),
  positional prev ->
  let m := length (filter (fun t => (date t <=? i_date trade)%Z) prev) in
  handleOpenTrade trade prev
  = firstn m prev
    ++ newTrade trade (Z.of_nat m + 1) open (i_pnl trade)
    :: map (fun t => withId t (id t + 1)) (skipn m prev)
  /\ handleAddCompleteTrade trade prev
     = firstn m prev
       ++ newTrade trade (Z.of_nat m + 1) closed (Some (completePnl trade))
       :: map (fun t => withId t (id t + 1)) (skipn m prev).
Proof.
  intros trade prev P. cbn zeta. split.
  - unfold handleOpenTrade.
    exact (insert_position prev
             (newTrade trade (getNextId prev) open (i_pnl trade)) P).
  - unfold handleAddCompleteTrade.
    exact (insert_position prev
             (newTrade trade (getNextId prev) closed
                (Some (completePnl trade))) P).
Qed.

Lemma insert_keeps_order_witness :
  map id (handleOpenTrade (openOn 0) sampleLedger) = [1; 2; 3]%Z
  /\ map status (handleOpenTrade (openOn 0) sampleLedger)
     = [closed; open; closed].
Proof.
  destruct (insert_keeps_order (openOn 0) sampleLedger) as [H _].
  - split; vm_compute; reflexivity.
  - rewrite H. split; vm_compute; reflexivity.
Defined.

(** Deleting the trade numbered [i] from a positional ledger keeps the
    trades before it as they are and moves the later ones down by one;
    an id that no trade has leaves the ledger as it is. *)
Theorem delete_closes_gap : forall (i : Z) (prev : list Trade),
  positional prev ->
  ((1 <= i)%Z ->
   handleConfirmDelete i prev
   = firstn (Z.to_nat (i - 1)) prev
     ++ map (fun t => withId t (id t - 1)) (skipn (Z.to_nat i) prev))
  /\ ((i < 1 \/ Z.of_nat (length prev) < i)%Z ->
      handleConfirmDelete i prev = prev).
Proof.
  intros i prev P. pose proof (positional_sortedByDate prev P) as Hs.
  destruct P as [_ Hi].
  assert (E : handleConfirmDelete i prev
              = renumber (firstn (Z.to_nat (i - 1)) prev
                          ++ skipn (Z.to_nat i) prev)).
  { unfold handleConfirmDelete, resequence.
    rewrite sort_fixes_sorted by now apply filter_sortedByDate.
    rewrite (filter_other_ids prev 0 i Hi). do 3 f_equal; lia. }
  rewrite E. unfold renumber, mapi. rewrite mapi_from_app.
  pose proof (mapi_withId_fixes (firstn (Z.to_nat (i - 1)) prev) 0
                (ids_firstn prev 0 _ Hi)) as F.
  change (Z.of_nat 0) with 0%Z in F. rewrite F. clear F.
  split.
  - intros Hi1. f_equal.
    destruct (Z_le_gt_dec i (Z.of_nat (length prev))) as [Le|Gt].
    + rewrite (mapi_withId_shift (skipn (Z.to_nat i) prev) (Z.to_nat i)
                 _ (ids_skipn prev 0 _ Hi)).
      apply map_ext. intros t. f_equal.
      rewrite length_firstn. lia.
    + rewrite skipn_all2 by lia. reflexivity.
  - intros [Lt|Gt].
    + replace (Z.to_nat (i - 1)) with 0%nat by lia.
      replace (Z.to_nat i) with 0%nat by lia. cbn [firstn skipn app length].
      exact (mapi_withId_fixes prev 0 Hi).
    + rewrite firstn_all2 by lia. rewrite skipn_all2 by lia.
      cbn [mapi_from]. apply app_nil_r.
Qed.

Lemma delete_closes_gap_witness :
  map id (handleConfirmDelete 3 tenTrades) = [1; 2; 3; 4; 5; 6; 7; 8; 9]%Z
  /\ map date (handleConfirmDelete 3 tenTrades)
     = map date (firstn 2 tenTrades ++ skipn 3 tenTrades)
  /\ handleConfirmDelete 11 tenTrades = tenTrades.
Proof.
  destruct (delete_closes_gap 3 tenTrades) as [H _];
    [split; vm_compute; reflexivity|].
  destruct (delete_closes_gap 11 tenTrades) as [_ G];
    [split; vm_compute; reflexivity|].
  split; [|split].
  - rewrite H by lia. vm_compute. reflexivity.
  - rewrite H by lia. vm_compute. reflexivity.
  - apply G. right. vm_compute. reflexivity.
Defined.




Lemma mapi_withStatus : forall l i (st : Status),
  mapi_from (fun t index => withStatus (withId t (index + 1)) st) i l
  = map (fun t => withStatus t st)
      (mapi_from (fun t index => withId t (index + 1)) i l).
Proof.
  induction l as [|t l IH]; intros i st; [reflexivity|].
  cbn [mapi_from map]. now rewrite IH.
Qed.

Lemma length_sortInsert : forall (A : Type) (cmp : A -> A -> Z) x l,
  length (sortInsert cmp x l) = S (length l).
Proof.
  intros A cmp x l. induction l as [|y l IH]; [reflexivity|].
  cbn [sortInsert]. destruct (cmp x y <=? 0)%Z; cbn [length]; congruence.
Qed.

Lemma length_sort : forall (A : Type) (cmp : A -> A -> Z) l,
  length (sort cmp l) = length l.
Proof.
  intros A cmp l. induction l as [|x l IH]; [reflexivity|].
  cbn [sort]. rewrite length_sortInsert. cbn [length]. congruence.
Qed.

(** The import skips the rows that do not parse.  When no row parses the
    ledger is left as it is; otherwise the rows that parse join the
    ledger, which is positional again and whose trades are all closed. *)
Theorem import_keeps_ledger_positional :
  forall (mapping : Mapping) (headers : list jsstring)
         (allRows : list (list jsstring)) (prev : list Trade),
  let imported := keepOk (map (importRow mapping headers) allRows) in
  (imported = [] -> handleImport mapping headers allRows prev = prev)
  /\ (imported <> [] ->
      positional (handleImport mapping headers allRows prev)
      /\ Forall (fun t => status t = closed)
           (handleImport mapping headers allRows prev)
      /\ length (handleImport mapping headers allRows prev)
         = (length prev + length imported)%nat)
  /\ (length imported <= length allRows)%nat.
Proof.
  intros mapping headers allRows prev. cbn zeta.
  unfold handleImport.
  set (imported := keepOk (map (importRow mapping headers) allRows)).
  split; [|split].
  - intros E. rewrite E. reflexivity.
  - intros N. unfold handleImportFromGoogleSheet.
    destruct imported as [|n ns] eqn:E; [now elim N|]. rewrite <- E.
    set (combined := prev ++ map (fun '(t, st) => newTrade t 0 st (i_pnl t))
                               imported).
    unfold mapi. rewrite mapi_withStatus.
    change (mapi_from (fun t index => withId t (index + 1)) 0
              (sort byDate combined)) with (resequence combined).
    pose proof (resequence_positional combined) as P.
    pose proof (positional_sortedByDate _ P) as Hs. destruct P as [_ Hi].
    split; [|split].
    + apply sorted_ids_positional.
      * unfold sortedByDate in *. rewrite map_map.
        erewrite map_ext; [exact Hs|]. reflexivity.
      * rewrite length_map, map_map.
        erewrite map_ext; [exact Hi|]. reflexivity.
    + apply Forall_forall. intros x Hx. apply in_map_iff in Hx.
      destruct Hx as [y [<- _]]. reflexivity.
    + rewrite length_map. unfold resequence, renumber, mapi.
      rewrite length_mapi_from, length_sort. unfold combined.
      now rewrite length_app, length_map.
  - unfold imported. clear. induction allRows as [|r rs IH]; [reflexivity|].
    cbn [map keepOk]. destruct (importRow mapping headers r); cbn [length]; lia.
Qed.

Lemma import_keeps_ledger_positional_witness :
  handleImport sampleMapping sampleHeaders [noExitRow] openLedger = openLedger
  /\ positional
       (handleImport sampleMapping sampleHeaders [noExitRow; sampleRow] openLedger)
  /\ length
       (handleImport sampleMapping sampleHeaders [noExitRow; sampleRow] openLedger)
     = 2%nat.
Proof.
  destruct (import_keeps_ledger_positional sampleMapping sampleHeaders
              [noExitRow] openLedger) as [H _].
  destruct (import_keeps_ledger_positional sampleMapping sampleHeaders
              [noExitRow; sampleRow] openLedger) as [_ [G _]].
  split; [apply H; vm_compute; reflexivity|].
  destruct G as [G1 [_ G3]]; [vm_compute; discriminate|].
  split; [exact G1|]. rewrite G3. vm_compute. reflexivity.
Defined.

(** ** The filter bar *)

Import AppView.

(** When no filter is active the list shows every trade. *)
Theorem inactive_filter_shows_all :
  forall (Date_parse : jsstring -> option Z) (trades : list Trade)
         (filters : FilterState),
  isFilterActive filters = false ->
  filters = resetFilters
  /\ filteredTrades Date_parse trades filters = trades.
Proof.
  intros dp trades [sd ed fa po ti] H. unfold isFilterActive in H.
  cbn [startDate endDate f_asset pnlOutcome tradeId] in H.
  destruct sd; [|discriminate]. destruct ed; [|discriminate].
  destruct fa; [|discriminate]. destruct po; try discriminate.
  destruct ti; [|discriminate].
  split; [reflexivity|].
  unfold filteredTrades. cbn.
  induction trades as [|t l IH]; [reflexivity|]. cbn. now rewrite IH.
Qed.

Lemma inactive_filter_shows_all_witness :
  filteredTrades parseISO sampleLedger resetFilters = sampleLedger.
Proof.
  apply (inactive_filter_shows_all parseISO sampleLedger resetFilters).
  reflexivity.
Defined.

Lemma filter_andb : forall (A : Type) (f g : A -> bool) l,
  filter (fun x => f x && g x) l = filter f (filter g l).
Proof.
  intros A f g l. induction l as [|x l IH]; [reflexivity|]. cbn [filter].
  destruct (g x); cbn [filter].
  - rewrite andb_true_r. destruct (f x); now rewrite IH.
  - now rewrite andb_false_r.
Qed.

(** The date filter compares days of the UTC calendar and includes both
    ends: a trade passes when its day is the day of the start date or
    later and the day of the end date or earlier, whatever the time of day
    of the three dates. *)
Theorem date_filter_whole_days :
  forall (Date_parse : jsstring -> option Z) (trades : list Trade)
         (filters : FilterState) (st en : Z),
  trim (tradeId filters) = [] ->
  startDate filters <> [] -> endDate filters <> [] ->
  Date_parse (startDate filters) = Some st ->
  Date_parse (endDate filters) = Some en ->
  filteredTrades Date_parse trades filters
  = filter (fun t => (st / msPerDay <=? date t / msPerDay)%Z
                     && (date t / msPerDay <=? en / msPerDay)%Z)
      (filteredTrades Date_parse trades
         (mkFilterState [] [] (f_asset filters) (pnlOutcome filters)
            (tradeId filters))).
Proof.
  intros dp trades filters st en Hid Hs He Ds De.
  unfold filteredTrades. cbn [tradeId]. rewrite Hid. cbn [nonEmpty].
  rewrite <- filter_andb. apply filter_ext. intros t.
  unfold passesFilters. cbn [startDate endDate f_asset pnlOutcome].
  rewrite Ds, De.
  destruct (startDate filters) as [|c r]; [now elim Hs|].
  destruct (endDate filters) as [|c' r']; [now elim He|].
  cbn [nonEmpty]. unfold setUTCHours, msPerDay.
  rewrite <- !andb_assoc. f_equal; [|f_equal].
  - destruct (st / 86400000 <=? date t / 86400000)%Z eqn:E;
      [apply Z.leb_le in E|apply Z.leb_gt in E].
    + apply negb_true_iff, Z.ltb_ge. Z.div_mod_to_equations. lia.
    + apply negb_false_iff, Z.ltb_lt. Z.div_mod_to_equations. lia.
  - destruct (date t / 86400000 <=? en / 86400000)%Z eqn:E;
      [apply Z.leb_le in E|apply Z.leb_gt in E].
    + apply negb_true_iff, Z.ltb_ge. Z.div_mod_to_equations. lia.
    + apply negb_false_iff, Z.ltb_lt. Z.div_mod_to_equations. lia.
Qed.

Lemma date_filter_whole_days_witness :
  map id (filteredTrades parseISO tenTrades (dateFilterOf "2024-01-03" "2024-01-05"))
  = [3; 4; 5]%Z.
Proof.
  rewrite (date_filter_whole_days parseISO tenTrades
             (dateFilterOf "2024-01-03" "2024-01-05")
             (day_2024_01_01 + 2 * msPerDay) (day_2024_01_01 + 4 * msPerDay)).
  - vm_compute. reflexivity.
  - vm_compute. reflexivity.
  - discriminate.
  - discriminate.
  - vm_compute. reflexivity.
  - vm_compute. reflexivity.
Defined.

(** In a list whose ids count up from [k + 1], the trades with an id from
    [a] to [b] are a slice of the list. *)
Lemma filter_id_range : forall l k a b,
  map id l = map Z.of_nat (seq (S k) (length l)) ->
  filter (fun t => (a <=? id t)%Z && (id t <=? b)%Z) l
  = skipn (Z.to_nat (a - 1 - Z.of_nat k)) (firstn (Z.to_nat (b - Z.of_nat k)) l).
Proof.
  induction l as [|t l IH]; intros k a b H.
  - now rewrite firstn_nil, skipn_nil.
  - apply ids_tail in H. destruct H as [H1 Hl]. cbn [filter].
    rewrite (IH (S k) a b Hl).
    destruct (Z_le_gt_dec (id t) b) as [Le|Gt].
    + replace (Z.to_nat (b - Z.of_nat k))
        with (S (Z.to_nat (b - Z.of_nat (S k)))) by lia.
      cbn [firstn].
      destruct (Z_le_gt_dec a (id t)) as [La|Ga].
      * replace (a <=? id t)%Z with true by (symmetry; apply Z.leb_le; lia).
        replace (id t <=? b)%Z with true by (symmetry; apply Z.leb_le; lia).
        replace (Z.to_nat (a - 1 - Z.of_nat k)) with 0%nat by lia.
        replace (Z.to_nat (a - 1 - Z.of_nat (S k))) with 0%nat by lia.
        reflexivity.
      * replace (a <=? id t)%Z with false by (symmetry; apply Z.leb_gt; lia).
        replace (Z.to_nat (a - 1 - Z.of_nat k))
          with (S (Z.to_nat (a - 1 - Z.of_nat (S k)))) by lia.
        reflexivity.
    + replace (id t <=? b)%Z with false by (symmetry; apply Z.leb_gt; lia).
      rewrite andb_false_r.
      replace (Z.to_nat (b - Z.of_nat k)) with 0%nat by lia.
      replace (Z.to_nat (b - Z.of_nat (S k))) with 0%nat by lia.
      cbn [firstn]. now rewrite !skipn_nil.
Qed.

(** On a positional ledger the id filter is a look-up by position: the
    bounds [a] and [b] give the trades at the positions [a] to [b], and a
    single id that the ledger has gives that one trade. *)
Theorem id_filter_is_a_slice :
  forall (Date_parse : jsstring -> option Z) (trades : list Trade)
         (filters : FilterState) (a b : Z),
  positional trades ->
  trim (tradeId filters) <> [] ->
  idBounds (trim (tradeId filters)) = Some (a, b) ->
  filteredTrades Date_parse trades filters
  = skipn (Z.to_nat (a - 1)) (firstn (Z.to_nat b) trades)
  /\ (a = b -> (1 <= a <= Z.of_nat (length trades))%Z ->
      exists t,
        nth_error trades (Z.to_nat (a - 1)) = Some t /\ id t = a
        /\ filteredTrades Date_parse trades filters = [t]).
Proof.
  intros dp trades filters a b [_ Hi] Hn Hb.
  assert (E : filteredTrades dp trades filters
              = skipn (Z.to_nat (a - 1)) (firstn (Z.to_nat b) trades)).
  { rewrite filteredTrades_id by exact Hn. rewrite Hb.
    rewrite (filter_id_range trades 0 a b Hi). do 2 f_equal; lia. }
  split; [exact E|].
  intros <- Hr. rewrite E.
  destruct (nth_error trades (Z.to_nat (a - 1))) as [t|] eqn:N.
  - exists t. split; [reflexivity|].
    assert (I : id t = a).
    { pose proof (map_nth_error id _ _ N) as M. rewrite Hi in M.
      rewrite nth_error_map in M.
      rewrite nth_error_seq in M.
      destruct (Z.to_nat (a - 1) <? length trades)%nat eqn:Lt;
        [|apply Nat.ltb_ge in Lt; lia].
      cbn in M. inversion M. lia. }
    split; [exact I|].
    apply nth_error_split in N. destruct N as [l1 [l2 [-> L]]].
    rewrite <- L.
    replace (Z.to_nat a) with (S (length l1)) by lia.
    rewrite firstn_app, firstn_all2 by lia.
    replace (S (length l1) - length l1)%nat with 1%nat by lia.
    cbn [firstn]. rewrite skipn_app, skipn_all.
    now rewrite Nat.sub_diag.
  - apply nth_error_None in N. lia.
Qed.

Lemma id_filter_is_a_slice_witness :
  filteredTrades parseISO tenTrades (idFilterOf "4-19") = skipn 3 tenTrades
  /\ exists t,
       nth_error tenTrades 6 = Some t
       /\ filteredTrades parseISO tenTrades (idFilterOf " 7 ") = [t].
Proof.
  assert (P : positional tenTrades) by (split; vm_compute; reflexivity).
  split.
  - destruct (id_filter_is_a_slice parseISO tenTrades (idFilterOf "4-19") 4 19 P)
      as [H _].
    + discriminate.
    + vm_compute. reflexivity.
    + rewrite H. vm_compute. reflexivity.
  - destruct (id_filter_is_a_slice parseISO tenTrades (idFilterOf " 7 ") 7 7 P)
      as [_ H].
    + discriminate.
    + vm_compute. reflexivity.
    + destruct (H eq_refl) as [t [H1 [_ H3]]].
      * vm_compute. split; discriminate.
      * exists t. split; assumption.
Defined.




(** ** The asset list *)

Lemma streq_eq : forall a b, streq a b = true <-> a = b.
Proof.
  intros a b. unfold streq.
  destruct (list_eq_dec ascii_dec a b); split; congruence.
Qed.

Lemma streq_refl : forall a, streq a a = true.
Proof. intros a. now apply streq_eq. Qed.

Lemma streq_neq : forall a b, streq a b = false <-> a <> b.
Proof.
  intros a b. unfold streq.
  destruct (list_eq_dec ascii_dec a b); split; congruence.
Qed.

Lemma sortInsert_perm : forall (A : Type) (cmp : A -> A -> Z) x l,
  Permutation (sortInsert cmp x l) (x :: l).
Proof.
  intros A cmp x l. induction l as [|y l IH]; [apply Permutation_refl|].
  cbn [sortInsert]. destruct (cmp x y <=? 0)%Z; [apply Permutation_refl|].
  eapply perm_trans; [apply perm_skip, IH|apply perm_swap].
Qed.

Lemma sort_perm : forall (A : Type) (cmp : A -> A -> Z) l,
  Permutation (sort cmp l) l.
Proof.
  intros A cmp l. induction l as [|x l IH]; [apply perm_nil|].
  cbn [sort]. eapply perm_trans; [apply sortInsert_perm|now apply perm_skip].
Qed.

Lemma distinct_In : forall l a, In a (distinct l) <-> In a l.
Proof.
  induction l as [|x l IH]; intros a; [reflexivity|]. cbn [distinct In].
  rewrite filter_In, IH. split.
  - intros [H|[H _]]; auto.
  - intros [H|H]; [now left|].
    destruct (list_eq_dec ascii_dec x a) as [E|N]; [now left|].
    right. split; [exact H|]. apply negb_true_iff. now apply streq_neq.
Qed.

Lemma distinct_NoDup : forall l, NoDup (distinct l).
Proof.
  induction l as [|x l IH]; [constructor|]. cbn [distinct]. constructor.
  - rewrite filter_In. intros [_ H]. now rewrite streq_refl in H.
  - now apply NoDup_filter.
Qed.

Lemma code_inj : forall x y, code x = code y -> x = y.
Proof.
  intros x y H. unfold code in H.
  rewrite <- (ascii_N_embedding x), <- (ascii_N_embedding y). now rewrite H.
Qed.

Lemma ltString_irrefl : forall a, ltString a a = false.
Proof.
  induction a as [|x a IH]; [reflexivity|]. cbn [ltString].
  now rewrite N.ltb_irrefl, N.eqb_refl, IH.
Qed.

Lemma ltString_trans : forall a b c,
  ltString a b = true -> ltString b c = true -> ltString a c = true.
Proof.
  induction a as [|x a IH]; intros [|y b] [|z c] H1 H2;
    cbn [ltString] in *; try discriminate; try reflexivity.
  apply orb_true_iff in H1, H2. apply orb_true_iff.
  destruct H1 as [H1|H1], H2 as [H2|H2].
  - left. apply N.ltb_lt in H1, H2. apply N.ltb_lt. lia.
  - apply andb_prop in H2. destruct H2 as [E _].
    apply N.eqb_eq in E. left. now rewrite <- E.
  - apply andb_prop in H1. destruct H1 as [E _].
    apply N.eqb_eq in E. left. now rewrite E.
  - apply andb_prop in H1, H2. destruct H1 as [E1 L1], H2 as [E2 L2].
    apply N.eqb_eq in E1, E2. right.
    rewrite E1, E2, N.eqb_refl. cbn [andb]. exact (IH b c L1 L2).
Qed.

Lemma ltString_total : forall a b,
  a = b \/ ltString a b = true \/ ltString b a = true.
Proof.
  induction a as [|x a IH]; intros [|y b]; cbn [ltString]; auto.
  destruct (N.compare_spec (code x) (code y)) as [E|L|G].
  - apply code_inj in E. subst y. rewrite N.ltb_irrefl, N.eqb_refl.
    cbn [orb andb]. destruct (IH b) as [->|[H|H]]; auto.
  - right. left. apply N.ltb_lt in L. now rewrite L.
  - right. right. apply N.ltb_lt in G. now rewrite G.
Qed.

Lemma sortInsert_ltString : forall x l,
  StronglySorted (fun a b => ltString a b = true) l -> ~ In x l ->
  StronglySorted (fun a b => ltString a b = true) (sortInsert sortCompare x l).
Proof.
  intros x l. induction l as [|y l IH]; intros S N; cbn [sortInsert].
  - repeat constructor.
  - inversion S as [|a b S' Hall]; subst.
    assert (Nxy : x <> y) by (intros ->; apply N; now left).
    assert (Nl : ~ In x l) by (intros H; apply N; now right).
    unfold sortCompare.
    destruct (ltString x y) eqn:Lxy; cbn [Z.leb Z.compare].
    + constructor; [exact S|]. constructor; [exact Lxy|].
      rewrite Forall_forall in *. intros z Hz.
      exact (ltString_trans x y z Lxy (Hall z Hz)).
    + assert (Lyx : ltString y x = true).
      { destruct (ltString_total x y) as [E|[H|H]]; congruence. }
      rewrite Lyx. cbn [Z.leb Z.compare].
      constructor; [exact (IH S' Nl)|].
      rewrite Forall_forall in *. intros z Hz.
      apply (Permutation_in z (sortInsert_perm jsstring sortCompare x l)) in Hz.
      destruct Hz as [<-|Hz]; [exact Lyx|exact (Hall z Hz)].
Qed.

Lemma sort_ltString : forall l,
  NoDup l ->
  StronglySorted (fun a b => ltString a b = true) (sort sortCompare l).
Proof.
  induction l as [|x l IH]; intros N; cbn [sort]; [constructor|].
  inversion N as [|a b Nx Nl]; subst.
  apply sortInsert_ltString; [exact (IH Nl)|].
  intros H. apply Nx.
  exact (Permutation_in x (sort_perm jsstring sortCompare l) H).
Qed.

(** The asset list holds the trimmed, non-empty asset names of the
    trades, each once, in ascending order of their code units. *)
Theorem uniqueAssets_sorted_distinct : forall trades : list Trade,
  (forall a,
     In a (uniqueAssets trades)
     <-> a <> [] /\ exists t, In t trades /\ trim (asset t) = a)
  /\ NoDup (uniqueAssets trades)
  /\ StronglySorted (fun a b => ltString a b = true) (uniqueAssets trades).
Proof.
  intros trades. unfold uniqueAssets.
  set (names := filter nonEmpty (map (fun t => trim (asset t)) trades)).
  split; [|split].
  - intros a. split.
    + intros H.
      apply (Permutation_in a (sort_perm jsstring sortCompare _)) in H.
      apply (proj1 (distinct_In _ _)) in H. unfold names in H.
      apply filter_In in H.
      destruct H as [H1 H2]. split.
      * intros ->. discriminate.
      * apply in_map_iff in H1. destruct H1 as [t [E Ht]]. now exists t.
    + intros [Ha [t [Ht E]]].
      apply (Permutation_in a
               (Permutation_sym (sort_perm jsstring sortCompare _))).
      apply (proj2 (distinct_In _ _)). unfold names. apply filter_In. split.
      * apply in_map_iff. now exists t.
      * destruct a; [now elim Ha|reflexivity].
  - apply (Permutation_NoDup
             (Permutation_sym (sort_perm jsstring sortCompare _))).
    apply distinct_NoDup.
  - apply sort_ltString, distinct_NoDup.
Qed.

(** ** The strategies *)

Lemma find_replaced : forall (strategy : Strategy) l,
  existsb (fun s => streq (s_id s) (s_id strategy)) l = true ->
  find (fun s => streq (s_id s) (s_id strategy))
    (map (fun s => if streq (s_id s) (s_id strategy) then strategy else s) l)
  = Some strategy.
Proof.
  intros strategy l. induction l as [|x l IH]; [discriminate|].
  cbn [existsb map find]. destruct (streq (s_id x) (s_id strategy)) eqn:E.
  - intros _. now rewrite streq_refl.
  - cbn [orb]. rewrite E. exact IH.
Qed.

Lemma find_appended : forall (strategy : Strategy) l,
  existsb (fun s => streq (s_id s) (s_id strategy)) l = false ->
  find (fun s => streq (s_id s) (s_id strategy)) (l ++ [strategy])
  = Some strategy.
Proof.
  intros strategy l. induction l as [|x l IH]; cbn [existsb app find].
  - intros _. now rewrite streq_refl.
  - intros H. apply orb_false_iff in H. destruct H as [E H].
    rewrite E. exact (IH H).
Qed.

Lemma ids_replaced : forall (strategy : Strategy) l,
  map s_id (map (fun s => if streq (s_id s) (s_id strategy) then strategy else s) l)
  = map s_id l.
Proof.
  intros strategy l. induction l as [|x l IH]; [reflexivity|]. cbn [map].
  rewrite IH. f_equal.
  destruct (streq (s_id x) (s_id strategy)) eqn:E; [|reflexivity].
  symmetry. now apply streq_eq.
Qed.

Lemma existsb_id : forall (i : jsstring) (l : list Strategy),
  existsb (fun s => streq (s_id s) i) l = true <-> In i (map s_id l).
Proof.
  intros i l. rewrite existsb_exists, in_map_iff. split.
  - intros [x [Hx E]]. exists x. split; [now apply streq_eq|exact Hx].
  - intros [x [E Hx]]. exists x. split; [exact Hx|now apply streq_eq].
Qed.

Lemma activeStrategy_saved : forall (strategy : Strategy) (st : StrategyState),
  activeStrategy (handleSaveStrategy strategy st) = Some strategy.
Proof.
  intros strategy [l a]. unfold handleSaveStrategy, activeStrategy.
  cbn [fst snd].
  destruct (existsb (fun s => streq (s_id s) (s_id strategy)) l) eqn:E.
  - now apply find_replaced.
  - now apply find_appended.
Qed.

(** After a strategy is saved it is the active strategy.  A strategy
    whose id is in use takes the place of the one that has it and the
    others stay; a strategy with a new id is added at the end.  Ids that
    were all different stay all different. *)
Theorem saved_strategy_is_active :
  forall (strategy : Strategy) (st : StrategyState),
  let st' := handleSaveStrategy strategy st in
  activeStrategy st' = Some strategy
  /\ (In (s_id strategy) (map s_id (fst st)) ->
      map s_id (fst st') = map s_id (fst st)
      /\ forall s, In s (fst st) -> s_id s <> s_id strategy -> In s (fst st'))
  /\ (~ In (s_id strategy) (map s_id (fst st)) ->
      fst st' = fst st ++ [strategy])
  /\ (NoDup (map s_id (fst st)) -> NoDup (map s_id (fst st'))).
Proof.
  intros strategy st. cbn zeta.
  split; [apply activeStrategy_saved|].
  destruct st as [l a]. unfold handleSaveStrategy. cbn [fst snd].
  pose proof (existsb_id (s_id strategy) l) as X.
  destruct (existsb (fun s => streq (s_id s) (s_id strategy)) l) eqn:E.
  - split; [|split].
    + intros _. split; [apply ids_replaced|].
      intros s Hs Hn. apply in_map_iff. exists s. split; [|exact Hs].
      apply streq_neq in Hn. now rewrite Hn.
    + intros N. exfalso. apply N, X. reflexivity.
    + now rewrite ids_replaced.
  - assert (N : ~ In (s_id strategy) (map s_id l)).
    { intros H. apply X in H. discriminate. }
    split; [|split].
    + intros H. now elim N.
    + reflexivity.
    + intros D. rewrite map_app. cbn [map].
      apply (Permutation_NoDup (l := s_id strategy :: map s_id l)).
      * apply Permutation_cons_append.
      * now constructor.
Qed.

Lemma saved_strategy_is_active_witness :
  fst (handleSaveStrategy (mkStrategy (str "s1") (str "Breakout") (str "Buy higher"))
         (strategies sampleState, None))
  = [mkStrategy (str "s1") (str "Breakout") (str "Buy higher")]
  /\ fst (handleSaveStrategy (mkStrategy (str "s2") (str "Range") (str "Fade"))
            (strategies sampleState, None))
     = strategies sampleState ++ [mkStrategy (str "s2") (str "Range") (str "Fade")].
Proof.
  split.
  - destruct (saved_strategy_is_active
                (mkStrategy (str "s1") (str "Breakout") (str "Buy higher"))
                (strategies sampleState, None)) as [_ [_ [_ H]]].
    vm_compute. reflexivity.
  - destruct (saved_strategy_is_active
                (mkStrategy (str "s2") (str "Range") (str "Fade"))
                (strategies sampleState, None)) as [_ [_ [H _]]].
    apply H. vm_compute. intros [E|[]]. discriminate.
Defined.

Lemma find_filter_other : forall (a strategyId : jsstring) (l : list Strategy),
  a <> strategyId ->
  find (fun s => streq (s_id s) a)
    (filter (fun s => negb (streq (s_id s) strategyId)) l)
  = find (fun s => streq (s_id s) a) l.
Proof.
  intros a sid l N. induction l as [|x l IH]; [reflexivity|].
  cbn [filter find]. destruct (streq (s_id x) sid) eqn:E; cbn [negb find].
  - apply streq_eq in E.
    assert (F : streq (s_id x) a = false) by (apply streq_neq; congruence).
    now rewrite F.
  - destruct (streq (s_id x) a); [reflexivity|exact IH].
Qed.

(** After a strategy is deleted no strategy has its id and the others
    are all there, in their order.  When it was the active one no strategy
    is active; otherwise the active strategy is the one it was. *)
Theorem deleted_strategy_is_gone :
  forall (strategyId : jsstring) (st : StrategyState),
  let st' := handleDeleteStrategy strategyId st in
  (forall s, In s (fst st') <-> In s (fst st) /\ s_id s <> strategyId)
  /\ (snd st = Some strategyId ->
      snd st' = None /\ activeStrategy st' = None)
  /\ (snd st <> Some strategyId ->
      snd st' = snd st /\ activeStrategy st' = activeStrategy st).
Proof.
  intros sid [l a]. cbn zeta.
  unfold handleDeleteStrategy, activeStrategy. cbn [fst snd].
  split; [|split].
  - intros s. rewrite filter_In, negb_true_iff, streq_neq. reflexivity.
  - intros ->. now rewrite streq_refl.
  - intros N. destruct a as [a|]; [|split; reflexivity].
    assert (Na : a <> sid) by congruence.
    assert (F : streq a sid = false) by now apply streq_neq.
    rewrite F. split; [reflexivity|]. now apply find_filter_other.
Qed.

Lemma deleted_strategy_is_gone_witness :
  handleDeleteStrategy (str "s1") (strategies sampleState, Some (str "s1"))
  = ([], None)
  /\ activeStrategy
       (handleDeleteStrategy (str "s9") (strategies sampleState, Some (str "s1")))
     = activeStrategy (strategies sampleState, Some (str "s1")).
Proof.
  split.
  - vm_compute. reflexivity.
  - destruct (deleted_strategy_is_gone (str "s9")
                (strategies sampleState, Some (str "s1"))) as [_ [_ H]].
    apply H. discriminate.
Defined.

(** Saving from the strategy editor: when the name or the content is blank
    nothing is saved; otherwise the strategy saved carries the name and
    the content as typed and becomes the active one.  With an active id
    that a strategy has, that strategy is replaced and the number of
    strategies stays; with no active id the strategy gets the time of the
    call as its id. *)
Theorem editor_save_replaces_or_creates :
  forall (now : Z) (st : StrategyState) (currentName currentContent : jsstring),
  ((trim currentName = [] \/ trim currentContent = []) ->
   LiveTrading.handleSave now (snd st) currentName currentContent = None)
  /\ (trim currentName <> [] -> trim currentContent <> [] ->
      exists s,
        LiveTrading.handleSave now (snd st) currentName currentContent = Some s
        /\ s_name s = currentName /\ s_content s = currentContent
        /\ activeStrategy (handleSaveStrategy s st) = Some s
        /\ (forall i, snd st = Some i -> i <> [] ->
            s_id s = i
            /\ (In i (map s_id (fst st)) ->
                length (fst (handleSaveStrategy s st)) = length (fst st)))
        /\ (orNull (snd st) = None -> s_id s = toISOString now)).
Proof.
  intros now [l a] name content. cbn [snd fst].
  unfold LiveTrading.handleSave. split.
  - intros [H|H]; rewrite H; cbn [nonEmpty negb orb]; [reflexivity|].
    now rewrite orb_true_r.
  - intros Hn Hc.
    destruct (trim name) as [|c r] eqn:En; [now elim Hn|].
    destruct (trim content) as [|c' r'] eqn:Ec; [now elim Hc|].
    cbn [nonEmpty negb orb]. eexists. split; [reflexivity|].
    cbn [s_name s_content s_id].
    split; [reflexivity|]. split; [reflexivity|].
    split; [apply activeStrategy_saved|].
    split.
    + intros i -> Hi. destruct i as [|x i]; [now elim Hi|].
      cbn [orNull]. split; [reflexivity|].
      intros Hin. unfold handleSaveStrategy. cbn [fst s_id].
      apply existsb_id in Hin. rewrite Hin. apply length_map.
    + intros ->. reflexivity.
Qed.

Lemma editor_save_replaces_or_creates_witness :
  LiveTrading.handleSave day_2024_01_01 None (str "Range") (str " ") = None
  /\ exists s,
       LiveTrading.handleSave day_2024_01_01 None (str "Range") (str "Fade")
       = Some s
       /\ s_id s = str "2024-01-01T00:00:00.000Z".
Proof.
  destruct (editor_save_replaces_or_creates day_2024_01_01
              (strategies sampleState, None) (str "Range") (str " ")) as [H _].
  destruct (editor_save_replaces_or_creates day_2024_01_01
              (strategies sampleState, None) (str "Range") (str "Fade"))
    as [_ G].
  split.
  - apply H. right. vm_compute. reflexivity.
  - destruct G as [s [G1 [_ [_ [_ [_ G6]]]]]];
      [vm_compute; discriminate|vm_compute; discriminate|].
    exists s. split; [exact G1|].
    rewrite (G6 eq_refl). vm_compute. reflexivity.
Defined.

(** ** The streaks *)

Import Streak.

Lemma countLosing_bounds : forall l,
  (0 <= countLosing l <= Z.of_nat (length l))%Z.
Proof.
  induction l as [|t l IH]; cbn [countLosing length]; [lia|].
  destruct (le0 (pnl t)); lia.
Qed.

Lemma sort_nil : forall (A : Type) (cmp : A -> A -> Z) l,
  sort cmp l = [] -> l = [].
Proof.
  intros A cmp l H. apply (f_equal (@length A)) in H.
  rewrite length_sort in H. now destruct l.
Qed.

Lemma losingStreak_bounds : forall trades,
  (0 <= calculateCurrentLosingTradeStreak trades
   <= Z.of_nat (length (filter isClosed trades)))%Z.
Proof.
  intros trades. unfold calculateCurrentLosingTradeStreak.
  pose proof (length_sort Trade byDate (filter isClosed trades)) as L.
  destruct (sort byDate (filter isClosed trades)) as [|t l] eqn:E.
  - lia.
  - rewrite <- E in *. pose proof (countLosing_bounds (rev (sort byDate (filter isClosed trades)))) as B.
    rewrite length_rev, L in B. exact B.
Qed.

Lemma countStreak_losing : forall l,
  Forall (fun t => pnl t <> None) l ->
  countStreak false l = countLosing l.
Proof.
  induction l as [|t l IH]; intros H; [reflexivity|].
  inversion H as [|a b Ht Hl]; subst. cbn [countStreak countLosing].
  rewrite (win_or_loss t Ht). unfold isLoss.
  destruct (le0 (pnl t)); cbn [negb Bool.eqb]; [|reflexivity].
  now rewrite (IH Hl).
Qed.

Lemma countStreak_first : forall w t l,
  isWin t = w -> (1 <= countStreak w (t :: l))%Z.
Proof.
  intros w t l <-. cbn [countStreak]. rewrite Bool.eqb_reflx.
  assert (forall l', (0 <= countStreak (isWin t) l')%Z).
  { induction l' as [|x l' IH]; cbn [countStreak]; [lia|].
    destruct (Bool.eqb (isWin t) (isWin x)); lia. }
  specialize (H l). lia.
Qed.

Lemma Forall_perm : forall (A : Type) (P : A -> Prop) l l',
  Permutation l l' -> Forall P l -> Forall P l'.
Proof.
  intros A P l l' Hp H. rewrite Forall_forall in *.
  intros x Hx. apply H. exact (Permutation_in x (Permutation_sym Hp) Hx).
Qed.

(** The losing streak that triggers the audit suggestion agrees with the
    current streak of the dashboard when every closed trade has a pnl: it
    is the count of a current losing streak and 0 during a winning streak
    or with no closed trade.  It is never more than the number of closed
    trades. *)
Theorem losing_streak_matches_dashboard :
  forall (trades : list Trade) (cap : Q),
  (0 <= calculateCurrentLosingTradeStreak trades
   <= Z.of_nat (length (filter isClosed trades)))%Z
  /\ (closedHavePnl trades ->
      match currentStreak (calculateMetrics trades cap) with
      | (streak_loss, n) =>
          calculateCurrentLosingTradeStreak trades = n /\ (1 <= n)%Z
      | (streak_win, n) =>
          calculateCurrentLosingTradeStreak trades = 0%Z /\ (1 <= n)%Z
      | (streak_none, n) =>
          calculateCurrentLosingTradeStreak trades = 0%Z /\ n = 0%Z
      end).
Proof.
  intros trades cap. split; [apply losingStreak_bounds|].
  intros H. apply closedHavePnl_Forall in H.
  unfold calculateCurrentLosingTradeStreak, calculateMetrics.
  destruct (filter isClosed trades) as [|c cs] eqn:E.
  - cbn. split; reflexivity.
  - rewrite <- E in *. cbn [currentStreak].
    assert (Hs : Forall (fun t => pnl t <> None)
                   (rev (sort byDate (filter isClosed trades)))).
    { apply (Forall_perm _ _ (filter isClosed trades)); [|exact H].
      eapply perm_trans; [|apply Permutation_rev].
      apply Permutation_sym, sort_perm. }
    destruct (sort byDate (filter isClosed trades)) as [|s ss] eqn:Es.
    { apply sort_nil in Es. rewrite E in Es. discriminate. }
    rewrite <- Es in *.
    destruct (rev (sort byDate (filter isClosed trades))) as [|lastTrade r] eqn:Er.
    { apply (f_equal (@length Trade)) in Er. rewrite length_rev, Es in Er.
      discriminate. }
    destruct (isWin lastTrade) eqn:W.
    + split; [|now apply countStreak_first].
      cbn [countLosing]. inversion Hs as [|a b Hl _]; subst.
      pose proof (win_or_loss lastTrade Hl) as X. rewrite W in X.
      unfold isLoss in X. destruct (le0 (pnl lastTrade)); [discriminate|reflexivity].
    + split; [|now apply countStreak_first].
      symmetry. now apply countStreak_losing.
Qed.

Lemma losing_streak_matches_dashboard_witness :
  calculateCurrentLosingTradeStreak mixedLedger = 1%Z
  /\ currentStreak (calculateMetrics mixedLedger 1000) = (streak_loss, 1%Z).
Proof.
  destruct (losing_streak_matches_dashboard mixedLedger 1000) as [_ H].
  assert (C : closedHavePnl mixedLedger).
  { intros t Ht _. vm_compute in Ht.
    destruct Ht as [<-|[<-|[<-|[]]]]; discriminate. }
  specialize (H C).
  assert (E : currentStreak (calculateMetrics mixedLedger 1000)
              = (streak_loss, 1%Z)) by (vm_compute; reflexivity).
  rewrite E in H. destruct H as [H _]. split; [exact H|exact E].
Defined.

Lemma filter_length_perm : forall (A : Type) (f : A -> bool) l l',
  Permutation l l' -> length (filter f l) = length (filter f l').
Proof.
  intros A f l l' H. induction H as [|x l l' H IH|x y l|l l' l'' H1 IH1 H2 IH2].
  - reflexivity.
  - cbn [filter]. destruct (f x); cbn [length]; congruence.
  - cbn [filter]. destruct (f x), (f y); reflexivity.
  - congruence.
Qed.

(** The loop over the sorted trades: the running streaks are the counts
    from the last trade backwards, and each longest streak lies between
    the running one and the number of trades of its kind. *)
Lemma streak_loop : forall l,
  let s := fold_left streakStep l (mkStreaks 0 0 0 0) in
  let wins := Z.of_nat (length (filter isWin l)) in
  currentWin s = countStreak true (rev l)
  /\ currentLoss s = countStreak false (rev l)
  /\ (0 <= currentWin s <= maxWin s)%Z /\ (maxWin s <= wins)%Z
  /\ (0 <= currentLoss s <= maxLoss s)%Z
  /\ (maxLoss s <= Z.of_nat (length l) - wins)%Z.
Proof.
  induction l as [|t l IH] using rev_ind; cbn zeta in *.
  - cbn. lia.
  - rewrite fold_left_app, rev_unit, filter_app, !length_app. cbn [fold_left].
    destruct IH as [I1 [I2 [I3 [I4 [I5 I6]]]]].
    set (s := fold_left streakStep l (mkStreaks 0 0 0 0)) in *.
    unfold streakStep. cbn [countStreak filter].
    destruct (isWin t); cbn [Bool.eqb maxWin currentWin maxLoss currentLoss length].
    + rewrite <- I1. repeat split; lia.
    + rewrite <- I2. repeat split; lia.
Qed.

(** The longest winning streak is at most the number of wins and the
    longest losing streak at most the number of closed trades that are not
    wins; the current streak counts at least one trade and is at most the
    longest streak of its kind. *)
Theorem streaks_bounded : forall (trades : list Trade) (cap : Q),
  let m := calculateMetrics trades cap in
  (0 <= maxWinStreakTrades m <= totalWins m)%Z
  /\ (0 <= maxLossStreakTrades m <= totalTrades m - totalWins m)%Z
  /\ match currentStreak m with
     | (streak_win, n) => (1 <= n <= maxWinStreakTrades m)%Z
     | (streak_loss, n) => (1 <= n <= maxLossStreakTrades m)%Z
     | (streak_none, n) => n = 0%Z /\ totalTrades m = 0%Z
     end.
Proof.
  intros trades cap. cbn zeta. unfold calculateMetrics.
  destruct (filter isClosed trades) as [|c cs] eqn:E.
  - cbn. repeat split; lia.
  - rewrite <- E. clear E c cs.
    set (closedTrades := filter isClosed trades).
    cbn [maxWinStreakTrades maxLossStreakTrades totalWins totalTrades
         currentStreak].
    pose proof (streak_loop (sort byDate closedTrades)) as L.
    cbn zeta in L. destruct L as [L1 [L2 [L3 [L4 [L5 L6]]]]].
    rewrite (filter_length_perm Trade isWin _ _ (sort_perm Trade byDate closedTrades))
      in L4, L6.
    rewrite length_sort in L6. unfold lengthZ.
    split; [lia|]. split; [lia|].
    destruct (rev (sort byDate closedTrades)) as [|lastTrade r] eqn:Er.
    + apply (f_equal (@length Trade)) in Er.
      rewrite length_rev, length_sort in Er. cbn [length] in Er.
      rewrite Er. split; reflexivity.
    + pose proof (countStreak_first (isWin lastTrade) lastTrade r eq_refl) as F.
      destruct (isWin lastTrade); lia.
Qed.

(** ** The curves and the averages *)

Lemma length_series : forall f c i l, length (series f c i l) = length l.
Proof.
  intros f c i l. revert c i.
  induction l as [|t l IH]; intros c i; cbn [series length]; [reflexivity|].
  now rewrite IH.
Qed.

Lemma series_names : forall f g c i l,
  map fst (series f c i l) = map fst (series g c i l).
Proof.
  intros f g c i l. revert c i.
  induction l as [|t l IH]; intros c i; cbn [series map fst]; [reflexivity|].
  now rewrite (IH (nadd c (pnl t)) (i + 1)%Z).
Qed.

Lemma series_values : forall f c i l,
  map snd (series f c i l) = map f (map snd (series (fun x => x) c i l)).
Proof.
  intros f c i l. revert c i.
  induction l as [|t l IH]; intros c i; cbn [series map snd]; [reflexivity|].
  now rewrite (IH (nadd c (pnl t)) (i + 1)%Z).
Qed.

Lemma last_cons : forall (A : Type) (l : list A) (x d : A),
  last (x :: l) d = last l x.
Proof.
  intros A l. induction l as [|y l IH]; intros x d; [reflexivity|].
  change (last (x :: y :: l) d) with (last (y :: l) d).
  now rewrite (IH y d), (IH y x).
Qed.

Lemma series_last : forall l c i,
  last (map snd (series (fun x => x) c i l)) c
  = fold_left (fun acc t => nadd acc (pnl t)) l c.
Proof.
  induction l as [|t l IH]; intros c i; [reflexivity|].
  cbn [series map snd fold_left].
  rewrite last_cons. apply IH.
Qed.

Lemma sumDefined_perm : forall l l',
  Permutation l l' -> sumDefined l == sumDefined l'.
Proof.
  intros l l' H. induction H as [|x l l' H IH|x y l|l l' l'' H1 IH1 H2 IH2];
    cbn [sumDefined].
  - reflexivity.
  - now rewrite IH.
  - ring.
  - now rewrite IH1.
Qed.

(** The two curves start at 0 and at the capital and have one point for
    each closed trade after that, under the same names; a point of the
    equity curve is the capital plus the point of the pnl curve; and when
    every closed trade has a pnl the pnl curve ends at the total pnl. *)
Theorem curves_follow_the_pnl : forall (trades : list Trade) (cap : Q),
  let m := calculateMetrics trades cap in
  length (chartData m) = S (Z.to_nat (totalTrades m))
  /\ map fst (equityChartData m) = map fst (chartData m)
  /\ hd_error (map snd (chartData m)) = Some (Some 0)
  /\ hd_error (map snd (equityChartData m)) = Some (Some cap)
  /\ map snd (tl (equityChartData m))
     = map (nadd (Some cap)) (map snd (tl (chartData m)))
  /\ (closedHavePnl trades ->
      exists q p,
        last (map snd (chartData m)) None = Some q
        /\ totalPnl m = Some p /\ q == p).
Proof.
  intros trades cap. cbn zeta. unfold calculateMetrics.
  destruct (filter isClosed trades) as [|c cs] eqn:E.
  - cbn. repeat split. intros _. exists 0, 0. repeat split; reflexivity.
  - rewrite <- E.
    set (closedTrades := filter isClosed trades).
    cbn [chartData equityChartData totalTrades totalPnl map fst snd length
         hd_error tl].
    split; [|split; [|split; [|split; [|split]]]]; try reflexivity.
    + rewrite length_series, length_sort. unfold lengthZ. f_equal. lia.
    + f_equal. apply series_names.
    + apply (series_values (fun c0 => nadd (Some cap) c0)).
    + intros H. apply closedHavePnl_Forall in H. fold closedTrades in H.
      assert (Hs : Forall (fun t => pnl t <> None) (sort byDate closedTrades)).
      { apply (Forall_perm _ _ closedTrades); [|exact H].
        apply Permutation_sym, sort_perm. }
      destruct (@sumPnl_defined closedTrades H) as [p [Hp Ep]].
      destruct (@sumPnl_defined (sort byDate closedTrades) Hs) as [q [Hq Eq]].
      exists q, p. split; [|split; [exact Hp|]].
      * unfold sumPnl in Hq. rewrite <- Hq, <- (series_last _ _ 0).
        now rewrite last_cons.
      * rewrite Eq, Ep. apply sumDefined_perm, sort_perm.
Qed.

Lemma curves_follow_the_pnl_witness :
  exists q p,
    last (map snd (chartData (calculateMetrics mixedLedger 1000))) None = Some q
    /\ totalPnl (calculateMetrics mixedLedger 1000) = Some p
    /\ q == p.
Proof.
  destruct (curves_follow_the_pnl mixedLedger 1000) as [_ [_ [_ [_ [_ H]]]]].
  apply H. intros t Ht _. vm_compute in Ht.
  destruct Ht as [<-|[<-|[<-|[]]]]; discriminate.
Defined.

Lemma sum_wins_losses : forall l,
  Forall (fun t => pnl t <> None) l ->
  sumDefined l == sumDefined (filter isWin l) + sumDefined (filter isLoss l).
Proof.
  induction l as [|t l IH]; intros H; cbn [filter sumDefined]; [reflexivity|].
  inversion H as [|a b Ht Hl]; subst.
  rewrite (win_or_loss t Ht).
  destruct (isLoss t); cbn [negb sumDefined]; rewrite (IH Hl); ring.
Qed.

Lemma sum_wins_nonneg : forall l, 0 <= sumDefined (filter isWin l).
Proof.
  induction l as [|t l IH]; cbn [filter sumDefined]; [apply Qle_refl|].
  destruct (isWin t) eqn:W; [|exact IH]. cbn [sumDefined].
  unfold isWin in W. destruct (pnl t) as [p|]; [|discriminate].
  cbn [gt0 orZero] in *. apply negb_true_iff in W.
  assert (0 < p).
  { apply Qnot_le_lt. intros C. apply Qle_bool_iff in C. congruence. }
  apply Qlt_le_weak in H.
  rewrite <- (Qplus_0_l 0). now apply Qplus_le_compat.
Qed.

Lemma sum_losses_nonpos : forall l, sumDefined (filter isLoss l) <= 0.
Proof.
  induction l as [|t l IH]; cbn [filter sumDefined]; [apply Qle_refl|].
  destruct (isLoss t) eqn:W; [|exact IH]. cbn [sumDefined].
  unfold isLoss in W. destruct (pnl t) as [p|]; [|discriminate].
  cbn [le0 orZero] in *. apply Qle_bool_iff in W.
  rewrite <- (Qplus_0_l 0). now apply Qplus_le_compat.
Qed.

(** When every closed trade has a pnl, wins and losses make up the closed
    trades, the total pnl is the average win times the number of wins plus
    the average loss times the number of losses, the average win is not
    negative and the average loss is not positive. *)
Theorem total_is_wins_plus_losses : forall (trades : list Trade) (cap : Q),
  closedHavePnl trades ->
  let m := calculateMetrics trades cap in
  (totalWins m + totalLosses m = totalTrades m)%Z
  /\ exists p w l,
       totalPnl m = Some p /\ averageWin m = Some w /\ averageLoss m = Some l
       /\ p == w * inject_Z (totalWins m) + l * inject_Z (totalLosses m)
       /\ 0 <= w /\ l <= 0.
Proof.
  intros trades cap H. apply closedHavePnl_Forall in H. cbn zeta.
  unfold calculateMetrics.
  destruct (filter isClosed trades) as [|c cs] eqn:E.
  - cbn. split; [reflexivity|]. exists 0, 0, 0.
    repeat split; try reflexivity; apply Qle_refl.
  - rewrite <- E in *. set (closedTrades := filter isClosed trades) in *.
    cbn [totalWins totalLosses totalTrades totalPnl averageWin averageLoss].
    unfold lengthZ. split.
    { rewrite <- (@wins_plus_losses closedTrades H). symmetry.
      apply Nat2Z.inj_add. }
    assert (Hw : Forall (fun t => pnl t <> None) (filter isWin closedTrades))
      by (apply filter_Forall; apply isWin_defined).
    assert (Hl : Forall (fun t => pnl t <> None) (filter isLoss closedTrades))
      by (apply filter_Forall; apply isLoss_defined).
    destruct (@sumPnl_defined closedTrades H) as [p [Hp Ep]].
    destruct (@sumPnl_defined _ Hw) as [sw [Hsw Ew]].
    destruct (@sumPnl_defined _ Hl) as [sl [Hsl El]].
    rewrite Hp, Hsw, Hsl.
    pose proof (sum_wins_losses closedTrades H) as S.
    pose proof (sum_wins_nonneg closedTrades) as Pw.
    pose proof (sum_losses_nonpos closedTrades) as Pl.
    rewrite <- Ew in Pw. rewrite <- El in Pl. rewrite <- Ep, <- Ew, <- El in S.
    set (nw := length (filter isWin closedTrades)) in *.
    set (nl := length (filter isLoss closedTrades)) in *.
    assert (Zw : nw = 0%nat -> sw == 0).
    { intros Z. unfold nw in Z. apply length_zero_iff_nil in Z.
      rewrite Ew, Z. reflexivity. }
    assert (Zl : nl = 0%nat -> sl == 0).
    { intros Z. unfold nl in Z. apply length_zero_iff_nil in Z.
      rewrite El, Z. reflexivity. }
    clearbody nw nl.
    exists p.
    exists (if (0 <? Z.of_nat nw)%Z then sw / inject_Z (Z.of_nat nw) else 0).
    exists (if (0 <? Z.of_nat nl)%Z then sl / inject_Z (Z.of_nat nl) else 0).
    split; [reflexivity|].
    split; [destruct (0 <? Z.of_nat nw)%Z; reflexivity|].
    split; [destruct (0 <? Z.of_nat nl)%Z; reflexivity|].
    assert (Aw : (if (0 <? Z.of_nat nw)%Z then sw / inject_Z (Z.of_nat nw) else 0)
                 * inject_Z (Z.of_nat nw) == sw).
    { destruct (0 <? Z.of_nat nw)%Z eqn:B.
      - apply Z.ltb_lt in B. field. intros C.
        assert (I0 : inject_Z (Z.of_nat nw) == inject_Z 0) by exact C.
        rewrite inject_Z_injective in I0. lia.
      - apply Z.ltb_ge in B. rewrite Zw by lia. ring. }
    assert (Al : (if (0 <? Z.of_nat nl)%Z then sl / inject_Z (Z.of_nat nl) else 0)
                 * inject_Z (Z.of_nat nl) == sl).
    { destruct (0 <? Z.of_nat nl)%Z eqn:B.
      - apply Z.ltb_lt in B. field. intros C.
        assert (I0 : inject_Z (Z.of_nat nl) == inject_Z 0) by exact C.
        rewrite inject_Z_injective in I0. lia.
      - apply Z.ltb_ge in B. rewrite Zl by lia. ring. }
    split; [rewrite Aw, Al; exact S|]. split.
    + destruct (0 <? Z.of_nat nw)%Z eqn:B; [|apply Qle_refl].
      apply Z.ltb_lt in B. apply Qle_shift_div_l.
      * change 0 with (inject_Z 0). rewrite <- Zlt_Qlt. exact B.
      * now rewrite Qmult_0_l.
    + destruct (0 <? Z.of_nat nl)%Z eqn:B; [|apply Qle_refl].
      apply Z.ltb_lt in B. apply Qle_shift_div_r.
      * change 0 with (inject_Z 0). rewrite <- Zlt_Qlt. exact B.
      * now rewrite Qmult_0_l.
Qed.

Lemma total_is_wins_plus_losses_witness :
  exists p w l,
    totalPnl (calculateMetrics mixedLedger 1000) = Some p
    /\ averageWin (calculateMetrics mixedLedger 1000) = Some w
    /\ averageLoss (calculateMetrics mixedLedger 1000) = Some l
    /\ p == w * 2 + l * 1.
Proof.
  destruct (total_is_wins_plus_losses mixedLedger 1000) as [_ [p [w [l H]]]].
  - intros t Ht _. vm_compute in Ht.
    destruct Ht as [<-|[<-|[<-|[]]]]; discriminate.
  - destruct H as [H1 [H2 [H3 [H4 _]]]].
    exists p, w, l. split; [exact H1|]. split; [exact H2|]. split; [exact H3|].
    rewrite H4.
    assert (E1 : totalWins (calculateMetrics mixedLedger 1000) = 2%Z)
      by (vm_compute; reflexivity).
    assert (E2 : totalLosses (calculateMetrics mixedLedger 1000) = 1%Z)
      by (vm_compute; reflexivity).
    rewrite E1, E2. reflexivity.
Defined.

(** ** The audit suggestion *)

(** The effect asks nothing unless the number of trades has grown since
    its last run.  The streak prompt reports a losing streak of at least 3
    and is not shown while the number of trades is at most the dismissed
    count, which is kept that long; its dismiss button stores the current
    count plus 10.  The milestone prompt comes at a positive multiple of
    10 trades and only when the losing streak is below 3. *)
Theorem audit_prompt_rules :
  forall (prevCount : option Z) (trades : list Trade)
         (dismissedStreakAuditUntil : option Z),
  let count := Z.of_nat (length trades) in
  let result := auditSuggestion prevCount trades dismissedStreakAuditUntil in
  fst (fst result) = count
  /\ (snd result <> NoPrompt ->
      exists p, prevCount = Some p /\ (p < count)%Z)
  /\ (forall n u,
        snd result = StreakPrompt n u ->
        n = calculateCurrentLosingTradeStreak trades
        /\ (3 <= n <= count)%Z /\ u = (count + 10)%Z
        /\ forall d, dismissedStreakAuditUntil = Some d -> (d < count)%Z)
  /\ (forall c,
        snd result = MilestonePrompt c ->
        c = count /\ (0 < c)%Z /\ (c mod 10 = 0)%Z
        /\ (calculateCurrentLosingTradeStreak trades < 3)%Z)
  /\ (forall d,
        dismissedStreakAuditUntil = Some d ->
        ((count <= d)%Z ->
         snd (fst result) = Some d
         /\ forall n u, snd result <> StreakPrompt n u)
        /\ ((d < count)%Z -> snd (fst result) = None)).
Proof.
  intros prevCount trades dismissed. cbn zeta.
  unfold auditSuggestion. cbn [fst snd].
  set (count := Z.of_nat (length trades)).
  pose proof (losingStreak_bounds trades) as B.
  assert (Bc : (Z.of_nat (length (filter isClosed trades)) <= count)%Z).
  { unfold count. apply inj_le, filter_length_le. }
  set (streak := calculateCurrentLosingTradeStreak trades) in *.
  split; [reflexivity|]. split; [|split; [|split]].
  - destruct prevCount as [p|]; [|intros N; now elim N].
    destruct (count <=? p)%Z eqn:E; [intros N; now elim N|].
    apply Z.leb_gt in E. intros _. exists p. split; [reflexivity|lia].
  - intros n u.
    destruct prevCount as [p|]; [|discriminate].
    destruct (count <=? p)%Z; [discriminate|].
    destruct (3 <=? streak)%Z eqn:S3.
    + apply Z.leb_le in S3.
      destruct dismissed as [d|].
      * destruct (count <=? d)%Z eqn:Ed; [discriminate|].
        apply Z.leb_gt in Ed. intros H; inversion H; subst.
        repeat split; try lia. intros d' D; inversion D; subst. exact Ed.
      * intros H; inversion H; subst.
        repeat split; try lia. intros d' D; discriminate.
    + destruct ((0 <? count)%Z && (count mod 10 =? 0)%Z); discriminate.
  - intros c.
    destruct prevCount as [p|]; [|discriminate].
    destruct (count <=? p)%Z; [discriminate|].
    destruct (3 <=? streak)%Z eqn:S3.
    + destruct dismissed as [d|]; [|discriminate].
      destruct (count <=? d)%Z; discriminate.
    + apply Z.leb_gt in S3.
      destruct ((0 <? count)%Z && (count mod 10 =? 0)%Z) eqn:M; [|discriminate].
      apply andb_prop in M. destruct M as [M1 M2].
      apply Z.ltb_lt in M1. apply Z.eqb_eq in M2.
      intros H; inversion H; subst. repeat split; assumption.
  - intros d ->. split.
    + intros Le.
      assert (E1 : (d <? count)%Z = false) by (apply Z.ltb_ge; lia).
      assert (E2 : (count <=? d)%Z = true) by (apply Z.leb_le; lia).
      rewrite E1, E2. split; [reflexivity|].
      intros n u.
      destruct prevCount as [p|]; [|discriminate].
      destruct (count <=? p)%Z; [discriminate|].
      destruct (3 <=? streak)%Z; [discriminate|].
      destruct ((0 <? count)%Z && (count mod 10 =? 0)%Z); discriminate.
    + intros Lt.
      assert (E1 : (d <? count)%Z = true) by (apply Z.ltb_lt; lia).
      now rewrite E1.
Qed.

Lemma audit_prompt_rules_witness :
  snd (auditSuggestion (Some 2%Z) losingLedger None) = StreakPrompt 3 13
  /\ calculateCurrentLosingTradeStreak losingLedger = 3%Z
  /\ snd (auditSuggestion (Some 2%Z) losingLedger (Some 12%Z)) = NoPrompt.
Proof.
  assert (E : snd (auditSuggestion (Some 2%Z) losingLedger None)
              = StreakPrompt 3 13) by (vm_compute; reflexivity).
  split; [exact E|].
  destruct (audit_prompt_rules (Some 2%Z) losingLedger None) as [_ [_ [H _]]].
  destruct (H 3%Z 13%Z E) as [H1 _].
  split; [now symmetry|]. vm_compute. reflexivity.
Defined.

(** ** The trade form *)

Import TradeModalView.

(** White space after a number does not change what [parseFloat]
    reads. *)
Lemma whiteSpace_classes : forall c,
  isWhiteSpace c = true ->
  isDigit c = false /\ eqc c "." = false /\ eqc c "-" = false
  /\ eqc c "+" = false /\ eqc c "e" = false /\ eqc c "E" = false.
Proof.
  intros [[] [] [] [] [] [] [] []]; vm_compute; intros H;
    try discriminate H; repeat split.
Qed.

Lemma spanDigits_app_ws : forall r w,
  forallb isWhiteSpace w = true ->
  spanDigits (r ++ w) = (fst (spanDigits r), snd (spanDigits r) ++ w).
Proof.
  intros r w Hw. induction r as [|c r IH].
  - destruct w as [|c w]; [reflexivity|]. cbn [app spanDigits fst snd].
    cbn [forallb] in Hw. apply andb_prop in Hw. destruct Hw as [Hc _].
    destruct (whiteSpace_classes c Hc) as [D _]. now rewrite D.
  - cbn [app spanDigits]. destruct (isDigit c); [|reflexivity].
    rewrite IH. destruct (spanDigits r). reflexivity.
Qed.

Lemma signOf_app_ws : forall v w,
  forallb isWhiteSpace w = true ->
  signOf (v ++ w) = (fst (signOf v), snd (signOf v) ++ w).
Proof.
  intros v w Hw. destruct v as [|c v].
  - destruct w as [|c w]; [reflexivity|]. cbn [app signOf fst snd].
    cbn [forallb] in Hw. apply andb_prop in Hw. destruct Hw as [Hc _].
    destruct (whiteSpace_classes c Hc) as [_ [_ [M [P _]]]]. now rewrite M, P.
  - cbn [app signOf].
    destruct (eqc c "-"); [reflexivity|]. destruct (eqc c "+"); reflexivity.
Qed.

Lemma exponentOf_app_ws : forall r w,
  forallb isWhiteSpace w = true -> exponentOf (r ++ w) = exponentOf r.
Proof.
  intros r w Hw. destruct r as [|c r].
  - destruct w as [|c w]; [reflexivity|]. cbn [app exponentOf].
    cbn [forallb] in Hw. apply andb_prop in Hw. destruct Hw as [Hc _].
    destruct (whiteSpace_classes c Hc) as [_ [_ [_ [_ [E1 E2]]]]].
    now rewrite E1, E2.
  - cbn [app exponentOf]. destruct (eqc c "e" || eqc c "E"); [|reflexivity].
    rewrite (signOf_app_ws r w Hw). destruct (signOf r) as [sg r'].
    cbn [fst snd]. rewrite (spanDigits_app_ws r' w Hw).
    destruct (spanDigits r') as [[|d ds] rest]; reflexivity.
Qed.

Lemma trimStart_app_ws : forall v w,
  forallb isWhiteSpace w = true ->
  trimStart (v ++ w) = match trimStart v with [] => [] | u => u ++ w end.
Proof.
  intros v w Hw. induction v as [|c v IH].
  - cbn [app trimStart]. now apply trimStart_nil.
  - cbn [app trimStart]. destruct (isWhiteSpace c); [exact IH|reflexivity].
Qed.

Lemma parseFloat_app_ws : forall v w,
  forallb isWhiteSpace w = true -> parseFloat (v ++ w) = parseFloat v.
Proof.
  intros v w Hw. unfold parseFloat. rewrite (trimStart_app_ws v w Hw).
  destruct (trimStart v) as [|c u] eqn:T; [reflexivity|].
  rewrite (signOf_app_ws (c :: u) w Hw).
  destruct (signOf (c :: u)) as [sg r]. cbn [fst snd].
  rewrite (spanDigits_app_ws r w Hw).
  destruct (spanDigits r) as [ip r1]. cbn [fst snd].
  destruct r1 as [|x r1].
  - cbn [app]. destruct w as [|y w].
    + reflexivity.
    + cbn [forallb] in Hw. apply andb_prop in Hw. destruct Hw as [Hy Hw'].
      destruct (whiteSpace_classes y Hy) as [_ [P [_ [_ [E1 E2]]]]].
      rewrite P. destruct ip; [reflexivity|].
      cbn [exponentOf]. now rewrite E1, E2.
  - cbn [app]. destruct (eqc x ".").
    + rewrite (spanDigits_app_ws r1 w Hw).
      destruct (spanDigits r1) as [fp r2]. cbn [fst snd].
      destruct ip as [|i ip], fp as [|d fp]; try reflexivity;
        now rewrite (exponentOf_app_ws r2 w Hw).
    + destruct ip; [reflexivity|].
      change (x :: r1 ++ w) with ((x :: r1) ++ w).
      now rewrite (exponentOf_app_ws (x :: r1) w Hw).
Qed.

Lemma trimStart_split : forall s,
  exists w, s = w ++ trimStart s /\ forallb isWhiteSpace w = true.
Proof.
  induction s as [|c s IH]; [now exists []|]. cbn [trimStart].
  destruct (isWhiteSpace c) eqn:E.
  - destruct IH as [w [H1 H2]]. exists (c :: w). cbn [app forallb].
    rewrite E, H2. split; [now f_equal|reflexivity].
  - now exists [].
Qed.

Lemma trimStart_idem : forall s, trimStart (trimStart s) = trimStart s.
Proof.
  induction s as [|c s IH]; [reflexivity|]. cbn [trimStart].
  destruct (isWhiteSpace c) eqn:E; [exact IH|]. cbn [trimStart]. now rewrite E.
Qed.

Lemma parseFloat_trimStart : forall s, parseFloat (trimStart s) = parseFloat s.
Proof. intros s. unfold parseFloat. now rewrite trimStart_idem. Qed.

Lemma parseFloat_trim : forall s, parseFloat (trim s) = parseFloat s.
Proof.
  intros s. rewrite <- (parseFloat_trimStart s). unfold trim, trimEnd.
  destruct (trimStart_split (rev (trimStart s))) as [w [H1 H2]].
  apply (f_equal (@rev ascii)) in H1. rewrite rev_involutive, rev_app_distr in H1.
  rewrite H1 at 2. symmetry. apply parseFloat_app_ws.
  rewrite forallb_forall in *. intros x Hx. apply H2. now apply in_rev.
Qed.

Lemma validate_numbers : forall existing b f,
  validate existing b f = true ->
  exists entry sz,
    parseFloat (fd_entryPrice f) = Some entry /\ gt0 (Some entry) = true
    /\ parseFloat (fd_size f) = Some sz /\ gt0 (Some sz) = true.
Proof.
  intros existing b f V. unfold validate in V.
  apply andb_prop in V; destruct V as [V _].
  apply andb_prop in V; destruct V as [V Vs].
  apply andb_prop in V; destruct V as [_ Ve].
  apply negb_true_iff in Ve, Vs.
  destruct (notPositive_false _ Ve) as [e [He Ge]].
  destruct (notPositive_false _ Vs) as [s [Hs Gs]].
  exists e, s. auto.
Qed.

Lemma gt0_orUndefined_eq : forall x, gt0 (orUndefined x) = gt0 x.
Proof.
  intros [q|]; [|reflexivity]. cbn [orUndefined gt0].
  destruct (Qeq_bool q 0) eqn:E; [|reflexivity]. cbn [gt0].
  apply Qeq_bool_iff in E. symmetry. apply negb_false_iff.
  apply Qle_bool_iff. rewrite E. apply Qle_refl.
Qed.

Lemma hasValidExitPrice_gt0 : forall f,
  hasValidExitPrice f = gt0 (orUndefined (parseFloat (fd_exitPrice f))).
Proof.
  intros f. unfold hasValidExitPrice. rewrite gt0_orUndefined_eq.
  destruct (parseFloat (fd_exitPrice f)); reflexivity.
Qed.

Lemma calculatedPnl_closed : forall f entry sz x,
  parseFloat (fd_entryPrice f) = Some entry -> gt0 (Some entry) = true ->
  parseFloat (fd_size f) = Some sz -> gt0 (Some sz) = true ->
  parseFloat (fd_exitPrice f) = Some x -> gt0 (Some x) = true ->
  calculatedPnl f
  = Some (match fd_direction f with
          | Long => (x - entry) * sz
          | Short => (entry - x) * sz
          end).
Proof.
  intros f entry sz x E Ge S Gs X Gx. unfold calculatedPnl.
  now rewrite E, S, X, Ge, Gs, Gx.
Qed.

(** The pnl that a submit stores is the pnl that the form shows.  A new
    closed trade gets it from the ledger, an edited trade that is closed
    carries it, and both are the [Calculated PnL] of the form; an edited
    trade that stays open has none. *)
Theorem stored_pnl_is_the_preview :
  forall (Date_parse : jsstring -> option Z) (b : bool) (f : FormData),
  (forall t,
     handleSubmit Date_parse None b f = OnAddCompleteTrade t ->
     calculatedPnl f = Some (completePnl t)
     /\ forall prev, exists u,
          In u (applyAction (OnAddCompleteTrade t) prev)
          /\ status u = closed /\ pnl u = calculatedPnl f
          /\ date u = i_date t /\ exitPrice u = i_exitPrice t)
  /\ (forall existing t,
        handleSubmit Date_parse (Some existing) b f = OnUpdateTrade t ->
        (status t = closed -> pnl t = calculatedPnl f /\ pnl t <> None)
        /\ (status t = open -> pnl t = None)).
Proof.
  intros dp b f. split.
  - intros t. unfold handleSubmit.
    destruct (validate None b f) eqn:V; cbn [negb]; [|discriminate].
    destruct (validate_numbers None b f V) as [entry [sz [E [Ge [S Gs]]]]].
    destruct (dp (fd_date f)) as [d|]; [|discriminate].
    rewrite E, S.
    destruct (gt0 (orUndefined (parseFloat (fd_exitPrice f)))) eqn:G;
      [|discriminate].
    destruct (gt0_orUndefined _ G) as [x [Hx [Ox Gx]]].
    intros H; inversion H; subst t; clear H.
    assert (C : calculatedPnl f
                = Some (completePnl
                          (mkTradeInput d (fd_asset f) (fd_direction f) entry
                             (orUndefined (parseFloat (fd_exitPrice f))) sz None
                             (fd_journal f) None
                             (orUndefined (parseFloat (fd_stopLoss f)))
                             (orUndefined (parseFloat (fd_takeProfit f)))
                             (Some (fd_leverage f))))).
    { rewrite (calculatedPnl_closed f entry sz x E Ge S Gs Hx Gx).
      unfold completePnl. cbn [i_exitPrice i_direction i_entryPrice i_size].
      rewrite Ox.
      assert (Z0 : Qeq_bool x 0 = false).
      { rewrite Hx in Ox. cbn [orUndefined] in Ox.
        destruct (Qeq_bool x 0); [discriminate|reflexivity]. }
      now rewrite Z0. }
    split; [exact C|].
    intros prev. cbn [applyAction]. unfold handleAddCompleteTrade.
    match goal with
    | |- context [resequence (prev ++ [?n])] =>
        destruct (@In_resequence n (prev ++ [n])) as [k Hk];
          [apply in_or_app; right; now left|];
          exists (withId n k)
    end.
    split; [exact Hk|]. cbn [withId newTrade status pnl date exitPrice i_date
                             i_exitPrice].
    rewrite C. repeat split.
  - intros existing t. unfold handleSubmit.
    destruct (validate (Some existing) b f) eqn:V; cbn [negb]; [|discriminate].
    destruct (validate_numbers _ b f V) as [entry [sz [E [Ge [S Gs]]]]].
    destruct (dp (fd_date f)) as [d|]; [|discriminate].
    rewrite E, S.
    intros H; inversion H; subst t; clear H. cbn [status pnl].
    destruct (gt0 (orUndefined (parseFloat (fd_exitPrice f)))) eqn:G.
    + destruct (gt0_orUndefined _ G) as [x [Hx [Ox Gx]]].
      split; [|discriminate]. intros _. split; [reflexivity|].
      rewrite (calculatedPnl_closed f entry sz x E Ge S Gs Hx Gx).
      discriminate.
    + split; [discriminate|reflexivity].
Qed.

Lemma stored_pnl_is_the_preview_witness :
  calculatedPnl exitForm = Some 10
  /\ exists u,
       perform parseISO (SubmitNew false exitForm) [] = [u]
       /\ pnl u = Some 10.
Proof.
  assert (E : exists t, handleSubmit parseISO None false exitForm
                        = OnAddCompleteTrade t)
    by (eexists; vm_compute; reflexivity).
  destruct E as [t Ht].
  destruct (stored_pnl_is_the_preview parseISO false exitForm) as [H _].
  destruct (H t Ht) as [H1 _].
  split.
  - vm_compute. reflexivity.
  - eexists. split; vm_compute; reflexivity.
Defined.

(** The submit button names what the submit does when the form is valid
    and its date is read.  For a new trade it says [Add Closed Trade] when
    a closed trade is added and [Open Trade] when an open trade is added.
    For an open trade being edited it says [Save & Close Trade] exactly
    when the edit closes the trade; a closed trade being edited stays
    closed. *)
Theorem button_names_the_action :
  forall (Date_parse : jsstring -> option Z) (existingTrade : option Trade)
         (b : bool) (f : FormData),
  validate existingTrade b f = true ->
  Date_parse (fd_date f) <> None ->
  match existingTrade with
  | None =>
      (getSubmitButtonText None f = str "Add Closed Trade"
       /\ exists t, handleSubmit Date_parse None b f = OnAddCompleteTrade t)
      \/ (getSubmitButtonText None f = str "Open Trade"
          /\ exists t, handleSubmit Date_parse None b f = OnOpenTrade t)
  | Some existing =>
      exists t,
        handleSubmit Date_parse existingTrade b f = OnUpdateTrade t
        /\ id t = id existing
        /\ match status existing, status t with
           | open, closed =>
               getSubmitButtonText existingTrade f = str "Save & Close Trade"
           | open, open | closed, closed =>
               getSubmitButtonText existingTrade f = str "Save Changes"
           | closed, open => False
           end
  end.
Proof.
  intros dp existingTrade b f V D.
  destruct (validate_numbers existingTrade b f V) as [entry [sz [E [_ [S _]]]]].
  destruct existingTrade as [existing|];
    unfold handleSubmit, getSubmitButtonText; rewrite V; cbn [negb];
    (destruct (dp (fd_date f)) as [d|]; [|now elim D]);
    rewrite E, S, hasValidExitPrice_gt0.
  - eexists. split; [reflexivity|]. cbn [id status]. split; [reflexivity|].
    destruct (status existing) eqn:St.
    + destruct (gt0 (orUndefined (parseFloat (fd_exitPrice f)))); reflexivity.
    + destruct (gt0 (orUndefined (parseFloat (fd_exitPrice f)))) eqn:G;
        [reflexivity|].
      unfold validate in V. cbn [TradeModal.isClosed] in V. rewrite St in V.
      apply andb_prop in V; destruct V as [_ V]. cbn [orb] in V.
      destruct (trim (fd_exitPrice f)) as [|c r] eqn:T;
        cbn [nonEmpty negb andb] in V; [discriminate|].
      apply negb_true_iff in V. apply notPositive_false in V.
      destruct V as [q [Hq Gq]].
      rewrite gt0_orUndefined_eq, <- parseFloat_trim, T, Hq, Gq in G.
      discriminate.
  - destruct (gt0 (orUndefined (parseFloat (fd_exitPrice f)))).
    + left. split; [reflexivity|]. eexists. reflexivity.
    + right. split; [reflexivity|]. eexists. reflexivity.
Qed.

Lemma button_names_the_action_witness :
  getSubmitButtonText None exitForm = str "Add Closed Trade"
  /\ getSubmitButtonText None blankForm = str "Open Trade".
Proof.
  assert (D : parseISO (str "2024-01-01") <> None)
    by (vm_compute; discriminate).
  destruct (button_names_the_action parseISO None false exitForm eq_refl D)
    as [[H _]|[_ [t Ht]]]; [|vm_compute in Ht; discriminate].
  destruct (button_names_the_action parseISO None false blankForm eq_refl D)
    as [[_ [t Ht]]|[G _]]; [vm_compute in Ht; discriminate|].
  split; assumption.
Defined.

(** ** The rows of a sheet *)

Import SheetReader.

Lemma parseCsvLoop_plain : forall line result currentField,
  occurs dquote line = false ->
  parseCsvLoop line result currentField false
  = result ++ match split GoogleSheetImportModal.isComma line with
              | h :: t => (currentField ++ h) :: t
              | [] => [currentField]
              end.
Proof.
  induction line as [|c line IH]; intros result cur H.
  - cbn [parseCsvLoop split]. now rewrite app_nil_r.
  - cbn [occurs existsb] in H. apply orb_false_iff in H. destruct H as [Hc Hl].
    cbn [parseCsvLoop split].
    assert (Q : eqc c dquote = false).
    { unfold eqc in *. now rewrite Ascii.eqb_sym. }
    rewrite Q.
    change (eqc c ",") with (GoogleSheetImportModal.isComma c).
    destruct (split_cons GoogleSheetImportModal.isComma line) as [h [t Es]].
    destruct (GoogleSheetImportModal.isComma c); cbn [andb negb].
    + rewrite (IH (result ++ [cur]) [] Hl), Es. rewrite <- app_assoc.
      cbn [app]. now rewrite app_nil_r.
    + rewrite (IH result (cur ++ [c]) Hl), Es.
      now rewrite <- app_assoc.
Qed.

(** A line without double quotes is split at its commas: it has one field
    more than it has commas, and joining the fields with commas gives the
    line back. *)
Theorem parseCsvRow_plain : forall line : jsstring,
  occurs dquote line = false ->
  parseCsvRow line = split GoogleSheetImportModal.isComma line
  /\ join (str ",") (parseCsvRow line) = line
  /\ length (parseCsvRow line)
     = S (length (filter GoogleSheetImportModal.isComma line)).
Proof.
  intros line H.
  assert (E : parseCsvRow line = split GoogleSheetImportModal.isComma line).
  { unfold parseCsvRow. rewrite (parseCsvLoop_plain line [] [] H).
    destruct (split_cons GoogleSheetImportModal.isComma line) as [h [t ->]].
    reflexivity. }
  rewrite E. split; [reflexivity|]. split.
  - apply join_split.
  - clear. induction line as [|c line IH]; [reflexivity|].
    cbn [split filter]. destruct (GoogleSheetImportModal.isComma c).
    + cbn [length]. now rewrite IH.
    + destruct (split_cons GoogleSheetImportModal.isComma line) as [h [t Ht]].
      rewrite Ht in *. exact IH.
Qed.

Lemma parseCsvRow_plain_witness :
  parseCsvRow (str "02/01/2024,BTC/USDT,venta,100,90,2") = sampleRow.
Proof.
  destruct (parseCsvRow_plain (str "02/01/2024,BTC/USDT,venta,100,90,2"))
    as [H _]; [reflexivity|].
  rewrite H. reflexivity.
Defined.

Lemma parseCsvLoop_quoted : forall f rest result currentField,
  match rest with c :: _ => eqc c dquote = false | [] => True end ->
  parseCsvLoop
    (flat_map (fun c => if eqc c dquote then [dquote; dquote] else [c]) f
     ++ dquote :: rest) result currentField true
  = parseCsvLoop rest result (currentField ++ f) false.
Proof.
  induction f as [|c f IH]; intros rest result cur H.
  - cbn [flat_map app parseCsvLoop]. rewrite app_nil_r.
    assert (Q : eqc dquote dquote = true) by reflexivity. rewrite Q.
    destruct rest as [|x rest]; [reflexivity|]. rewrite H. reflexivity.
  - cbn [flat_map]. destruct (eqc c dquote) eqn:E.
    + cbn [app parseCsvLoop].
      assert (Q : eqc dquote dquote = true) by reflexivity. rewrite Q.
      cbn [andb]. rewrite (IH rest result (cur ++ [dquote]) H).
      rewrite <- app_assoc. cbn [app].
      apply Ascii.eqb_eq in E. now subst c.
    + cbn [app parseCsvLoop]. rewrite E, andb_false_r.
      rewrite (IH rest result (cur ++ [c]) H). now rewrite <- app_assoc.
Qed.

Lemma parseCsvLoop_line : forall fields f result,
  parseCsvLoop (csvLine (f :: fields)) result [] false
  = result ++ f :: fields.
Proof.
  induction fields as [|g fields IH]; intros f result.
  - unfold csvLine. cbn [map join]. unfold quoteField.
    cbn [parseCsvLoop].
    assert (Q : eqc dquote dquote = true) by reflexivity. rewrite Q.
    set (e := flat_map (fun c => if eqc c dquote then [dquote; dquote] else [c]) f).
    assert (X : parseCsvLoop (e ++ [dquote]) result [] true = result ++ [f]).
    { unfold e. now rewrite (parseCsvLoop_quoted f [] result [] I). }
    destruct (e ++ [dquote]) as [|x r] eqn:Er.
    + destruct e; discriminate.
    + cbn [andb negb]. exact X.
  - unfold csvLine in *. cbn [map]. 
    change (join (str ",") (quoteField f :: quoteField g :: map quoteField fields))
      with (quoteField f ++ str "," ++ join (str ",") (quoteField g :: map quoteField fields)).
    unfold quoteField at 1. cbn [app parseCsvLoop].
    assert (Q : eqc dquote dquote = true) by reflexivity. rewrite Q.
    set (e := flat_map (fun c => if eqc c dquote then [dquote; dquote] else [c]) f).
    set (rest := join (str ",") (quoteField g :: map quoteField fields)) in *.
    assert (X : parseCsvLoop ((e ++ [dquote]) ++ ","%char :: rest) result [] true
                = result ++ f :: g :: fields).
    { rewrite <- app_assoc. cbn [app]. unfold e.
      rewrite (parseCsvLoop_quoted f (","%char :: rest) result []) by reflexivity.
      cbn [app parseCsvLoop].
      assert (Q1 : eqc "," dquote = false) by reflexivity. rewrite Q1.
      assert (Q2 : eqc "," "," = true) by reflexivity. rewrite Q2.
      cbn [andb negb]. unfold rest.
      change (join (str ",") (quoteField g :: map quoteField fields))
        with (join (str ",") (map quoteField (g :: fields))).
      rewrite (IH g (result ++ [f])). now rewrite <- app_assoc. }
    change (str "," ++ rest) with (","%char :: rest).
    destruct ((e ++ [dquote]) ++ ","%char :: rest) as [|x r] eqn:Er.
    + destruct e; discriminate.
    + cbn [andb negb]. exact X.
Qed.

(** Quoted fields are read back as they were: a line of fields written
    between double quotes, with the double quotes inside them doubled and
    commas between them, parses into these fields, whatever commas and
    quotes they hold. *)
Theorem parseCsvRow_quoted : forall fields : list jsstring,
  fields <> [] -> parseCsvRow (csvLine fields) = fields.
Proof.
  intros [|f fields] H; [now elim H|].
  unfold parseCsvRow. apply (parseCsvLoop_line fields f []).
Qed.

Lemma parseCsvRow_quoted_witness :
  parseCsvRow (csvLine [str "1,5"; dquote :: str "x"; []])
  = [str "1,5"; dquote :: str "x"; []].
Proof. apply parseCsvRow_quoted. discriminate. Defined.

(** ** The lines of a sheet and its headers *)

Lemma splitLines_cons : forall text, exists h t, splitLines text = h :: t.
Proof.
  induction text as [|c r IH]; [now exists [], []|]. cbn [splitLines].
  destruct (eqc c (ascii_of_N 10)); [eauto|].
  destruct (eqc c (ascii_of_N 13)
            && match r with d :: _ => eqc d (ascii_of_N 10) | [] => false end);
    [exact IH|].
  destruct IH as [h [t ->]]. eauto.
Qed.

Lemma splitLines_oneLine : forall l, oneLine l -> splitLines l = [l].
Proof.
  unfold oneLine. induction l as [|c l IH]; intros H; [reflexivity|].
  cbn [forallb] in H. apply andb_prop in H. destruct H as [Hc Hl].
  apply negb_true_iff, orb_false_iff in Hc. destruct Hc as [H10 H13].
  cbn [splitLines]. rewrite H10, H13. cbn [andb]. now rewrite (IH Hl).
Qed.

Lemma splitLines_lf : forall l rest,
  oneLine l ->
  splitLines (l ++ ascii_of_N 10 :: rest) = l :: splitLines rest.
Proof.
  unfold oneLine. induction l as [|c l IH]; intros rest H.
  - reflexivity.
  - cbn [forallb] in H. apply andb_prop in H. destruct H as [Hc Hl].
    apply negb_true_iff, orb_false_iff in Hc. destruct Hc as [H10 H13].
    cbn [app splitLines]. rewrite H10, H13. cbn [andb].
    now rewrite (IH rest Hl).
Qed.

Lemma splitLines_crlf : forall l rest,
  oneLine l ->
  splitLines (l ++ ascii_of_N 13 :: ascii_of_N 10 :: rest)
  = l :: splitLines rest.
Proof.
  unfold oneLine. induction l as [|c l IH]; intros rest H.
  - reflexivity.
  - cbn [forallb] in H. apply andb_prop in H. destruct H as [Hc Hl].
    apply negb_true_iff, orb_false_iff in Hc. destruct Hc as [H10 H13].
    cbn [app splitLines]. rewrite H10, H13. cbn [andb].
    now rewrite (IH rest Hl).
Qed.

Lemma splitLines_join : forall (sep : jsstring) ls,
  (forall l rest, oneLine l -> splitLines (l ++ sep ++ rest) = l :: splitLines rest) ->
  ls <> [] -> Forall oneLine ls -> splitLines (join sep ls) = ls.
Proof.
  intros sep ls Hsep. induction ls as [|l ls IH]; intros N H; [now elim N|].
  inversion H as [|a b Hl Hls]; subst.
  destruct ls as [|l' ls].
  - cbn [join]. now apply splitLines_oneLine.
  - change (join sep (l :: l' :: ls)) with (l ++ sep ++ join sep (l' :: ls)).
    rewrite (Hsep l _ Hl). f_equal. apply IH; [discriminate|exact Hls].
Qed.

(** The sheet is read the same with either line ending: lines without a
    carriage return or a line feed, joined by CR LF or by LF alone, are
    split into these lines again, blank lines are dropped, and the sheet
    is refused exactly when fewer than two lines are left. *)
Theorem readSheet_line_endings : forall ls : list jsstring,
  ls <> [] -> Forall oneLine ls ->
  let crlf := [ascii_of_N 13; ascii_of_N 10] in
  let lf := [ascii_of_N 10] in
  let kept := filter (fun line => nonEmpty (trim line)) ls in
  splitLines (join crlf ls) = ls
  /\ splitLines (join lf ls) = ls
  /\ readSheet (join crlf ls) = readSheet (join lf ls)
  /\ (readSheet (join lf ls) = None <-> (length kept < 2)%nat)
  /\ (forall hs rows,
        readSheet (join lf ls) = Some (hs, rows) ->
        hs = map trim (parseCsvRow (hd [] kept))
        /\ rows = map parseCsvRow (tl kept)).
Proof.
  intros ls N H. cbn zeta.
  assert (E1 : splitLines (join [ascii_of_N 13; ascii_of_N 10] ls) = ls).
  { apply splitLines_join; [|exact N|exact H].
    intros l rest Hl. apply (splitLines_crlf l rest Hl). }
  assert (E2 : splitLines (join [ascii_of_N 10] ls) = ls).
  { apply splitLines_join; [|exact N|exact H].
    intros l rest Hl. apply (splitLines_lf l rest Hl). }
  split; [exact E1|]. split; [exact E2|].
  unfold readSheet. rewrite E1, E2. split; [reflexivity|].
  destruct (filter (fun line => nonEmpty (trim line)) ls) as [|a [|b r]];
    cbn [length hd tl].
  - split; [split; [lia|reflexivity]|discriminate].
  - split; [split; [lia|reflexivity]|discriminate].
  - split; [split; [discriminate|lia]|].
    intros hs rows X. inversion X. split; reflexivity.
Qed.

Lemma readSheet_line_endings_witness :
  readSheet (str "Fecha,Par" ++ [ascii_of_N 13; ascii_of_N 10]
             ++ [ascii_of_N 13; ascii_of_N 10]
             ++ str "02/01/2024,BTC/USDT")
  = Some ([str "Fecha"; str "Par"], [[str "02/01/2024"; str "BTC/USDT"]]).
Proof.
  destruct (readSheet_line_endings
              [str "Fecha,Par"; []; str "02/01/2024,BTC/USDT"])
    as [_ [_ [H _]]].
  - discriminate.
  - repeat constructor.
  - cbn zeta in H.
    change (join [ascii_of_N 13; ascii_of_N 10]
              [str "Fecha,Par"; []; str "02/01/2024,BTC/USDT"])
      with (str "Fecha,Par" ++ [ascii_of_N 13; ascii_of_N 10]
            ++ [ascii_of_N 13; ascii_of_N 10] ++ str "02/01/2024,BTC/USDT") in H.
    rewrite H. vm_compute. reflexivity.
Defined.

Lemma eqKey_eq : forall a b, eqKey a b = true <-> a = b.
Proof. intros [] []; split; intros H; try reflexivity; discriminate H. Qed.

Lemma includes_nil : forall sub, sub <> [] -> includes [] sub = false.
Proof. intros [|c sub] H; [now elim H|reflexivity]. Qed.

Lemma keyword_nonempty : forall k, keyword k <> [].
Proof. intros []; discriminate. Qed.

Lemma firstFree_spec : forall mapping lowerHeader keys k,
  firstFree mapping lowerHeader keys = Some k ->
  isMapped mapping k = false /\ includes lowerHeader (keyword k) = true.
Proof.
  intros m lh keys k. induction keys as [|x keys IH]; [discriminate|].
  cbn [firstFree].
  destruct (negb (isMapped m x) && includes lh (keyword x)) eqn:E.
  - intros H; inversion H; subst. apply andb_prop in E. destruct E as [E1 E2].
    now apply negb_true_iff in E1.
  - exact IH.
Qed.

Lemma isValueOf_false : forall (mapping : Mapping) header k,
  isValueOf mapping header = false -> mapping k <> Some header.
Proof.
  intros m header k H E. unfold isValueOf in H.
  assert (X : existsb (fun k0 => match m k0 with
                                 | Some h => streq h header
                                 | None => false
                                 end) allKeys = true).
  { apply existsb_exists. exists k. split.
    - destruct k; cbn; tauto.
    - rewrite E. apply streq_refl. }
  congruence.
Qed.

Lemma autoMapped_mapped : forall seen mapping k h,
  autoMapped seen mapping -> mapping k = Some h -> isMapped mapping k = true.
Proof.
  intros seen m k h [H _] E. unfold isMapped. rewrite E.
  destruct h as [|c h]; [|reflexivity].
  destruct (H k [] E) as [_ I].
  change (trim (toLowerCase [])) with (@nil ascii) in I.
  rewrite (includes_nil _ (keyword_nonempty k)) in I. discriminate.
Qed.

Lemma autoMapStep_keeps : forall seen mapping header,
  autoMapped seen mapping ->
  autoMapped (seen ++ [header]) (autoMapStep mapping header).
Proof.
  intros seen m header A. pose proof A as [A1 A2]. unfold autoMapStep.
  assert (W : autoMapped (seen ++ [header]) m).
  { split; [|exact A2]. intros k h E. destruct (A1 k h E) as [I1 I2].
    split; [apply in_or_app; now left|exact I2]. }
  destruct (isValueOf m header) eqn:V; [exact W|].
  destruct (firstFree m (trim (toLowerCase header)) allKeys) as [k|] eqn:F;
    [|exact W].
  destruct (firstFree_spec _ _ _ _ F) as [F1 F2].
  split.
  - intros k' h. unfold setKey. destruct (eqKey k k') eqn:E.
    + apply eqKey_eq in E. subst k'. intros X; inversion X; subst h.
      split; [apply in_or_app; right; now left|exact F2].
    + intros X. destruct (A1 k' h X) as [I1 I2].
      split; [apply in_or_app; now left|exact I2].
  - intros k1 k2 h. unfold setKey.
    destruct (eqKey k k1) eqn:E1, (eqKey k k2) eqn:E2.
    + apply eqKey_eq in E1, E2. congruence.
    + intros X Y; inversion X; subst h.
      exfalso. exact (isValueOf_false m header k2 V Y).
    + intros X Y; inversion Y; subst h.
      exfalso. exact (isValueOf_false m header k1 V X).
    + apply A2.
Qed.

Lemma autoMap_fold : forall hs seen mapping,
  autoMapped seen mapping ->
  autoMapped (seen ++ hs) (fold_left autoMapStep hs mapping).
Proof.
  induction hs as [|h hs IH]; intros seen m A.
  - now rewrite app_nil_r.
  - cbn [fold_left].
    replace (seen ++ h :: hs) with ((seen ++ [h]) ++ hs)
      by (now rewrite <- app_assoc).
    apply IH. now apply autoMapStep_keeps.
Qed.

(** The headers that [autoMapHeaders] picks: a header mapped to a field is
    one of the headers of the sheet and contains the word of that field,
    case and surrounding blanks apart, and no header is mapped to two
    fields. *)
Theorem autoMapHeaders_sound :
  forall (csvHeaders : list jsstring) (k : MappableFieldKey) (h : jsstring),
  autoMapHeaders csvHeaders k = Some h ->
  In h csvHeaders
  /\ includes (trim (toLowerCase h)) (keyword k) = true
  /\ isMapped (autoMapHeaders csvHeaders) k = true
  /\ forall k', autoMapHeaders csvHeaders k' = Some h -> k' = k.
Proof.
  intros hs k h E.
  assert (A : autoMapped hs (autoMapHeaders hs)).
  { apply (autoMap_fold hs [] (fun _ => None)).
    split; intros; discriminate. }
  pose proof A as [A1 A2]. destruct (A1 k h E) as [I1 I2].
  split; [exact I1|]. split; [exact I2|].
  split; [exact (autoMapped_mapped hs _ k h A E)|].
  intros k' E'. exact (A2 k' k h E' E).
Qed.

(** The titles that the export writes are mapped completely when the
    sheet comes back. *)
Lemma autoMapHeaders_sound_witness :
  In (str "Par") SheetExport.headers
  /\ isMappingValid (autoMapHeaders SheetExport.headers) = true
  /\ map (autoMapHeaders SheetExport.headers) allKeys
     = map (nth_error SheetExport.headers)
         [1; 2; 3; 4; 5; 6; 9; 7; 8; 10; 11]%nat.
Proof.
  assert (E : autoMapHeaders SheetExport.headers k_asset = Some (str "Par"))
    by (vm_compute; reflexivity).
  destruct (autoMapHeaders_sound SheetExport.headers k_asset (str "Par") E)
    as [H _].
  split; [exact H|]. split; vm_compute; reflexivity.
Defined.

(** ** The address of the sheet *)

Import GoogleSheetParser.

Lemma dropPrefix_app : forall p r, dropPrefix p (p ++ r) = Some r.
Proof.
  induction p as [|a p IH]; intros r; [reflexivity|]. cbn [app dropPrefix].
  unfold eqc. now rewrite Ascii.eqb_refl.
Qed.

Lemma dropPrefix_spec : forall p s r, dropPrefix p s = Some r -> s = p ++ r.
Proof.
  induction p as [|a p IH]; intros s r H.
  - cbn in H. now inversion H.
  - destruct s as [|b s]; [discriminate|]. cbn [dropPrefix] in H.
    destruct (eqc a b) eqn:E; [|discriminate].
    apply Ascii.eqb_eq in E. subst b. cbn [app]. f_equal. now apply IH.
Qed.

Lemma spanId_spec : forall s i rest,
  spanId s = (i, rest) -> s = i ++ rest /\ forallb isIdChar i = true.
Proof.
  induction s as [|c s IH]; intros i rest H.
  - cbn in H. inversion H. split; reflexivity.
  - cbn [spanId] in H. destruct (isIdChar c) eqn:E.
    + destruct (spanId s) as [i' rest'] eqn:S. inversion H; subst.
      destruct (IH i' rest eq_refl) as [H1 H2]. cbn [app forallb].
      rewrite E, H2. split; [now f_equal|reflexivity].
    + inversion H. split; reflexivity.
Qed.

Lemma spanId_app : forall i rest,
  forallb isIdChar i = true ->
  match rest with c :: _ => isIdChar c = false | [] => True end ->
  spanId (i ++ rest) = (i, rest).
Proof.
  induction i as [|c i IH]; intros rest Hi Hr.
  - destruct rest as [|x rest]; [reflexivity|]. cbn [app spanId]. now rewrite Hr.
  - cbn [forallb] in Hi. apply andb_prop in Hi. destruct Hi as [Hc Hi].
    cbn [app spanId]. rewrite Hc. now rewrite (IH rest Hi Hr).
Qed.

Lemma matchHere_direct : forall sheetId rest,
  sheetId <> [] -> forallb isIdChar sheetId = true ->
  matchHere (sheetPrefix ++ sheetId ++ "/"%char :: rest) = Some sheetId.
Proof.
  intros i rest N H. unfold matchHere.
  rewrite dropPrefix_app, (spanId_app i ("/"%char :: rest) H eq_refl).
  destruct i; [now elim N|reflexivity].
Qed.

Lemma matchHere_spec : forall s sheetId,
  matchHere s = Some sheetId ->
  sheetId <> [] /\ forallb isIdChar sheetId = true
  /\ exists rest, s = sheetPrefix ++ sheetId ++ "/"%char :: rest.
Proof.
  intros s i. unfold matchHere.
  destruct (dropPrefix sheetPrefix s) as [r|] eqn:D; [|discriminate].
  destruct (spanId r) as [j rest] eqn:S.
  destruct j as [|c j]; [discriminate|].
  destruct rest as [|x rest]; [discriminate|].
  destruct (eqc x "/") eqn:E; [|discriminate].
  intros H; inversion H; subst i.
  apply Ascii.eqb_eq in E. subst x.
  destruct (spanId_spec r _ _ S) as [H1 H2].
  split; [discriminate|]. split; [exact H2|].
  exists rest. rewrite (dropPrefix_spec _ _ _ D), H1. reflexivity.
Qed.

Lemma firstMatch_spec : forall url sheetId,
  firstMatch url = Some sheetId ->
  sheetId <> [] /\ forallb isIdChar sheetId = true
  /\ exists a b, url = a ++ (sheetPrefix ++ sheetId ++ str "/") ++ b.
Proof.
  induction url as [|c url IH]; intros i H.
  - cbn in H. discriminate.
  - cbn [firstMatch] in H.
    destruct (matchHere (c :: url)) as [j|] eqn:M.
    + inversion H; subst j.
      destruct (matchHere_spec _ _ M) as [H1 [H2 [rest H3]]].
      split; [exact H1|]. split; [exact H2|].
      exists [], rest. rewrite H3. cbn [app]. now rewrite <- !app_assoc.
    + destruct (IH i H) as [H1 [H2 [a [b H3]]]].
      split; [exact H1|]. split; [exact H2|].
      exists (c :: a), b. cbn [app]. now f_equal.
Qed.

Lemma firstMatch_direct : forall sheetId rest,
  sheetId <> [] -> forallb isIdChar sheetId = true ->
  firstMatch (sheetPrefix ++ sheetId ++ "/"%char :: rest) = Some sheetId.
Proof.
  intros i rest N H.
  pose proof (matchHere_direct i rest N H) as M.
  destruct (sheetPrefix ++ i ++ "/"%char :: rest) as [|c u] eqn:E.
  - discriminate.
  - cbn [firstMatch]. now rewrite M.
Qed.

(** The address that [getGoogleSheetCsvUrl] returns is made of the id
    that follows the first [https://docs.google.com/spreadsheets/d/] of
    the input that has an id and a [/] after it; the id is not empty and
    made of letters, digits, [_] and [-].  The address returned is itself
    accepted and gives itself. *)
Theorem csvUrl_shape : forall url u : jsstring,
  getGoogleSheetCsvUrl url = Some u ->
  exists sheetId,
    sheetId <> [] /\ forallb isIdChar sheetId = true
    /\ u = sheetPrefix ++ sheetId ++ csvSuffix
    /\ includes url (sheetPrefix ++ sheetId ++ str "/") = true
    /\ getGoogleSheetCsvUrl u = Some u.
Proof.
  intros url u. unfold getGoogleSheetCsvUrl.
  destruct (firstMatch url) as [i|] eqn:F; [|discriminate].
  intros H. apply (f_equal (fun o => match o with Some x => x | None => u end)) in H.
  cbv beta iota in H. subst u.
  destruct (firstMatch_spec url i F) as [H1 [H2 [a [b H3]]]].
  exists i. split; [exact H1|]. split; [exact H2|]. split; [reflexivity|].
  split.
  - apply includes_spec. exists a, b. exact H3.
  - pose proof (firstMatch_direct i
                  (str "gviz/tq?tqx=out:csv&sheet=operaciones") H1 H2) as D.
    change ("/"%char :: str "gviz/tq?tqx=out:csv&sheet=operaciones")
      with csvSuffix in D.
    rewrite D. reflexivity.
Qed.

Lemma csvUrl_shape_witness :
  exists sheetId,
    getGoogleSheetCsvUrl
      (str "see https://docs.google.com/spreadsheets/d/1aB_c-9/edit#gid=0")
    = Some (sheetPrefix ++ sheetId ++ csvSuffix)
    /\ sheetId = str "1aB_c-9".
Proof.
  assert (E : getGoogleSheetCsvUrl
                (str "see https://docs.google.com/spreadsheets/d/1aB_c-9/edit#gid=0")
              = Some (sheetPrefix ++ str "1aB_c-9" ++ csvSuffix))
    by (vm_compute; reflexivity).
  destruct (csvUrl_shape _ _ E) as [i [_ [_ [H _]]]].
  exists (str "1aB_c-9"). split; [exact E|reflexivity].
Defined.

Lemma startsWith_dropPrefix : forall p s,
  startsWith p s = false -> dropPrefix p s = None.
Proof.
  induction p as [|a p IH]; intros s H; [discriminate|].
  destruct s as [|b s]; [reflexivity|]. cbn [startsWith dropPrefix] in *.
  destruct (eqc a b); [now apply IH|reflexivity].
Qed.

(** A sheet address with a proper id gives the CSV address of that id,
    whatever follows the id; an input in which
    [https://docs.google.com/spreadsheets/d/] does not occur, or occurs
    only with nothing or something else than an id and a [/] after it,
    gives nothing. *)
Theorem csvUrl_of_sheet_url :
  (forall sheetId rest : jsstring,
     sheetId <> [] -> forallb isIdChar sheetId = true ->
     getGoogleSheetCsvUrl (sheetPrefix ++ sheetId ++ "/"%char :: rest)
     = Some (sheetPrefix ++ sheetId ++ csvSuffix))
  /\ (forall url : jsstring,
        includes url sheetPrefix = false -> getGoogleSheetCsvUrl url = None)
  /\ (forall url : jsstring,
        (forall sheetId,
           sheetId <> [] -> forallb isIdChar sheetId = true ->
           includes url (sheetPrefix ++ sheetId ++ str "/") = false) ->
        getGoogleSheetCsvUrl url = None).
Proof.
  split; [|split].
  - intros i rest N H. unfold getGoogleSheetCsvUrl.
    now rewrite (firstMatch_direct i rest N H).
  - intros url H. unfold getGoogleSheetCsvUrl.
    assert (F : firstMatch url = None).
    { induction url as [|c url IH].
      - reflexivity.
      - cbn [includes] in H. apply orb_false_iff in H. destruct H as [H1 H2].
        cbn [firstMatch]. unfold matchHere.
        rewrite (startsWith_dropPrefix _ _ H1). now apply IH. }
    now rewrite F.
  - intros url H. unfold getGoogleSheetCsvUrl.
    destruct (firstMatch url) as [i|] eqn:F; [|reflexivity].
    destruct (firstMatch_spec url i F) as [H1 [H2 [a [b H3]]]].
    specialize (H i H1 H2).
    assert (X : includes url (sheetPrefix ++ i ++ str "/") = true).
    { apply includes_spec. exists a, b. exact H3. }
    rewrite X in H. discriminate H.
Qed.

Lemma csvUrl_of_sheet_url_witness :
  getGoogleSheetCsvUrl (sheetPrefix ++ str "1aB_c-9" ++ str "/edit")
  = Some (sheetPrefix ++ str "1aB_c-9" ++ csvSuffix)
  /\ getGoogleSheetCsvUrl (str "docs.google.com/spreadsheets/d/1aB_c-9/edit")
     = None.
Proof.
  destruct csvUrl_of_sheet_url as [H [G _]]. split.
  - apply (H (str "1aB_c-9") (str "edit")); [discriminate|reflexivity].
  - apply G. vm_compute. reflexivity.
Defined.

(** ** The journal of an imported trade and the export *)

Import SheetExport.

Lemma splitOn_cons : forall sep skip s, exists h t, splitOn sep skip s = h :: t.
Proof.
  intros sep skip s. revert skip.
  induction s as [|c s IH]; intros skip; [now exists [], []|].
  cbn [splitOn]. destruct skip as [|k]; [|apply IH].
  destruct (startsWith sep (c :: s)); [eauto|].
  destruct (IH 0%nat) as [h [t ->]]. eauto.
Qed.

Lemma splitOn_skip : forall sep a b,
  splitOn sep (length a) (a ++ b) = splitOn sep 0 b.
Proof.
  intros sep a b. induction a as [|c a IH]; [reflexivity|exact IH].
Qed.

Lemma splitOn_prefix : forall sep a rest,
  noStart sep a rest = true ->
  splitOn sep 0 (a ++ rest)
  = match splitOn sep 0 rest with
    | h :: t => (a ++ h) :: t
    | [] => [a]
    end.
Proof.
  intros sep a rest. induction a as [|c a IH]; intros H.
  - cbn [app]. destruct (splitOn_cons sep 0 rest) as [h [t ->]]. reflexivity.
  - cbn [noStart] in H. apply andb_prop in H. destruct H as [H1 H2].
    apply negb_true_iff in H1. cbn [app splitOn].
    change (c :: a ++ rest) with ((c :: a) ++ rest). rewrite H1.
    rewrite (IH H2).
    destruct (splitOn_cons sep 0 rest) as [h [t ->]]. reflexivity.
Qed.

Lemma splitOn_none : forall sep a,
  noStart sep a [] = true -> splitOn sep 0 a = [a].
Proof.
  intros sep a H. pose proof (splitOn_prefix sep a [] H) as X.
  cbn [splitOn] in X. now rewrite !app_nil_r in X.
Qed.

Lemma splitOn_at_mark : forall sep a b,
  sep <> [] -> noStart sep a (sep ++ b) = true ->
  splitOn sep 0 (a ++ sep ++ b) = a :: splitOn sep 0 b.
Proof.
  intros sep a b N H. rewrite (splitOn_prefix sep a (sep ++ b) H).
  destruct sep as [|x sep]; [now elim N|].
  assert (S : startsWith (x :: sep) ((x :: sep) ++ b) = true).
  { apply startsWith_spec. now exists b. }
  cbn [app] in *. cbn [splitOn]. rewrite S. cbn [length Nat.pred].
  rewrite splitOn_skip. now rewrite app_nil_r.
Qed.

Lemma startsWith_cut : forall p a c b,
  startsWith p a = false -> occurs c p = false ->
  startsWith p (a ++ c :: b) = false.
Proof.
  induction p as [|x p IH]; intros a c b H Hc; [discriminate|].
  cbn [occurs existsb] in Hc. apply orb_false_iff in Hc. destruct Hc as [Hx Hp].
  destruct a as [|y a]; cbn [app startsWith] in *.
  - unfold eqc in *. rewrite Ascii.eqb_sym in Hx. now rewrite Hx.
  - destruct (eqc x y); [|reflexivity]. cbn [andb] in *. now apply IH.
Qed.

Lemma noStart_inside : forall sep a c b,
  includes a sep = false -> occurs c sep = false ->
  noStart sep a (c :: b) = true.
Proof.
  intros sep a c b. induction a as [|y a IH]; intros H Hc; [reflexivity|].
  cbn [includes] in H. apply orb_false_iff in H. destruct H as [H1 H2].
  cbn [noStart]. rewrite (startsWith_cut sep (y :: a) c b H1 Hc).
  cbn [negb andb]. now apply IH.
Qed.

Lemma noStart_end : forall sep a,
  includes a sep = false -> noStart sep a [] = true.
Proof.
  intros sep a. induction a as [|y a IH]; intros H; [reflexivity|].
  cbn [includes] in H. apply orb_false_iff in H. destruct H as [H1 H2].
  cbn [noStart]. rewrite app_nil_r, H1. cbn [negb andb]. now apply IH.
Qed.

Lemma noStart_app : forall sep a b rest,
  noStart sep a (b ++ rest) = true -> noStart sep b rest = true ->
  noStart sep (a ++ b) rest = true.
Proof.
  intros sep a b rest. induction a as [|y a IH]; intros H1 H2; [exact H2|].
  cbn [noStart] in H1. apply andb_prop in H1. destruct H1 as [H1 H3].
  change ((y :: a) ++ b) with (y :: a ++ b). cbn [noStart].
  change (y :: a ++ b) with ((y :: a) ++ b).
  rewrite <- app_assoc, H1. cbn [andb]. now apply IH.
Qed.

(** A text none of whose code units is the first one of [sep]. *)
Lemma noStart_letters : forall x sep a rest,
  occurs x a = false -> noStart (x :: sep) a rest = true.
Proof.
  intros x sep a rest. induction a as [|y a IH]; intros H; [reflexivity|].
  cbn [occurs existsb] in H. apply orb_false_iff in H. destruct H as [H1 H2].
  cbn [noStart app startsWith]. rewrite H1. cbn [andb negb]. now apply IH.
Qed.

Lemma trimStart_ws : forall w s,
  forallb isWhiteSpace w = true -> trimStart (w ++ s) = trimStart s.
Proof.
  induction w as [|c w IH]; intros s H; [reflexivity|].
  cbn [forallb] in H. apply andb_prop in H. destruct H as [Hc Hw].
  cbn [app trimStart]. rewrite Hc. now apply IH.
Qed.

Lemma trimEnd_ws : forall w s,
  forallb isWhiteSpace w = true -> trimEnd (s ++ w) = trimEnd s.
Proof.
  intros w s H. unfold trimEnd. rewrite rev_app_distr. f_equal.
  apply trimStart_ws. rewrite forallb_forall in *.
  intros x Hx. apply H. now apply in_rev.
Qed.

Lemma trimStart_head : forall s,
  match trimStart s with c :: _ => isWhiteSpace c = false | [] => True end.
Proof.
  induction s as [|c s IH]; [exact I|]. cbn [trimStart].
  destruct (isWhiteSpace c) eqn:E; [exact IH|exact E].
Qed.

Lemma trimStart_fixed : forall s,
  match s with c :: _ => isWhiteSpace c = false | [] => True end ->
  trimStart s = s.
Proof. intros [|c s] H; [reflexivity|]. cbn [trimStart]. now rewrite H. Qed.

Lemma trimEnd_prefix : forall u,
  exists w, u = trimEnd u ++ w /\ forallb isWhiteSpace w = true.
Proof.
  intros u. unfold trimEnd.
  destruct (trimStart_split (rev u)) as [w [H1 H2]].
  exists (rev w). split.
  - apply (f_equal (@rev ascii)) in H1.
    now rewrite rev_involutive, rev_app_distr in H1.
  - rewrite forallb_forall in *. intros x Hx. apply H2. now apply in_rev.
Qed.

Lemma trim_head : forall s,
  match trim s with c :: _ => isWhiteSpace c = false | [] => True end.
Proof.
  intros s. unfold trim. pose proof (trimStart_head s) as H.
  destruct (trimEnd_prefix (trimStart s)) as [w [E _]].
  destruct (trimEnd (trimStart s)) as [|c e]; [exact I|].
  rewrite E in H. exact H.
Qed.

Lemma trimEnd_trim : forall s, trimEnd (trim s) = trim s.
Proof.
  intros s. unfold trim, trimEnd. rewrite rev_involutive. f_equal.
  apply trimStart_idem.
Qed.

(** White space around a trimmed text is what [trim] takes away. *)
Lemma trim_padded : forall w1 w2 s,
  forallb isWhiteSpace w1 = true -> forallb isWhiteSpace w2 = true ->
  trim (w1 ++ trim s ++ w2) = trim s.
Proof.
  intros w1 w2 s H1 H2. unfold trim at 1. rewrite (trimStart_ws w1 _ H1).
  rewrite (trimStart_app_ws (trim s) w2 H2).
  rewrite (trimStart_fixed (trim s) (trim_head s)).
  destruct (trim s) as [|c r] eqn:E; [reflexivity|].
  rewrite (trimEnd_ws w2 (c :: r) H2). rewrite <- E. apply trimEnd_trim.
Qed.

Lemma removeFirst_here : forall pat s,
  removeFirst pat (pat ++ s) = s.
Proof.
  intros pat s.
  assert (S : startsWith pat (pat ++ s) = true)
    by (apply startsWith_spec; now exists s).
  destruct (pat ++ s) as [|c r] eqn:E.
  - destruct pat; [|discriminate]. cbn in E. subst s. reflexivity.
  - cbn [removeFirst]. rewrite S. rewrite <- E.
    rewrite skipn_app, skipn_all, Nat.sub_diag. reflexivity.
Qed.

(** The cells that the export writes for a trade that the import made
    give back the two cells that the import read, trimmed, as long as
    neither holds the words [Notas adicionales:]. *)
Theorem journal_cells_round_trip :
  forall (justificacion notas : option jsstring) (t : Trade),
  journal t = journalOf justificacion notas ->
  includes (trimmed justificacion) notasMark = false ->
  includes (trimmed notas) notasMark = false ->
  journalCells t = (trimmed justificacion, trimmed notas).
Proof.
  intros justificacion notas t Hj HJ HN. unfold journalCells. rewrite Hj.
  unfold journalOf.
  assert (TJ : exists x, trimmed justificacion = trim x).
  { destruct justificacion as [x|]; [now exists x|now exists []]. }
  assert (TN : exists y, trimmed notas = trim y).
  { destruct notas as [y|]; [now exists y|now exists []]. }
  destruct TJ as [x EJ], TN as [y EN].
  set (J := trimmed justificacion) in *. set (N := trimmed notas) in *.
  change (str "Justificaci" ++ [ascii_of_N 243] ++ str "n t" ++ [ascii_of_N 233]
          ++ str "cnica: " ++ J)
    with (justificacionMark ++ " "%char :: J).
  change (str "Notas adicionales: " ++ N) with (notasMark ++ " "%char :: N).
  assert (NL : occurs (ascii_of_N 10) notasMark = false) by reflexivity.
  assert (SP : noStart notasMark (" "%char :: N) [] = true).
  { apply (noStart_app notasMark [" "%char] N []); [reflexivity|].
    now apply noStart_end. }
  assert (PN : splitOn notasMark 0 (" "%char :: N) = [" "%char :: N]).
  { exact (splitOn_none notasMark (" "%char :: N) SP). }
  assert (TrN : trim (" "%char :: N) = N).
  { pose proof (trim_padded [" "%char] [] y eq_refl eq_refl) as X.
    rewrite app_nil_r, <- EN in X. exact X. }
  destruct J as [|cj J'] eqn:EJ'; cbn [nonEmpty].
  - destruct N as [|cn N'] eqn:EN'; cbn [nonEmpty app].
    + reflexivity.
    + rewrite <- EN' in *.
      pose proof (splitOn_at_mark notasMark [] (" "%char :: N)) as X.
      cbn [app] in X. rewrite X; [|discriminate|reflexivity].
      rewrite PN. cbn [nth]. now rewrite TrN.
  - rewrite <- EJ' in *. clear EJ'.
    assert (NJ : noStart notasMark (justificacionMark ++ " "%char :: J)
                   [] = true).
    { apply noStart_app; [apply noStart_letters; reflexivity|].
      apply (noStart_app notasMark [" "%char] J []); [reflexivity|].
      now apply noStart_end. }
    assert (TrJ : forall w, forallb isWhiteSpace w = true ->
                    trim (" "%char :: J ++ w) = J).
    { intros w Hw.
      pose proof (trim_padded [" "%char] w x eq_refl Hw) as X.
      rewrite <- EJ in X. exact X. }
    destruct N as [|cn N'] eqn:EN'; cbn [nonEmpty].
    + rewrite (splitOn_none notasMark _ NJ). cbn [nth].
      rewrite removeFirst_here.
      pose proof (TrJ [] eq_refl) as Y. rewrite app_nil_r in Y.
      now rewrite Y.
    + rewrite <- EN' in *.
      destruct (justificacionMark ++ " "%char :: J) as [|c0 r0] eqn:E0;
        [destruct justificacionMark; discriminate|].
      cbn [nonEmpty]. rewrite <- E0 in *. clear E0 c0 r0.
      set (A := (justificacionMark ++ " "%char :: J)
                ++ [ascii_of_N 10; ascii_of_N 10]).
      assert (NA : noStart notasMark A (notasMark ++ " "%char :: N) = true).
      { unfold A. apply noStart_app; [|reflexivity].
        apply noStart_app; [apply noStart_letters; reflexivity|].
        apply (noStart_app notasMark [" "%char] J); [reflexivity|].
        apply (noStart_inside notasMark J (ascii_of_N 10)); assumption. }
      rewrite (splitOn_at_mark notasMark A (" "%char :: N)
                 ltac:(discriminate) NA).
      rewrite PN. cbn [nth]. rewrite TrN. f_equal.
      unfold A. rewrite <- app_assoc, removeFirst_here.
      change ((" "%char :: J) ++ [ascii_of_N 10; ascii_of_N 10])
        with (" "%char :: J ++ [ascii_of_N 10; ascii_of_N 10]).
      now apply TrJ.
Qed.

Lemma journal_cells_round_trip_witness :
  journalCells
    (mkTrade 1 day_2024_01_01 (str "ETH/USDT") Long 100 None 1 None
       (journalOf (Some (str " breakout ")) (Some (str "late entry ")))
       open None None None None)
  = (str "breakout", str "late entry").
Proof.
  apply (journal_cells_round_trip (Some (str " breakout "))
           (Some (str "late entry "))); vm_compute; reflexivity.
Defined.

(** ** The ledger written to the local storage and read back *)

Import Storage.

Lemma toISOString_nonEmpty : forall t, App.nonEmpty (toISOString t) = true.
Proof.
  intros t.
  assert (L : (0 < length (toISOString t))%nat).
  { unfold toISOString. destruct (civilFromDays (t / msPerDay)) as [[y m] d].
    rewrite length_app, length_app. cbn [str length list_ascii_of_string]. lia. }
  destruct (toISOString t); [cbn in L; lia|reflexivity].
Qed.

Lemma filter_saved : forall l, filter hasDate (saveTrades l) = saveTrades l.
Proof.
  induction l as [|t l IH]; [reflexivity|].
  cbn [saveTrades map filter hasDate st_date].
  rewrite toISOString_nonEmpty. f_equal. exact IH.
Qed.

Lemma timed_saved : forall Date_parse l,
  (forall t, In t l -> Date_parse (toISOString (date t)) = Some (date t)) ->
  timed Date_parse (saveTrades l)
  = Some (map (fun t => (date t,
                         mkStoredTrade (Some (toISOString (date t)))
                           (Some (status t)) t)) l).
Proof.
  intros dp l. induction l as [|t l IH]; intros H; [reflexivity|].
  cbn [saveTrades map timed st_date].
  rewrite (H t (or_introl eq_refl)).
  unfold saveTrades in IH. rewrite IH by (intros; apply H; now right).
  reflexivity.
Qed.

Lemma sortInsert_map : forall (A B : Type) (g : A -> B) cmpA cmpB,
  (forall a b, cmpB (g a) (g b) = cmpA a b) ->
  forall x l, sortInsert cmpB (g x) (map g l) = map g (sortInsert cmpA x l).
Proof.
  intros A B g cmpA cmpB E x l. induction l as [|y l IH]; [reflexivity|].
  cbn [map sortInsert]. rewrite E.
  destruct (cmpA x y <=? 0)%Z; [reflexivity|]. cbn [map]. now rewrite IH.
Qed.

Lemma sort_map : forall (A B : Type) (g : A -> B) cmpA cmpB,
  (forall a b, cmpB (g a) (g b) = cmpA a b) ->
  forall l, sort cmpB (map g l) = map g (sort cmpA l).
Proof.
  intros A B g cmpA cmpB E l. induction l as [|x l IH]; [reflexivity|].
  cbn [map sort]. rewrite IH. now apply sortInsert_map.
Qed.

Lemma mapi_from_map : forall (A B C : Type) (g : A -> B) (f : B -> Z -> C)
    (h : A -> Z -> C),
  (forall a i, f (g a) i = h a i) ->
  forall l i, mapi_from f i (map g l) = mapi_from h i l.
Proof.
  intros A B C g f h E l. induction l as [|x l IH]; intros i; [reflexivity|].
  cbn [map mapi_from]. now rewrite E, IH.
Qed.

(** What the application reads from the local storage after it wrote the
    ledger there is the ledger sorted by date and numbered from one; a
    ledger that is already so comes back unchanged. *)
Theorem storage_round_trip :
  forall (Date_parse : jsstring -> option Z) (trades : list Trade),
  (forall t, In t trades ->
     Date_parse (toISOString (date t)) = Some (date t)) ->
  loadTrades Date_parse (saveTrades trades) = Some (App.resequence trades)
  /\ (positional trades ->
      loadTrades Date_parse (saveTrades trades) = Some trades).
Proof.
  intros dp l H.
  assert (R : loadTrades dp (saveTrades l) = Some (App.resequence l)).
  { unfold loadTrades. rewrite filter_saved, (timed_saved dp l H).
    rewrite (sort_map _ _ _ App.byDate (fun a b => (fst a - fst b)%Z))
      by reflexivity.
    unfold App.resequence, App.renumber, mapi. f_equal.
    apply mapi_from_map. intros [] i. reflexivity. }
  split; [exact R|].
  intros [P _]. rewrite R. f_equal. exact P.
Qed.

Lemma storage_round_trip_witness :
  loadTrades parseISO (saveTrades losingLedger) = Some losingLedger.
Proof.
  apply (storage_round_trip parseISO losingLedger).
  - intros t Ht. apply parseISO_toISOString.
    vm_compute in Ht. decompose [or] Ht; try contradiction; subst t;
      vm_compute; discriminate.
  - split; vm_compute; reflexivity.
Defined.

(** ** The trades of an audit *)

Import AiAudit.

Lemma handleRunAudit_checked : forall Date_parse endOfDay allTrades selection ts,
  selectTrades Date_parse endOfDay allTrades selection = inr ts ->
  (1 <= length ts <= 200)%nat ->
  handleRunAudit Date_parse endOfDay allTrades selection
  = inr (Z.of_nat (length ts), ts).
Proof.
  intros dp eod l s ts E B. unfold handleRunAudit. rewrite E.
  destruct ts as [|t ts]; [cbn in B; lia|].
  destruct (Nat.ltb_spec 200 (length (t :: ts))); [lia|reflexivity].
Qed.

(** An audit that runs has between 1 and 200 trades, the number that its
    parameters record, and each of them is a trade of the ledger. *)
Theorem audit_size_bounds :
  forall Date_parse endOfDay allTrades selection tradeCount tradesToAudit,
  handleRunAudit Date_parse endOfDay allTrades selection
  = inr (tradeCount, tradesToAudit) ->
  tradeCount = Z.of_nat (length tradesToAudit)
  /\ (1 <= tradeCount <= 200)%Z
  /\ incl tradesToAudit allTrades.
Proof.
  intros dp eod l s n ts H. unfold handleRunAudit in H.
  destruct (selectTrades dp eod l s) as [e|sel] eqn:E; [discriminate|].
  destruct sel as [|t sel]; [discriminate|].
  destruct (Nat.ltb_spec 200 (length (t :: sel))) as [G|G]; [discriminate|].
  injection H as <- <-. split; [reflexivity|]. split; [cbn [length] in *; lia|].
  intros x Hx. destruct s as [k|sd ed|a b]; cbn [selectTrades] in E.
  - injection E as E. unfold sliceLast in E.
    rewrite <- (firstn_skipn (Z.to_nat
      (if (- k <? 0)%Z then Z.max (Z.of_nat (length l) + - k) 0
       else Z.min (- k) (Z.of_nat (length l)))) l).
    apply in_or_app. right. rewrite E. exact Hx.
  - destruct (negb (App.nonEmpty sd) || negb (App.nonEmpty ed));
      [discriminate|].
    injection E as E. destruct (dp sd), (dp ed); try discriminate.
    rewrite <- E in Hx. now apply filter_In in Hx.
  - destruct (b <? a)%Z; [discriminate|]. injection E as E.
    rewrite <- E in Hx. now apply filter_In in Hx.
Qed.

Lemma audit_size_bounds_witness :
  exists tradesToAudit,
    handleRunAudit parseISO (fun t => t + msPerDay - 1)%Z losingLedger
      (dateRange (str "2024-01-02") (str "2024-01-03"))
    = inr (2%Z, tradesToAudit)
    /\ map id tradesToAudit = [2; 3]%Z
    /\ incl tradesToAudit losingLedger.
Proof.
  eexists. split; [vm_compute; reflexivity|]. split; [reflexivity|].
  refine (proj2 (proj2 (audit_size_bounds parseISO (fun t => t + msPerDay - 1)%Z
     losingLedger (dateRange (str "2024-01-02") (str "2024-01-03")) 2%Z _ _))).
  vm_compute. reflexivity.
Defined.

(** The audit of the last [n] trades, for [n] between 1 and 200 and a
    ledger that is not empty, takes the trades at the end of the ledger:
    [n] of them, or all when the ledger has fewer. *)
Theorem audit_last_n :
  forall Date_parse endOfDay (allTrades : list Trade) (n : Z),
  (1 <= n <= 200)%Z -> allTrades <> [] ->
  exists before tradesToAudit,
    allTrades = before ++ tradesToAudit
    /\ Z.of_nat (length tradesToAudit)
       = Z.min n (Z.of_nat (length allTrades))
    /\ handleRunAudit Date_parse endOfDay allTrades (lastN n)
       = inr (Z.of_nat (length tradesToAudit), tradesToAudit).
Proof.
  intros dp eod l n B N.
  assert (L : (1 <= length l)%nat) by (destruct l; [now elim N|cbn; lia]).
  set (k := Z.to_nat (Z.max (Z.of_nat (length l) + - n) 0)).
  assert (S : sliceLast n l = skipn k l).
  { unfold sliceLast. destruct (Z.ltb_spec (- n) 0); [reflexivity|lia]. }
  assert (LS : length (skipn k l) = (length l - k)%nat) by apply length_skipn.
  exists (firstn k l), (skipn k l). split; [now rewrite firstn_skipn|].
  split; [rewrite LS; unfold k; lia|].
  apply handleRunAudit_checked; [cbn [selectTrades]; now rewrite S|].
  rewrite LS. unfold k. lia.
Qed.

Lemma audit_last_n_witness :
  exists before tradesToAudit,
    losingLedger = before ++ tradesToAudit
    /\ Z.of_nat (length tradesToAudit) = 2%Z
    /\ handleRunAudit parseISO (fun t => t) losingLedger (lastN 2)
       = inr (Z.of_nat (length tradesToAudit), tradesToAudit).
Proof.
  apply (audit_last_n parseISO (fun t => t) losingLedger 2);
    [lia|discriminate].
Defined.

(** On a ledger numbered by position, the audit of the ids from [startId]
    to [endId] takes the trades at these positions, up to the end of the
    ledger; it is refused when the range is reversed, starts after the
    last trade or holds more than 200 trades. *)
Theorem audit_id_range :
  forall Date_parse endOfDay (allTrades : list Trade) (startId endId : Z),
  positional allTrades -> (1 <= startId)%Z ->
  let len := Z.of_nat (length allTrades) in
  let count := (Z.min endId len - startId + 1)%Z in
  handleRunAudit Date_parse endOfDay allTrades (idRange startId endId)
  = if (endId <? startId)%Z then inl StartAfterEnd
    else if (len <? startId)%Z then inl NoTrades
    else if (200 <? count)%Z then inl TooManyTrades
    else inr (count,
              skipn (Z.to_nat (startId - 1))
                (firstn (Z.to_nat endId) allTrades)).
Proof.
  intros dp eod l a b [_ P] A len count.
  unfold handleRunAudit. cbn [selectTrades].
  destruct (Z.ltb_spec b a) as [R|R]; [reflexivity|].
  pose proof (filter_id_range l 0 a b P) as F.
  change (Z.of_nat 0) with 0%Z in F. rewrite !Z.sub_0_r in F. rewrite F.
  set (ts := skipn (Z.to_nat (a - 1)) (firstn (Z.to_nat b) l)).
  assert (LT : Z.of_nat (length ts) = Z.max 0 count).
  { unfold ts. rewrite length_skipn, length_firstn. unfold count, len. lia. }
  destruct (Z.ltb_spec len a) as [E|E].
  - destruct ts; [reflexivity|]. cbn [length] in LT. unfold count in LT. lia.
  - assert (C : (1 <= count)%Z) by (unfold count; lia).
    destruct ts as [|t ts'] eqn:Ets; [cbn [length] in LT; lia|].
    rewrite <- Ets in *.
    destruct (Z.ltb_spec 200 count) as [G|G];
      destruct (Nat.ltb_spec 200 (length ts)) as [G'|G']; try lia.
    + reflexivity.
    + do 2 f_equal. lia.
Qed.

Lemma audit_id_range_witness :
  handleRunAudit parseISO (fun t => t) losingLedger (idRange 2 9)
  = inr (2%Z, skipn 1 losingLedger)
  /\ handleRunAudit parseISO (fun t => t) losingLedger (idRange 4 9)
     = inl NoTrades.
Proof.
  split.
  - refine (eq_trans (audit_id_range parseISO (fun t => t) losingLedger 2 9
                        _ _) _);
      [split; vm_compute; reflexivity|lia|vm_compute; reflexivity].
  - vm_compute. reflexivity.
Defined.

(** ** The text of the id filter *)

Lemma dashFree_occurs : forall s, dashFree s <-> occurs "-" s = false.
Proof.
  unfold dashFree, occurs. induction s as [|c s IH]; cbn [forallb existsb].
  - tauto.
  - destruct (eqc "-" c); cbn [negb andb orb]; [split; discriminate|exact IH].
Qed.

Lemma split_free : forall sep f,
  forallb (fun c => negb (sep c)) f = true -> split sep f = [f].
Proof.
  intros sep f. induction f as [|c f IH]; cbn [forallb split]; intros H.
  - reflexivity.
  - apply andb_prop in H. destruct H as [H1 H2].
    apply negb_true_iff in H1. now rewrite H1, (IH H2).
Qed.

Lemma split_at : forall sep f c rest,
  forallb (fun c => negb (sep c)) f = true -> sep c = true ->
  split sep (f ++ c :: rest) = f :: split sep rest.
Proof.
  intros sep f c rest. induction f as [|x f IH]; cbn [forallb app split];
    intros H Hc.
  - now rewrite Hc.
  - apply andb_prop in H. destruct H as [H1 H2].
    apply negb_true_iff in H1. now rewrite H1, (IH H2 Hc).
Qed.

Lemma rangeText_split : forall text p0 p1,
  rangeText text p0 p1 ->
  occurs "-" text = true
  /\ exists more, split (eqc "-") text = p0 :: p1 :: more.
Proof.
  intros text p0 p1 [F0 [F1 [tail [E T]]]]. subst text. split.
  - unfold occurs. rewrite existsb_app. cbn [existsb].
    change (eqc "-" "-") with true. cbn [orb]. apply orb_true_r.
  - rewrite (split_at (eqc "-") p0 "-"%char (p1 ++ tail) F0 eq_refl).
    destruct T as [->|[r ->]].
    + rewrite app_nil_r, (split_free (eqc "-") p1 F1). now exists [].
    + rewrite (split_at (eqc "-") p1 "-"%char r F1 eq_refl). eauto.
Qed.

Lemma cut_at_dash : forall s,
  dashFree s
  \/ exists a b, s = a ++ "-"%char :: b /\ dashFree a.
Proof.
  unfold dashFree. induction s as [|c s IH]; [now left|].
  destruct (eqc "-" c) eqn:E.
  - right. apply Ascii.eqb_eq in E. subst c. now exists [], s.
  - destruct IH as [F|[a [b [-> F]]]].
    + left. cbn [forallb]. now rewrite E, F.
    + right. exists (c :: a), b. split; [reflexivity|].
      cbn [forallb]. now rewrite E, F.
Qed.

Lemma text_cases : forall text,
  dashFree text \/ exists p0 p1, rangeText text p0 p1.
Proof.
  intros text. destruct (cut_at_dash text) as [F|[p0 [b [-> F0]]]];
    [now left|right].
  destruct (cut_at_dash b) as [F|[p1 [r [-> F1]]]].
  - exists p0, b. repeat split; try assumption.
    exists []. rewrite app_nil_r. auto.
  - exists p0, p1. repeat split; try assumption.
    exists ("-"%char :: r). eauto.
Qed.

Lemma spanDigits_spec : forall s,
  s = fst (spanDigits s) ++ snd (spanDigits s)
  /\ match snd (spanDigits s) with
     | c :: _ => isDigit c = false
     | [] => True
     end.
Proof.
  induction s as [|c s IH]; cbn [spanDigits]; [now split|].
  destruct (isDigit c) eqn:E.
  - destruct (spanDigits s) as [ds rest]. cbn [fst snd app] in *.
    destruct IH as [H1 H2]. split; [now f_equal|exact H2].
  - cbn [fst snd app]. now split.
Qed.

Lemma parseInt_integer : forall part ds,
  startsWithInteger part ds -> parseInt part = Some (digitsVal ds).
Proof.
  intros part ds [N [D [ws [sg [rest [-> [W [S R]]]]]]]].
  unfold parseInt. rewrite (trimStart_ws ws _ W).
  destruct ds as [|d ds']; [now elim N|].
  assert (Hd : isDigit d = true).
  { unfold digits in D. cbn [forallb] in D. now apply andb_prop in D. }
  destruct (digit_classes _ Hd) as [Hw [_ [_ [_ [Hm Hp]]]]].
  assert (E : signOf (trimStart (sg ++ (d :: ds') ++ rest))
              = (1%Z, (d :: ds') ++ rest)).
  { destruct S as [->| ->]; cbn [app trimStart].
    - rewrite Hw. cbn [signOf]. now rewrite Hm, Hp.
    - reflexivity. }
  rewrite E, (@spanDigits_digits (d :: ds') rest D R).
  now rewrite Z.mul_1_l.
Qed.

Lemma parseInt_noInteger : forall part,
  dashFree part -> startsWithNoInteger part -> parseInt part = None.
Proof.
  intros part F [ws [sg [rest [-> [W [S R]]]]]].
  unfold parseInt. rewrite (trimStart_ws ws _ W).
  destruct S as [->| ->]; cbn [app].
  - destruct rest as [|c r]; [reflexivity|].
    destruct R as [Hd R]. destruct (R eq_refl) as [Hw Hp].
    cbn [trimStart]. rewrite Hw.
    assert (Hm : eqc c "-" = false).
    { unfold dashFree in F. rewrite forallb_app in F.
      apply andb_prop in F. destruct F as [_ F]. cbn [app forallb] in F.
      apply andb_prop in F. destruct F as [F _].
      apply negb_true_iff in F. unfold eqc in *.
      now rewrite Ascii.eqb_sym. }
    assert (Hq : eqc c "+" = false).
    { unfold eqc. apply Ascii.eqb_neq. exact Hp. }
    assert (E : signOf (c :: r) = (1%Z, c :: r)).
    { cbn [signOf]. now rewrite Hm, Hq. }
    rewrite E. cbn [spanDigits]. now rewrite Hd.
  - change (trimStart ("+"%char :: rest)) with ("+"%char :: rest).
    change (signOf ("+"%char :: rest)) with (1%Z, rest).
    destruct rest as [|c r]; [reflexivity|].
    destruct R as [Hd _]. cbn [spanDigits]. now rewrite Hd.
Qed.

Lemma integer_or_not : forall part,
  (exists ds, startsWithInteger part ds) \/ startsWithNoInteger part.
Proof.
  intros part. destruct (trimStart_split part) as [ws [E W]].
  pose proof (trimStart_head part) as H. rewrite E.
  assert (G : forall sg t,
            (sg = [] \/ sg = ["+"%char]) ->
            (sg = [] ->
             match t with
             | c :: _ => isWhiteSpace c = false /\ c <> "+"%char
             | [] => True
             end) ->
            (exists ds, startsWithInteger (ws ++ sg ++ t) ds)
            \/ startsWithNoInteger (ws ++ sg ++ t)).
  { intros sg t S T. destruct (spanDigits_spec t) as [Et Rt].
    pose proof (spanDigits_fst t) as Dt.
    destruct (spanDigits t) as [ds rest]. cbn [fst snd] in *.
    destruct ds as [|d ds'].
    - right. exists ws, sg, t. repeat split; try assumption.
      cbn [app] in Et. subst rest. destruct t as [|c r]; [exact I|].
      split; [exact Rt|]. intros Hs. exact (T Hs).
    - left. exists (d :: ds'). split; [discriminate|]. split; [exact Dt|].
      exists ws, sg, rest. rewrite Et. repeat split; assumption. }
  destruct (trimStart part) as [|c r].
  - apply (G [] []); [now left|intros _; exact I].
  - destruct (eqc c "+") eqn:P.
    + apply Ascii.eqb_eq in P. subst c.
      apply (G ["+"%char] r); [now right|discriminate].
    + apply (G [] (c :: r)); [now left|]. intros _. split; [exact H|].
      now apply Ascii.eqb_neq.
Qed.

Lemma filter_one_id : forall n (l : list Trade),
  filter (fun t => (n <=? id t)%Z && (id t <=? n)%Z) l
  = filter (fun t => (id t =? n)%Z) l.
Proof.
  intros n l. apply filter_ext. intros t.
  destruct (Z.eqb_spec (id t) n) as [->|N].
  - now rewrite Z.leb_refl.
  - destruct (Z.leb_spec n (id t)), (Z.leb_spec (id t) n);
      try reflexivity. lia.
Qed.

Lemma idBounds_single : forall text,
  dashFree text ->
  idBounds text
  = match parseInt text with Some n => Some (n, n) | None => None end.
Proof.
  intros text F. unfold idBounds.
  now rewrite (proj1 (dashFree_occurs text) F).
Qed.

Lemma idBounds_range : forall text p0 p1,
  rangeText text p0 p1 ->
  idBounds text
  = match parseInt p0, parseInt p1 with
    | Some a, Some b => if (a <=? b)%Z then Some (a, b) else None
    | _, _ => None
    end.
Proof.
  intros text p0 p1 R. destruct (rangeText_split text p0 p1 R) as [O [more E]].
  unfold idBounds. now rewrite O, E.
Qed.

Lemma rangeText_nonblank : forall text p0 p1,
  rangeText text p0 p1 -> text <> [].
Proof.
  intros text p0 p1 [_ [_ [tail [-> _]]]]. now destruct p0.
Qed.

Lemma startsWithInteger_nonblank : forall text ds,
  startsWithInteger text ds -> text <> [].
Proof.
  intros text ds [N [_ [ws [sg [rest [-> _]]]]]] E.
  apply app_eq_nil in E. destruct E as [_ E].
  apply app_eq_nil in E. destruct E as [_ E].
  apply app_eq_nil in E. destruct E as [E _]. contradiction.
Qed.

(** C5, as the code has it.  With a non-blank id filter the other fields
    of the filter are not read, and the text decides.  A text without a
    minus sign that starts with an integer gives the trades with that id.
    A text with a minus sign is read by its first two parts: when both
    start with an integer and the first is not above the second, it gives
    the trades whose id lies between them, both ends included, and when
    the first is above the second it gives none.  A part that starts with
    no integer gives the empty list, never the whole ledger; every text
    falls under one of these cases.  On a ledger of ten trades the filter
    "4-19" gives the seven trades numbered 4 to 10, and "abc" and "19-4"
    give none. *)
Theorem C5_id_filter : forall (Date_parse : jsstring -> option Z)
    (trades : list Trade),
  (forall filters ds,
     dashFree (trim (tradeId filters)) ->
     startsWithInteger (trim (tradeId filters)) ds ->
     filteredTrades Date_parse trades filters
     = filter (fun t => (id t =? digitsVal ds)%Z) trades)
  /\ (forall filters,
        trim (tradeId filters) <> [] ->
        dashFree (trim (tradeId filters)) ->
        startsWithNoInteger (trim (tradeId filters)) ->
        filteredTrades Date_parse trades filters = [])
  /\ (forall filters p0 p1 ds0 ds1,
        rangeText (trim (tradeId filters)) p0 p1 ->
        startsWithInteger p0 ds0 -> startsWithInteger p1 ds1 ->
        filteredTrades Date_parse trades filters
        = if (digitsVal ds0 <=? digitsVal ds1)%Z
          then filter (fun t => (digitsVal ds0 <=? id t)%Z
                                && (id t <=? digitsVal ds1)%Z) trades
          else [])
  /\ (forall filters p0 p1,
        rangeText (trim (tradeId filters)) p0 p1 ->
        startsWithNoInteger p0 \/ startsWithNoInteger p1 ->
        filteredTrades Date_parse trades filters = [])
  /\ (forall text,
        dashFree text \/ exists p0 p1, rangeText text p0 p1)
  /\ (forall part,
        (exists ds, startsWithInteger part ds) \/ startsWithNoInteger part)
  /\ filteredTrades Date_parse trades (idFilterOf "abc") = []
  /\ filteredTrades Date_parse trades (idFilterOf "19-4") = []
  /\ (positional trades -> length trades = 10%nat ->
      filteredTrades Date_parse trades (idFilterOf "4-19") = skipn 3 trades).
Proof.
  intros dp l.
  split; [|split; [|split; [|split; [|split; [|split; [|split; [|split]]]]]]].
  - intros f ds F S.
    rewrite (filteredTrades_id dp l f (startsWithInteger_nonblank _ _ S)).
    rewrite (idBounds_single _ F), (parseInt_integer _ _ S).
    apply filter_one_id.
  - intros f N F S. rewrite (filteredTrades_id dp l f N).
    now rewrite (idBounds_single _ F), (parseInt_noInteger _ F S).
  - intros f p0 p1 ds0 ds1 R S0 S1.
    rewrite (filteredTrades_id dp l f (rangeText_nonblank _ _ _ R)).
    rewrite (idBounds_range _ _ _ R).
    rewrite (parseInt_integer _ _ S0), (parseInt_integer _ _ S1).
    now destruct (digitsVal ds0 <=? digitsVal ds1)%Z.
  - intros f p0 p1 R S.
    rewrite (filteredTrades_id dp l f (rangeText_nonblank _ _ _ R)).
    rewrite (idBounds_range _ _ _ R).
    destruct R as [F0 [F1 _]]. destruct S as [S|S].
    + now rewrite (parseInt_noInteger _ F0 S).
    + rewrite (parseInt_noInteger _ F1 S). now destruct (parseInt p0).
  - apply text_cases.
  - apply integer_or_not.
  - reflexivity.
  - reflexivity.
  - intros Hp Hn.
    assert (E : filteredTrades dp l (idFilterOf "4-19")
                = filter (fun t => (4 <=? id t)%Z && (id t <=? 19)%Z) l)
      by reflexivity.
    rewrite E. pose proof (positional_ten_ids Hp Hn) as Hi.
    do 11 (destruct l as [|? l]; try discriminate).
    simpl in Hi. inversion Hi as [[H1 H2 H3 H4 H5 H6 H7 H8 H9 H10]].
    simpl. rewrite H1, H2, H3, H4, H5, H6, H7, H8, H9, H10. reflexivity.
Qed.

Lemma C5_id_filter_witness :
  filteredTrades parseISO tenTrades (idFilterOf "4-19") = skipn 3 tenTrades
  /\ filteredTrades parseISO tenTrades (idFilterOf "x-1") = []
  /\ map id (filteredTrades parseISO tenTrades (idFilterOf " 7")) = [7%Z].
Proof.
  pose proof (C5_id_filter parseISO tenTrades)
    as [H1 [_ [H3 [H4 _]]]].
  assert (S : forall ds : jsstring,
            ds <> [] -> digits ds -> startsWithInteger ds ds).
  { intros ds N D. split; [exact N|]. split; [exact D|].
    exists [], [], []. rewrite app_nil_r. repeat split. now left. }
  split; [|split].
  - assert (T : rangeText (trim (tradeId (idFilterOf "4-19")))
                  (str "4") (str "19")).
    { split; [vm_compute; reflexivity|]. split; [vm_compute; reflexivity|].
      exists []. split; [vm_compute; reflexivity|now left]. }
    assert (S0 : startsWithInteger (str "4") (str "4")).
    { apply S; [discriminate|vm_compute; reflexivity]. }
    assert (S1 : startsWithInteger (str "19") (str "19")).
    { apply S; [discriminate|vm_compute; reflexivity]. }
    rewrite (H3 _ _ _ _ _ T S0 S1). vm_compute. reflexivity.
  - assert (T : rangeText (trim (tradeId (idFilterOf "x-1")))
                  (str "x") (str "1")).
    { split; [vm_compute; reflexivity|]. split; [vm_compute; reflexivity|].
      exists []. split; [vm_compute; reflexivity|now left]. }
    apply (H4 _ _ _ T). left. exists [], [], (str "x").
    split; [reflexivity|]. split; [reflexivity|]. split; [now left|].
    split; [vm_compute; reflexivity|]. intros _.
    split; [vm_compute; reflexivity|discriminate].
  - assert (F : dashFree (trim (tradeId (idFilterOf " 7"))))
      by (vm_compute; reflexivity).
    assert (S7 : startsWithInteger (trim (tradeId (idFilterOf " 7")))
                   (str "7")).
    { change (trim (tradeId (idFilterOf " 7"))) with (str "7").
      apply S; [discriminate|vm_compute; reflexivity]. }
    rewrite (H1 _ _ F S7). vm_compute. reflexivity.
Defined.

(** C5 as stated fails: on a ledger of ten trades the filter "4-19" is not
    empty, it gives the trades numbered 4 to 10. *)
Lemma C5_counterexample :
  length tenTrades = 10%nat
  /\ map id (filteredTrades parseISO tenTrades (idFilterOf "4-19"))
     = [4; 5; 6; 7; 8; 9; 10]%Z
  /\ filteredTrades parseISO tenTrades (idFilterOf "4-19") <> [].
Proof.
  split; [reflexivity|]. split; [vm_compute; reflexivity|].
  vm_compute. discriminate.
Qed.
